(** * aaltomuoto: frequency-coloured waveform rendering

    A shallow embedding of [aaltomuoto.py] (amplitude extraction, resampling,
    band-colour compositing, the raster passes of [render_waveform], the
    band filters, the track title and the part of [main] that leads from
    the waveform data to the image) and the properties of its specification
    and of the code that were checked against it.

    Python floats and NumPy [float64] values are IEEE-754 binary64 numbers;
    they are modelled by [spec_float] with the operations of [SpecFloat] at
    precision 53, so every rounding of the program is a rounding of the
    model.  Python integers are [Z].  Exceptions are values of [result]. *)

From Stdlib Require Import ZArith List Lia Bool Ascii DecimalString DecimalZ.
From Stdlib Require Import Reals Lra Psatz.
From Stdlib Require Import SpecFloat.
From stdpp Require Import strings gmap.

Open Scope Z_scope.

(** ** Python exceptions *)

Module Py.

Inductive exn : Type :=
| IndexError
| KeyError
| ValueError
| OverflowError
| ZeroDivisionError.

Inductive result (A : Type) : Type :=
| Ok (a : A)
| Raise (e : exn).

Arguments Ok {A} a.
Arguments Raise {A} e.

Definition bind {A B : Type} (m : result A) (f : A -> result B) : result B :=
  match m with
  | Ok a => f a
  | Raise e => Raise e
  end.

Definition is_ok {A : Type} (m : result A) : bool :=
  match m with
  | Ok _ => true
  | Raise _ => false
  end.

(** [mapM f l]: a comprehension [[f(v) for v in l]] whose body may raise. *)
Fixpoint mapM {A B : Type} (f : A -> result B) (l : list A) : result (list B) :=
  match l with
  | [] => Ok []
  | a :: l' =>
      match f a with
      | Ok b =>
          match mapM f l' with
          | Ok bs => Ok (b :: bs)
          | Raise e => Raise e
          end
      | Raise e => Raise e
      end
  end.

(** [range(a, b)] *)
Definition range (a b : Z) : list Z :=
  map (fun k => a + Z.of_nat k) (seq 0 (Z.to_nat (b - a))).

End Py.

Export Py.

Notation "'do' x <- m ; k" := (Py.bind m (fun x => k))
  (at level 10, x name, m at level 100, k at level 200).

(** ** IEEE-754 binary64 *)

Module F64.

Definition prec : Z := 53.
Definition emax : Z := 1024.

Definition add : spec_float -> spec_float -> spec_float := SFadd prec emax.
Definition sub : spec_float -> spec_float -> spec_float := SFsub prec emax.
Definition mul : spec_float -> spec_float -> spec_float := SFmul prec emax.
Definition div : spec_float -> spec_float -> spec_float := SFdiv prec emax.

(** The correctly rounded conversion of an integer. *)
Definition of_Z (z : Z) : spec_float := binary_normalize prec emax z 0 false.

Definition is_zero (x : spec_float) : bool :=
  match x with
  | S754_zero _ => true
  | _ => false
  end.

Definition is_nan (x : spec_float) : bool :=
  match x with
  | S754_nan => true
  | _ => false
  end.

Definition is_finite (x : spec_float) : bool :=
  match x with
  | S754_zero _ | S754_finite _ _ _ => true
  | _ => false
  end.

(** Finite and positive. *)
Definition is_pos (x : spec_float) : bool :=
  match x with
  | S754_finite s _ _ => negb s
  | _ => false
  end.

(** Positive, finite or not. *)
Definition is_positive (x : spec_float) : bool :=
  match x with
  | S754_finite s _ _ | S754_infinity s => negb s
  | _ => false
  end.

(** Zero, or positive, finite or not: neither negative nor NaN. *)
Definition is_nonneg_or_inf (x : spec_float) : bool :=
  match x with
  | S754_zero _ => true
  | S754_finite s _ _ | S754_infinity s => negb s
  | S754_nan => false
  end.

(** Finite and not negative: [+0.0], [-0.0] or a positive finite number. *)
Definition is_nonneg (x : spec_float) : bool :=
  match x with
  | S754_zero _ => true
  | S754_finite s _ _ => negb s
  | _ => false
  end.

Definition eqb (x y : spec_float) : bool :=
  match x, y with
  | S754_zero a, S754_zero b => Bool.eqb a b
  | S754_infinity a, S754_infinity b => Bool.eqb a b
  | S754_nan, S754_nan => true
  | S754_finite a m e, S754_finite b n f =>
      Bool.eqb a b && Pos.eqb m n && Z.eqb e f
  | _, _ => false
  end.

(** Truncation toward zero of a finite number; [None] for NaN and the
    infinities. *)
Definition trunc (x : spec_float) : option Z :=
  match x with
  | S754_zero _ => Some 0
  | S754_finite s m e => Some (cond_Zopp s (Z.shiftl (Zpos m) e))
  | _ => None
  end.

(** Exact comparison of an integer with a float, as Python compares an
    [int] with a [float]; [None] when the float is NaN. *)
Definition compare_Z (z : Z) (x : spec_float) : option comparison :=
  match x with
  | S754_nan => None
  | S754_infinity s => Some (if s then Gt else Lt)
  | S754_zero _ => Some (z ?= 0)
  | S754_finite s m e =>
      let v := cond_Zopp s (Zpos m) in
      Some (if 0 <=? e then z ?= v * 2 ^ e else z * 2 ^ (- e) ?= v)
  end.

(** [x < z] and [z > x] for a float [x] and an integer [z]. *)
Definition lt_Z (x : spec_float) (z : Z) : bool :=
  match compare_Z z x with
  | Some Gt => true
  | _ => false
  end.

(** *** The real value of a float

    Used to state how far a rounded result is from the exact one. *)

Definition p2 (e : Z) : R := powerRZ 2 e.

(** The exponent of the last place of a number whose leading bit has
    weight [2^(k-1)]: [fexp prec emax k] for binary64. *)
Definition fexp64 (k : Z) : Z := Z.max (k - 53) (-1074).

(** The absolute value of a finite number; 0 for the others. *)
Definition mag (x : spec_float) : R :=
  match x with
  | S754_finite _ m e => (IZR (Zpos m) * p2 e)%R
  | _ => 0%R
  end.

Definition sign (x : spec_float) : bool :=
  match x with
  | S754_zero s | S754_infinity s | S754_finite s _ _ => s
  | S754_nan => false
  end.

(** The value of a finite number. *)
Definition to_R (x : spec_float) : R :=
  if sign x then (- mag x)%R else mag x.

(** A well-formed binary64 number. *)
Definition valid (x : spec_float) : Prop := valid_binary prec emax x = true.

(** [rounds s x r]: [r] is what an operation whose exact result has sign [s]
    and absolute value [x] may return: never NaN, infinite only above
    [2^1023], otherwise within one unit in the last place of [x]. *)
Definition rounds (s : bool) (x : R) (r : spec_float) : Prop :=
  is_nan r = false /\ valid r /\ sign r = s /\
  (is_finite r = false -> (p2 1023 < x)%R) /\
  (is_finite r = true ->
     (Rabs (mag r - x) <= x * p2 (-52) + p2 (-1074))%R /\
     ((p2 (-1021) <= x)%R ->
        (Rabs (mag r - x) <= x * p2 (-52))%R /\ is_zero r = false)).

End F64.

Arguments F64.p2 : simpl never.

(** ** The Python and NumPy operations the program uses *)

Module Np.

(** NumPy 2 raises on an out-of-range Python integer given to a sized integer
    dtype; NumPy 1 wraps it around (silently, or with a warning). *)
Inductive int_cast : Type := CastRaises | CastWraps.

Definition INT64_MIN : Z := - 2 ^ 63.

Definition wrap_int8 (z : Z) : Z := (z + 128) mod 256 - 128.

Definition to_int8 (c : int_cast) (z : Z) : result Z :=
  if (-128 <=? z) && (z <=? 127) then Ok z
  else match c with
       | CastRaises => Raise OverflowError
       | CastWraps => Ok (wrap_int8 z)
       end.

(** [float(z)] and the implicit conversion of an [int] operand. *)
Definition float_of_int (z : Z) : result spec_float :=
  match F64.of_Z z with
  | S754_infinity _ => Raise OverflowError
  | f => Ok f
  end.

(** [int(x)] *)
Definition int_of_float (x : spec_float) : result Z :=
  match x with
  | S754_nan => Raise ValueError
  | S754_infinity _ => Raise OverflowError
  | _ => match F64.trunc x with
         | Some z => Ok z
         | None => Raise ValueError
         end
  end.

(** [x / y] on Python floats. *)
Definition truediv (x y : spec_float) : result spec_float :=
  if F64.is_zero y then Raise ZeroDivisionError else Ok (F64.div x y).

(** [.astype(np.intp)] and [.astype(np.int64)] on a [float64]: truncation;
    what does not fit yields the minimum integer (x86-64). *)
Definition astype_int64 (x : spec_float) : Z :=
  match F64.trunc x with
  | Some z => if (INT64_MIN <=? z) && (z <? 2 ^ 63) then z else INT64_MIN
  | None => INT64_MIN
  end.

(** [np.maximum] on two scalars: the larger one, NaN if either is. *)
Definition maximum1 (x y : spec_float) : spec_float :=
  match SFcompare x y with
  | Some Lt => y
  | Some _ => x
  | None => S754_nan
  end.

(** [np.maximum] on one-dimensional arrays, with broadcasting. *)
Definition maximum (xs ys : list spec_float) : result (list spec_float) :=
  if (length xs =? length ys)%nat then
    Ok (map (fun p => maximum1 (fst p) (snd p)) (combine xs ys))
  else match xs, ys with
       | [x], _ => Ok (map (fun y => maximum1 x y) ys)
       | _, [y] => Ok (map (fun x => maximum1 x y) xs)
       | _, _ => Raise ValueError
       end.

(** [a[0::2]] and [a[1::2]] *)
Fixpoint slice_even {A : Type} (l : list A) : list A :=
  match l with
  | [] => []
  | a :: l' => a :: match l' with
                    | [] => []
                    | _ :: l'' => slice_even l''
                    end
  end.

Definition slice_odd {A : Type} (l : list A) : list A :=
  match l with
  | [] => []
  | _ :: l' => slice_even l'
  end.

(** [a[j]] for an integer [j]: negative indices count from the end. *)
Definition getitem {A : Type} (a : list A) (j : Z) : result A :=
  let n := Z.of_nat (length a) in
  let j' := if j <? 0 then j + n else j in
  if (0 <=? j') && (j' <? n) then
    match nth_error a (Z.to_nat j') with
    | Some v => Ok v
    | None => Raise IndexError
    end
  else Raise IndexError.

(** [a[indices]] for an integer index array. *)
Definition take {A : Type} (a : list A) (indices : list Z) : result (list A) :=
  mapM (getitem a) indices.

(** One element of [np.linspace(0, stop, num)], [0 <= i < num]. *)
Definition linspace_at (stop num i : Z) : spec_float :=
  let div := num - 1 in
  let delta := F64.sub (F64.of_Z stop) (F64.of_Z 0) in
  let y := F64.of_Z i in
  let y :=
    if 0 <? div then
      let step := F64.div delta (F64.of_Z div) in
      if SFeqb step (F64.of_Z 0)
      then F64.mul (F64.div y (F64.of_Z div)) delta
      else F64.mul y step
    else F64.mul y delta in
  let y := F64.add y (F64.of_Z 0) in
  if (1 <? num) && (i =? num - 1) then F64.of_Z stop else y.

(** [np.linspace(0, stop, num).astype(np.intp)] *)
Definition linspace_intp (stop num : Z) : result (list Z) :=
  if num <? 0 then Raise ValueError
  else Ok (map (fun i => astype_int64 (linspace_at stop num i)) (range 0 num)).

(** [np.clip(v, lo, hi)] on an integer. *)
Definition clip (v lo hi : Z) : Z := Z.min (Z.max v lo) hi.

End Np.

(** ** The program *)

(** *** Constants *)

Definition color : Type := (Z * Z * Z)%type.

Definition BANDS : list (Z * Z * string) :=
  [ (0, 60, "sub"); (60, 250, "bass"); (250, 500, "lowmid");
    (500, 2000, "mid"); (2000, 6000, "highmid"); (6000, 20000, "high") ].

Definition BAND_COLORS : gmap string color :=
  <["sub" := (20, 60, 140)]>
  (<["bass" := (30, 100, 180)]>
  (<["lowmid" := (50, 140, 210)]>
  (<["mid" := (70, 180, 230)]>
  (<["highmid" := (120, 210, 250)]>
  (<["high" := (200, 240, 255)]> ∅))))).

Definition PIXELS_PER_SECOND : Z := 500.

Definition TITLE_HEIGHT : Z := 25.
Definition TIMELINE_HEIGHT : Z := 20.

Definition BG_COLOR : color := (5, 10, 20).
Definition CENTER_LINE_COLOR : color := (25, 50, 80).
Definition QUIET_COLOR : color := (40, 80, 120).
Definition TITLE_COLOR : color := (150, 200, 240).
Definition TIMELINE_COLOR : color := (30, 60, 100).
Definition TICK_COLOR : color := (60, 120, 180).
Definition TEXT_COLOR : color := (100, 160, 220).

Definition QUIET_THRESHOLD : Z := 8.

(** ** The Pillow canvas *)

Module Pil.

(** An RGB image.  [im_pixels] holds the pixels written through the pixel
    access object; every other pixel holds the fill colour of [Image.new].
    Rasterising glyphs is a primitive of the imaging library: each
    [draw.text] call is recorded in [im_text], latest first. *)
Record image : Type := Image {
  im_width : Z;
  im_height : Z;
  im_fill : color;
  im_pixels : gmap (Z * Z) color;
  im_text : list (Z * Z * string * color)
}.

(** [Image.new("RGB", (w, h), color=fill)]: sizes are C [int]s and must not
    be negative. *)
Definition new (w h : Z) (fill : color) : result image :=
  if (w <? 0) || (h <? 0) then Raise ValueError
  else if (2 ^ 31 <=? w) || (2 ^ 31 <=? h) then Raise OverflowError
  else Ok (Image w h fill ∅ []).

Definition getpixel (im : image) (x y : Z) : color :=
  default (im_fill im) (im_pixels im !! (x, y)).

(** The image with one pixel changed. *)
Definition put (im : image) (x y : Z) (c : color) : image :=
  Image (im_width im) (im_height im) (im_fill im)
        (<[(x, y) := c]> (im_pixels im)) (im_text im).

(** [pixels[x, y] = c]: a negative coordinate counts from the far edge. *)
Definition setitem (im : image) (x y : Z) (c : color) : result image :=
  let x' := if x <? 0 then im_width im + x else x in
  let y' := if y <? 0 then im_height im + y else y in
  if (0 <=? x') && (x' <? im_width im) && (0 <=? y') && (y' <? im_height im)
  then Ok (put im x' y' c)
  else Raise IndexError.

(** Same size, fill colour and text. *)
Definition same_frame (im im' : image) : Prop :=
  im_width im' = im_width im /\ im_height im' = im_height im /\
  im_fill im' = im_fill im /\ im_text im' = im_text im.

(** [draw.text((x, y), s, fill=c, font=...)] *)
Definition text (im : image) (x y : Z) (s : string) (c : color) : image :=
  Image (im_width im) (im_height im) (im_fill im) (im_pixels im)
        ((x, y, s, c) :: im_text im).

End Pil.

(** ** Drawing: a computation that mutates the canvas and may raise

    The canvas reached when an exception is raised is kept: it is the
    in-memory image at that moment. *)

Module Draw.

Definition t (A : Type) : Type := Pil.image -> result A * Pil.image.

Definition ret {A : Type} (a : A) : t A := fun im => (Ok a, im).

Definition bind {A B : Type} (m : t A) (f : A -> t B) : t B :=
  fun im =>
    match m im with
    | (Ok a, im') => f a im'
    | (Raise e, im') => (Raise e, im')
    end.

(** A computation that does not touch the canvas. *)
Definition lift {A : Type} (r : result A) : t A := fun im => (r, im).

Definition setitem (x y : Z) (c : color) : t unit :=
  fun im =>
    match Pil.setitem im x y c with
    | Ok im' => (Ok tt, im')
    | Raise e => (Raise e, im)
    end.

Definition text (x y : Z) (s : string) (c : color) : t unit :=
  fun im => (Ok tt, Pil.text im x y s c).

(** [for v in l: body(v)] *)
Fixpoint for_each {A : Type} (l : list A) (body : A -> t unit) : t unit :=
  match l with
  | [] => ret tt
  | v :: l' => bind (body v) (fun _ => for_each l' body)
  end.

(** [for v in l: if stop(v): break; body(v)] *)
Fixpoint for_until {A : Type} (l : list A) (stop : A -> bool)
    (body : A -> t unit) : t unit :=
  match l with
  | [] => ret tt
  | v :: l' =>
      if stop v then ret tt
      else bind (body v) (fun _ => for_until l' stop body)
  end.

End Draw.

Notation "'draw' x <- m ; k" := (Draw.bind m (fun x => k))
  (at level 10, x name, m at level 100, k at level 200).
Notation "m ;; k" := (Draw.bind m (fun _ => k))
  (at level 100, k at level 200, right associativity).

(** *** Amplitude extraction and resampling *)

(** [extract_amplitudes], on the list under the key ["data"].  The array is
    built with dtype [int8], split into the values at even and at odd
    positions, converted to [float64], and combined by [np.maximum] of the
    absolute values. *)
Definition extract_amplitudes (c : Np.int_cast) (raw_data : list Z)
  : result (list spec_float) :=
  do raw <- mapM (Np.to_int8 c) raw_data;
  let mins := map F64.of_Z (Np.slice_even raw) in
  let maxs := map F64.of_Z (Np.slice_odd raw) in
  Np.maximum (map SFabs mins) (map SFabs maxs).

(** [resize_array] *)
Definition resize_array {A : Type} (arr : list A) (target_len : Z)
  : result (list A) :=
  if Z.of_nat (length arr) =? target_len then Ok arr
  else
    do indices <- Np.linspace_intp (Z.of_nat (length arr) - 1) target_len;
    Np.take arr indices.

(** *** Rendering *)

(** [1e-6] *)
Definition EPSILON : spec_float := F64.div (F64.of_Z 1) (F64.of_Z 1000000).

(** [int((amp / 127.0) * (waveform_height // 2))] *)
Definition bar_height (amp : spec_float) (waveform_height : Z) : result Z :=
  do q <- Np.truediv amp (F64.of_Z 127);
  do h <- Np.float_of_int (waveform_height / 2);
  Np.int_of_float (F64.mul q h).

(** One step of [color += BAND_COLORS[name].astype(np.float64) * (val / total)] *)
Definition accumulate (total : spec_float)
    (acc : spec_float * spec_float * spec_float) (band : string * spec_float)
  : result (spec_float * spec_float * spec_float) :=
  let '(r, g, b) := acc in
  let '(name, val) := band in
  match BAND_COLORS !! name with
  | None => Raise KeyError
  | Some (cr, cg, cb) =>
      do w <- Np.truediv val total;
      Ok (F64.add r (F64.mul (F64.of_Z cr) w),
          F64.add g (F64.mul (F64.of_Z cg) w),
          F64.add b (F64.mul (F64.of_Z cb) w))
  end.

Fixpoint accumulate_all (total : spec_float)
    (acc : spec_float * spec_float * spec_float)
    (bands : list (string * spec_float))
  : result (spec_float * spec_float * spec_float) :=
  match bands with
  | [] => Ok acc
  | band :: rest =>
      do acc' <- accumulate total acc band;
      accumulate_all total acc' rest
  end.

(** [sum(band_vals.values()) + 1e-6], the sum taken from left to right
    starting at the integer 0. *)
Definition band_total (band_vals : list (string * spec_float)) : spec_float :=
  F64.add (fold_left F64.add (map snd band_vals) (F64.of_Z 0)) EPSILON.

(** The colour of a column from its band values: the weighted sum of the
    band colours, cast to [int64] and clipped to 0..255. *)
Definition band_color (band_vals : list (string * spec_float)) : result color :=
  let total := band_total band_vals in
  let zero := F64.of_Z 0 in
  do c <- accumulate_all total (zero, zero, zero) band_vals;
  let '(r, g, b) := c in
  Ok (Np.clip (Np.astype_int64 r) 0 255,
      Np.clip (Np.astype_int64 g) 0 255,
      Np.clip (Np.astype_int64 b) 0 255).

(** A triple of channels none of which is negative or NaN. *)
Definition channels_nn (c : spec_float * spec_float * spec_float) : Prop :=
  let '(r, g, b) := c in
  (F64.valid r /\ F64.is_nonneg_or_inf r = true) /\
  (F64.valid g /\ F64.is_nonneg_or_inf g = true) /\
  (F64.valid b /\ F64.is_nonneg_or_inf b = true).

(** The marker of a quiet column: rows [center_y - 1 .. center_y + 1] that
    lie on the canvas. *)
Definition draw_quiet (x center_y height : Z) : Draw.t unit :=
  Draw.for_each (range (-1) 2) (fun dy =>
    let y := center_y + dy in
    if (0 <=? y) && (y <? height) then Draw.setitem x y QUIET_COLOR
    else Draw.ret tt).

(** The bar of a column: rows [center_y - bar_height .. center_y + bar_height]
    that lie in the waveform area. *)
Definition draw_bar (x center_y bar_height waveform_height : Z) (c : color)
  : Draw.t unit :=
  Draw.for_each (range (center_y - bar_height) (center_y + bar_height + 1))
    (fun y =>
       if (TITLE_HEIGHT <=? y) && (y <? TITLE_HEIGHT + waveform_height)
       then Draw.setitem x y c
       else Draw.ret tt).

(** The body of the loop over the columns. *)
Definition draw_column (original_amps : list spec_float)
    (resized_bands : list (string * list spec_float))
    (x_indices : list Z) (height : Z) (x : Z) : Draw.t unit :=
  let waveform_height := height - TIMELINE_HEIGHT - TITLE_HEIGHT in
  let center_y := TITLE_HEIGHT + waveform_height / 2 in
  draw idx <- Draw.lift (Np.getitem x_indices x);
  draw amp <- Draw.lift (Np.getitem original_amps idx);
  draw bh <- Draw.lift (bar_height amp waveform_height);
  if F64.lt_Z amp QUIET_THRESHOLD then draw_quiet x center_y height
  else
    draw band_vals <- Draw.lift
      (mapM (fun band : string * list spec_float =>
               do v <- Np.getitem (snd band) idx; Ok (fst band, v))
            resized_bands);
    draw c <- Draw.lift (band_color band_vals);
    draw_bar x center_y bh waveform_height c.

(** [f"{int(time_sec // 60)}:{int(time_sec % 60):02d}"] *)
Definition dec (n : Z) : string := NilZero.string_of_uint (N.to_uint (Z.to_N n)).

Definition tick_label (time_sec : Z) : string :=
  let s := time_sec mod 60 in
  dec (time_sec / 60) +:+ ":" +:+ (if s <? 10 then "0" else "") +:+ dec s.

(** [int((time_sec / duration_seconds) * (width - 1))] *)
Definition tick_x (duration_seconds : spec_float) (width : Z) (time_sec : Z)
  : result Z :=
  do t <- Np.float_of_int time_sec;
  do q <- Np.truediv t duration_seconds;
  do w <- Np.float_of_int (width - 1);
  Np.int_of_float (F64.mul q w).

(** The body of the loop over the ticks, after the [break] test. *)
Definition draw_tick (duration_seconds : spec_float) (width height : Z)
    (timeline_y : Z) (i : Z) : Draw.t unit :=
  let time_sec := i * 30 in
  draw x <- Draw.lift (tick_x duration_seconds width time_sec);
  Draw.for_each (range timeline_y (Z.min (timeline_y + 5) height))
    (fun y =>
       if (0 <=? x) && (x <? width) then Draw.setitem x y TICK_COLOR
       else Draw.ret tt) ;;
  Draw.text (x + 3) (timeline_y + 3) (tick_label time_sec) TEXT_COLOR.

(** [time_sec > duration_seconds] *)
Definition past_end (duration_seconds : spec_float) (i : Z) : bool :=
  match F64.compare_Z (i * 30) duration_seconds with
  | Some Gt => true
  | _ => false
  end.

Definition draw_ticks (duration_seconds : spec_float) (width height : Z)
    (timeline_y : Z) : Draw.t unit :=
  draw n <- Draw.lift
    (do q <- Np.truediv duration_seconds (F64.of_Z 30);
     Np.int_of_float q);
  Draw.for_until (range 0 (n + 2)) (past_end duration_seconds)
    (draw_tick duration_seconds width height timeline_y).

(** Everything [render_waveform] does to the canvas once it exists. *)
Definition draw_waveform (original_amps : list spec_float)
    (resized_bands : list (string * list spec_float))
    (duration_seconds : spec_float) (track_info : string)
    (width height : Z) : Draw.t unit :=
  let n_samples := Z.of_nat (length original_amps) in
  let waveform_height := height - TIMELINE_HEIGHT - TITLE_HEIGHT in
  Draw.text 10 5 track_info TITLE_COLOR ;;
  let center_y := TITLE_HEIGHT + waveform_height / 2 in
  Draw.for_each (range 0 width)
    (fun x => Draw.setitem x center_y CENTER_LINE_COLOR) ;;
  draw x_indices <- Draw.lift (Np.linspace_intp (n_samples - 1) width);
  Draw.for_each (range 0 width)
    (draw_column original_amps resized_bands x_indices height) ;;
  let timeline_y := TITLE_HEIGHT + waveform_height in
  Draw.for_each (range 0 width)
    (fun x => Draw.setitem x timeline_y TIMELINE_COLOR) ;;
  draw_ticks duration_seconds width height timeline_y.

(** What a call of [render_waveform] leaves behind: the image written to
    the output file, or the exception raised together with the canvas as it
    was at that moment ([None] when it had not been created). *)
Inductive outcome : Type :=
| Saved (im : Pil.image)
| Failed (e : exn) (canvas : option Pil.image).

(** [render_waveform] *)
Definition render_waveform (original_amps : list spec_float)
    (band_amps : list (string * list spec_float))
    (duration_seconds : spec_float) (track_info : string)
    (width height : Z) : outcome :=
  let n_samples := Z.of_nat (length original_amps) in
  match mapM (fun band : string * list spec_float =>
                do amps <- resize_array (snd band) n_samples;
                Ok (fst band, amps)) band_amps with
  | Raise e => Failed e None
  | Ok resized_bands =>
      match Pil.new width height BG_COLOR with
      | Raise e => Failed e None
      | Ok img =>
          match draw_waveform original_amps resized_bands duration_seconds
                  track_info width height img with
          | (Ok _, img') => Saved img'
          | (Raise e, img') => Failed e (Some img')
          end
      end
  end.

(** Every pixel written to the canvas so far is at a place, and has a
    colour, that satisfy [P]. *)
Definition written (P : Z -> Z -> color -> Prop) (im : Pil.image) : Prop :=
  forall x y c, Pil.im_pixels im !! (x, y) = Some c -> P x y c.

(** An RGB colour: three channels of eight bits. *)
Definition rgb (c : color) : Prop :=
  let '(r, g, b) := c in 0 <= r <= 255 /\ 0 <= g <= 255 /\ 0 <= b <= 255.

(** *** Band filters, track title and duration

    The parts of [main] and of its helpers that compute a value: the
    programs [main] runs ([ffmpeg], [audiowaveform]) and the tag reader are
    outside the embedding, and what they return is an argument here. *)

(** [str(n)], and [f"{n}"] for an integer [n]. *)
Definition str (n : Z) : string := NilZero.string_of_int (Z.to_int n).

(** Whether a character occurs in a string. *)
Fixpoint has_char (c : Ascii.ascii) (s : string) : bool :=
  match s with
  | EmptyString => false
  | String a s' => Ascii.eqb a c || has_char c s'
  end.

(** [build_ffmpeg_filter] *)
Definition build_ffmpeg_filter (low_hz high_hz : Z) : string :=
  if low_hz =? 0 then "lowpass=f=" +:+ str high_hz
  else if 20000 <=? high_hz then "highpass=f=" +:+ str low_hz
  else "highpass=f=" +:+ str low_hz +:+ ",lowpass=f=" +:+ str high_hz.

(** [get_track_info].  [audio] is what [mutagen.File(file_path, easy=True)]
    does: it raises, returns [None], or returns the tags, each a list of
    strings; [basename] is [os.path.basename(file_path)]. *)
Definition first_or_empty (l : option (list string)) : string :=
  match l with
  | Some (a :: _) => a
  | _ => ""
  end.

Definition truthy (s : string) : bool := negb (String.eqb s "").

Definition get_track_info (audio : result (option (gmap string (list string))))
    (basename : string) : string :=
  match audio with
  | Raise _ => basename
  | Ok None => basename
  | Ok (Some tags) =>
      let artist := first_or_empty (tags !! "artist") in
      let title := first_or_empty (tags !! "title") in
      if truthy artist && truthy title then artist +:+ " - " +:+ title
      else if truthy title then title
      else if truthy artist then artist
      else basename
  end.

(** [main]: [float(n_pixels * samples_per_pixel) / sample_rate], with
    [n_pixels = len(raw_data) // 2]. *)
Definition main_duration (data_len samples_per_pixel sample_rate : Z)
  : result spec_float :=
  let n_pixels := data_len / 2 in
  do f <- Np.float_of_int (n_pixels * samples_per_pixel);
  do r <- Np.float_of_int sample_rate;
  Np.truediv f r.

(** [main], from the waveform data that [audiowaveform] returned for the
    track and for each band to the call of [render_waveform]. *)
Definition main_render (c : Np.int_cast) (orig_data : list Z)
    (band_data : list (string * list Z))
    (samples_per_pixel sample_rate : Z) (track_info : string)
    (width height : Z) : outcome :=
  match extract_amplitudes c orig_data with
  | Raise e => Failed e None
  | Ok orig_amps =>
      match mapM (fun band : string * list Z =>
                    do amps <- extract_amplitudes c (snd band);
                    Ok (fst band, amps)) band_data with
      | Raise e => Failed e None
      | Ok band_amps =>
          match main_duration (Z.of_nat (length orig_data))
                  samples_per_pixel sample_rate with
          | Raise e => Failed e None
          | Ok duration_seconds =>
              render_waveform orig_amps band_amps duration_seconds
                track_info width height
          end
      end
  end.

(** ** The formulas of the specification

    Written from the words of the specification, on exact rationals, to be
    compared with what the program computes. *)

Module Spec.

(** [magnitude[i] = max(abs(min[i]), abs(max[i]))] over the pairs of a
    peak-pair stream. *)
Fixpoint magnitudes (stream : list Z) : list Z :=
  match stream with
  | lo :: hi :: rest => Z.max (Z.abs lo) (Z.abs hi) :: magnitudes rest
  | _ => []
  end.

(** [floor(a / b)] and the integer nearest to [a / b], [b > 0]. *)
Definition floor_ratio (a b : Z) : Z := a / b.
Definition round_ratio (a b : Z) : Z := (2 * a + b) / (2 * b).

(** [floor((amp / 127) * (waveform_area_height / 2))] with
    [waveform_area_height = height - 25 - 20]. *)
Definition bar_height (amp height : Z) : Z :=
  floor_ratio (amp * (height - 25 - 20)) (127 * 2).

(** [round(time / duration * (width - 1))] *)
Definition tick_x (time duration width : Z) : Z :=
  round_ratio (time * (width - 1)) duration.

(** [i * (L - 1) / (T - 1)] rounded to the nearest index and clamped to
    [0 .. L - 1]. *)
Definition resample_index (L T i : Z) : Z :=
  Z.max 0 (Z.min (L - 1) (round_ratio (i * (L - 1)) (T - 1))).

End Spec.

(** * Properties *)

(** ** Binary64 rounding

    [binary_round_aux] shifts the mantissa to the exponent of the result,
    rounds to nearest, and shifts once more when the rounding carried.  The
    lemmas below bound the value it returns; [mul_real], [div_real],
    [add_finite_real] and [of_Z_exact] are what the rest of the development
    uses. *)

Module F64Facts.

Import F64.

Lemma digits2_pos_log2 (p : positive) :
  Zpos (digits2_pos p) = Z.log2 (Zpos p) + 1.
Proof.
  induction p as [p IH | p IH |]; simpl digits2_pos.
  - rewrite Pos2Z.inj_succ, IH, Pos2Z.inj_xI.
    rewrite (Z.log2_succ_double (Zpos p)) by lia. lia.
  - rewrite Pos2Z.inj_succ, IH, Pos2Z.inj_xO.
    rewrite (Z.log2_double (Zpos p)) by lia. lia.
  - reflexivity.
Qed.

Lemma Zdigits2_bounds (m : Z) :
  0 < m -> 2 ^ (Zdigits2 m - 1) <= m < 2 ^ Zdigits2 m.
Proof.
  intros Hm. destruct m as [|p|p]; try lia.
  unfold Zdigits2. rewrite digits2_pos_log2.
  pose proof (Z.log2_spec (Zpos p) ltac:(lia)) as H.
  replace (Z.log2 (Z.pos p) + 1 - 1) with (Z.log2 (Z.pos p)) by lia.
  replace (Z.log2 (Z.pos p) + 1) with (Z.succ (Z.log2 (Z.pos p))) by lia.
  exact H.
Qed.

Lemma Zdigits2_nonneg (m : Z) : 0 <= Zdigits2 m.
Proof. destruct m; simpl; lia. Qed.

Lemma Zdigits2_unique (m d : Z) :
  0 < m -> 2 ^ (d - 1) <= m < 2 ^ d -> Zdigits2 m = d.
Proof.
  intros Hm H. destruct m as [|p|p]; try lia.
  unfold Zdigits2. rewrite digits2_pos_log2.
  assert (Z.log2 (Zpos p) = d - 1); [|lia].
  apply Z.log2_unique; [|replace (Z.succ (d-1)) with d by lia; lia].
  destruct (Z.le_gt_cases 0 (d - 1)); [lia|].
  assert (d <= 0) by lia.
  destruct (Z.eq_dec d 0) as [->|]; [simpl in H; lia|].
  rewrite (Z.pow_neg_r 2 d) in H by lia. lia.
Qed.

Lemma shr_1_m (mrs : shr_record) :
  0 <= shr_m mrs -> shr_m (shr_1 mrs) = shr_m mrs / 2.
Proof.
  destruct mrs as [m r s]. simpl. intros Hm.
  destruct m as [|p|p]; try lia; simpl.
  - reflexivity.
  - destruct p; simpl.
    + rewrite Pos2Z.inj_xI. apply Z.div_unique with 1; lia.
    + rewrite Pos2Z.inj_xO. apply Z.div_unique with 0; lia.
    + reflexivity.
Qed.

Lemma iter_shr_1_m (p : positive) (mrs : shr_record) :
  0 <= shr_m mrs ->
  shr_m (SpecFloat.iter_pos shr_1 p mrs) = shr_m mrs / 2 ^ Zpos p.
Proof.
  revert mrs. induction p as [p IH | p IH |]; intros mrs Hm; simpl SpecFloat.iter_pos.
  - assert (H1 : 0 <= shr_m (shr_1 mrs)) by (rewrite shr_1_m by lia; apply Z.div_pos; lia).
    assert (H2 : 0 <= shr_m (SpecFloat.iter_pos shr_1 p (shr_1 mrs)))
      by (rewrite IH by lia; apply Z.div_pos; lia).
    rewrite IH by lia. rewrite IH by lia. rewrite shr_1_m by lia.
    rewrite !Z.div_div by lia. f_equal.
    replace (Z.pos p~1) with (1 + Z.pos p + Z.pos p) by lia.
    rewrite !Z.pow_add_r by lia. change (2 ^ 1) with 2. lia.
  - assert (H2 : 0 <= shr_m (SpecFloat.iter_pos shr_1 p mrs))
      by (rewrite IH by lia; apply Z.div_pos; lia).
    rewrite IH by lia. rewrite IH by lia.
    rewrite !Z.div_div by lia. f_equal.
    replace (Z.pos p~0) with (Z.pos p + Z.pos p) by lia.
    rewrite !Z.pow_add_r by lia. lia.
  - rewrite shr_1_m by lia. reflexivity.
Qed.

Lemma fexp_64 (k : Z) : fexp 53 1024 k = fexp64 k.
Proof. reflexivity. Qed.

Lemma shr_m_of_loc (m : Z) (l : location) : shr_m (shr_record_of_loc m l) = m.
Proof. destruct l as [|[]]; reflexivity. Qed.

Lemma shr_spec (mrs : shr_record) (e n : Z) :
  0 <= shr_m mrs -> 0 <= n ->
  shr_m (fst (shr mrs e n)) = shr_m mrs / 2 ^ n /\ snd (shr mrs e n) = e + n.
Proof.
  intros Hm Hn. destruct n as [|p|p]; try lia; simpl.
  - rewrite Z.div_1_r. lia.
  - split; [apply iter_shr_1_m; lia | reflexivity].
Qed.

Lemma shr_nonpos (mrs : shr_record) (e n : Z) :
  n <= 0 -> shr mrs e n = (mrs, e).
Proof. destruct n; simpl; intros; try lia; reflexivity. Qed.

Lemma rne_bounds (m : Z) (l : location) :
  m <= round_nearest_even m l <= m + 1.
Proof.
  destruct l as [|[]]; simpl; try lia. destruct (Z.even m); lia.
Qed.

Lemma rne_exact (m : Z) : round_nearest_even m loc_Exact = m.
Proof. reflexivity. Qed.

Lemma pow2_pos (k : Z) : 0 <= k -> 0 < 2 ^ k.
Proof. intros. apply Z.pow_pos_nonneg; lia. Qed.

Lemma pow2_le (a b : Z) : 0 <= a <= b -> 2 ^ a <= 2 ^ b.
Proof. intros. apply Z.pow_le_mono_r; lia. Qed.

Lemma pow2_lt (a b : Z) : 0 <= a < b -> 2 ^ a < 2 ^ b.
Proof. intros. apply Z.pow_lt_mono_r; lia. Qed.

(** Rounding an aligned mantissa. *)
Lemma bra_aligned (s : bool) (mx ex : Z) (lx : location) :
  0 <= mx -> ex <= fexp64 (Zdigits2 mx + ex) ->
  let E := fexp64 (Zdigits2 mx + ex) in
  let m0 := mx / 2 ^ (E - ex) in
  exists m1, m0 <= m1 <= m0 + 1 /\
    (E = ex -> lx = loc_Exact -> m1 = mx) /\
    match binary_round_aux 53 1024 s mx ex lx with
    | S754_zero s' => s' = s /\ m1 = 0
    | S754_finite s' m e =>
        s' = s /\ canonical_mantissa 53 1024 m e = true /\ e <= 971 /\
        E <= e /\ Zpos m * 2 ^ (e - E) = m1
    | S754_infinity s' => s' = s /\ 0 <= E /\ 2 ^ 1024 <= m1 * 2 ^ E
    | S754_nan => False
    end.
Proof.
  intros Hmx Hal E m0.
  assert (Hk : 0 <= E - ex) by (subst E; lia).
  assert (HEmin : -1074 <= E) by (subst E; unfold fexp64; lia).
  set (d := Zdigits2 mx) in *.
  assert (Hm0 : 0 <= m0) by (apply Z.div_pos; [lia | apply pow2_pos; lia]).
  assert (Hfacts : m0 < 2 ^ 53 /\ (-1074 < E -> 2 ^ 52 <= m0)).
  { destruct (Z.eq_dec mx 0) as [H0 | H0].
    - subst m0. rewrite H0, Z.div_0_l by (pose proof (pow2_pos (E - ex)); lia).
      split; [reflexivity|]. intros HE. exfalso.
      subst E d. rewrite H0 in *. simpl in *. unfold fexp64 in *. lia.
    - assert (Hmx' : 0 < mx) by lia.
      pose proof (Zdigits2_bounds mx Hmx') as Hd. fold d in Hd.
      assert (Hd1 : 1 <= d).
      { destruct (Z.le_gt_cases 1 d); [lia|]. 
        assert (2 ^ d <= 2 ^ 0) by (destruct (Z.le_gt_cases 0 d); [apply pow2_le; lia | rewrite Z.pow_neg_r by lia; simpl; lia]).
        simpl in *. lia. }
      split.
      + apply Z.div_lt_upper_bound; [apply pow2_pos; lia|].
        rewrite <- Z.pow_add_r by lia.
        apply Z.lt_le_trans with (2 ^ d); [lia|].
        apply pow2_le. subst E. unfold fexp64. lia.
      + intros HE. assert (HEd : E = d + ex - 53) by (subst E; unfold fexp64 in *; lia).
        apply Z.div_le_lower_bound; [apply pow2_pos; lia|].
        rewrite <- Z.pow_add_r by lia.
        replace (E - ex + 52) with (d - 1) by lia. lia. }
  destruct Hfacts as [Hm0lt Hnorm].
  unfold binary_round_aux, shr_fexp.
  rewrite !fexp_64. fold d. fold E.
  destruct (shr (shr_record_of_loc mx lx) ex (E - ex)) as [mrs' e'] eqn:Hshr.
  pose proof (shr_spec (shr_record_of_loc mx lx) ex (E - ex)) as Hs.
  rewrite shr_m_of_loc, Hshr in Hs. simpl in Hs.
  destruct Hs as [Hs1 Hs2]; [lia | lia |].
  fold m0 in Hs1. replace (ex + (E - ex)) with E in Hs2 by lia. subst e'.
  set (m1 := round_nearest_even (shr_m mrs') (loc_of_shr_record mrs')).
  pose proof (rne_bounds (shr_m mrs') (loc_of_shr_record mrs')) as Hr.
  fold m1 in Hr. rewrite Hs1 in Hr.
  exists m1. split; [exact Hr|]. split.
  { intros HE Hl. subst lx. subst m1.
    replace (E - ex) with 0 in Hshr by lia. simpl in Hshr.
    injection Hshr as <- _. simpl. reflexivity. }
  destruct (Z.eq_dec m1 0) as [Hz | Hnz].
  { rewrite Hz. simpl Zdigits2. rewrite shr_nonpos by (unfold fexp, emin; lia).
    simpl. auto. }
  assert (Hm1 : 0 < m1) by lia.
  pose proof (Zdigits2_bounds m1 Hm1) as Hd1b.
  destruct (Z.eq_dec m1 (2 ^ 53)) as [Htop | Hntop].
  - (* the rounding carried into a new digit *)
    assert (Hdig : Zdigits2 m1 = 54).
    { apply Zdigits2_unique; rewrite Htop; simpl; lia. }
    rewrite Hdig.
    replace (fexp 53 1024 (54 + E) - E) with 1 by (unfold fexp, emin; lia).
    rewrite Htop.
    change (shr (shr_record_of_loc (2 ^ 53) loc_Exact) E 1)
      with ({| shr_m := Zpos 4503599627370496; shr_r := false; shr_s := false |}, E + 1).
    cbv beta iota. cbn [shr_m].
    destruct (Z.leb_spec (E + 1) (1024 - 53)) as [Hle | Hgt].
    + repeat split; try lia.
      * unfold canonical_mantissa.
        change (Z.pos (digits2_pos 4503599627370496)) with 53.
        apply Z.eqb_eq. unfold fexp, emin. lia.
      * replace (E + 1 - E) with 1 by lia. reflexivity.
    + repeat split; try lia.
      change (2 ^ 1024) with (2 ^ 53 * 2 ^ 971).
      apply Z.mul_le_mono_nonneg_l; [lia|]. apply pow2_le. lia.
  - assert (Hm1lt : m1 < 2 ^ 53) by lia.
    assert (Hdig : Zdigits2 m1 <= 53).
    { destruct (Z.le_gt_cases (Zdigits2 m1) 53); [lia|].
      assert (2 ^ 53 <= 2 ^ (Zdigits2 m1 - 1)) by (apply pow2_le; lia). lia. }
    rewrite shr_nonpos by (unfold fexp, emin; lia).
    simpl shr_m. destruct m1 as [|p1|p1] eqn:Hp1; try lia.
    destruct (Z.leb_spec E (1024 - 53)) as [Hle | Hgt].
    + repeat split; try lia.
      * unfold canonical_mantissa. apply Z.eqb_eq.
        change (Z.pos (digits2_pos p1)) with (Zdigits2 (Zpos p1)).
        destruct (Z.eq_dec E (-1074)) as [HE|HE]; [unfold fexp, emin; lia|].
        assert (2 ^ 52 <= m0) by (apply Hnorm; lia).
        assert (53 <= Zdigits2 (Zpos p1)).
        { destruct (Z.le_gt_cases 53 (Zdigits2 (Z.pos p1))); [lia|].
          assert (2 ^ Zdigits2 (Z.pos p1) <= 2 ^ 52) by (apply pow2_le; pose proof (Zdigits2_nonneg (Zpos p1)); lia).
          lia. }
        unfold fexp, emin. lia.
      * rewrite Z.sub_diag. simpl. lia.
    + repeat split; try lia.
      assert (2 ^ 52 <= m0) by (apply Hnorm; lia).
      change (2 ^ 1024) with (2 ^ 52 * 2 ^ 972).
      apply Z.mul_le_mono_nonneg; try lia. apply pow2_le. lia.
Qed.

Lemma p2_pos (e : Z) : (0 < p2 e)%R.
Proof. apply powerRZ_lt. lra. Qed.

Lemma p2_add (a b : Z) : p2 (a + b) = (p2 a * p2 b)%R.
Proof. apply powerRZ_add. lra. Qed.

Lemma p2_IZR (k : Z) : 0 <= k -> IZR (2 ^ k) = p2 k.
Proof.
  intros Hk. rewrite <- (Z2Nat.id k Hk). unfold p2.
  rewrite <- pow_powerRZ, <- pow_IZR. reflexivity.
Qed.

Lemma p2_le (a b : Z) : a <= b -> (p2 a <= p2 b)%R.
Proof.
  intros H. replace b with (a + (b - a)) by lia. rewrite p2_add.
  rewrite <- (p2_IZR (b - a)) by lia.
  assert (1 <= IZR (2 ^ (b - a)))%R.
  { apply IZR_le. pose proof (pow2_pos (b - a)). lia. }
  pose proof (p2_pos a). nra.
Qed.

Lemma p2_lt (a b : Z) : a < b -> (p2 a < p2 b)%R.
Proof.
  intros H. replace b with (a + (b - a)) by lia. rewrite p2_add.
  rewrite <- (p2_IZR (b - a)) by lia.
  assert (2 <= IZR (2 ^ (b - a)))%R.
  { apply IZR_le. change 2 with (2 ^ 1) at 1. apply pow2_le. lia. }
  pose proof (p2_pos a). nra.
Qed.

Lemma p2_lt_inv (a b : Z) : (p2 a < p2 b)%R -> a < b.
Proof.
  intros H. destruct (Z.lt_ge_cases a b); [assumption|].
  pose proof (p2_le b a ltac:(lia)). lra.
Qed.

(** Rounding: the value of the result of [binary_round_aux] on an aligned
    mantissa that brackets the exact value [x]. *)
Lemma bra_real (s : bool) (mx ex : Z) (lx : location) (x : R) :
  0 <= mx -> ex <= fexp64 (Zdigits2 mx + ex) ->
  (IZR mx * p2 ex <= x < IZR (mx + 1) * p2 ex)%R ->
  let r := binary_round_aux 53 1024 s mx ex lx in
  F64.is_nan r = false /\ valid r /\ sign r = s /\
  (F64.is_finite r = false -> (p2 1023 < x)%R) /\
  (F64.is_finite r = true ->
     (Rabs (mag r - x) <= x * p2 (-52) + p2 (-1074))%R /\
     ((p2 (-1021) <= x)%R ->
        (Rabs (mag r - x) <= x * p2 (-52))%R /\ F64.is_zero r = false)).
Proof.
  intros Hmx Hal Hx r.
  destruct (bra_aligned s mx ex lx Hmx Hal) as (m1 & Hm1 & _ & Hr).
  fold r in Hr.
  set (E := fexp64 (Zdigits2 mx + ex)) in *.
  set (m0 := mx / 2 ^ (E - ex)) in *.
  assert (Hk : 0 <= E - ex) by (subst E; lia).
  set (d := Zdigits2 mx) in *.
  pose proof (pow2_pos (E - ex) Hk) as Hpk.
  assert (Hdiv : m0 * 2 ^ (E - ex) <= mx < (m0 + 1) * 2 ^ (E - ex)).
  { pose proof (Z.div_mod mx (2 ^ (E - ex)) ltac:(lia)) as Hdm.
    pose proof (Z.mod_pos_bound mx (2 ^ (E - ex)) Hpk).
    fold m0 in Hdm. nia. }
  assert (HpE : p2 E = (IZR (2 ^ (E - ex)) * p2 ex)%R).
  { rewrite p2_IZR by lia. rewrite <- p2_add. f_equal. lia. }
  assert (Hlo : (IZR m0 * p2 E <= x)%R).
  { rewrite HpE. apply Rle_trans with (IZR mx * p2 ex)%R; [|lra].
    rewrite <- Rmult_assoc, <- mult_IZR.
    apply Rmult_le_compat_r; [pose proof (p2_pos ex); lra|].
    apply IZR_le. lia. }
  assert (Hhi : (x < IZR (m0 + 1) * p2 E)%R).
  { rewrite HpE. apply Rlt_le_trans with (IZR (mx + 1) * p2 ex)%R; [lra|].
    rewrite <- Rmult_assoc, <- mult_IZR.
    apply Rmult_le_compat_r; [pose proof (p2_pos ex); lra|].
    apply IZR_le. lia. }
  assert (Hm0 : 0 <= m0) by (apply Z.div_pos; lia).
  pose proof (p2_pos E) as HE0.
  assert (HEmin : -1074 <= E) by (subst E; unfold fexp64; lia).
  assert (Hm1R : (IZR m0 <= IZR m1 <= IZR m0 + 1)%R).
  { split; [apply IZR_le; lia|]. rewrite <- plus_IZR. apply IZR_le. lia. }
  rewrite plus_IZR in Hhi.
  assert (Hx0 : (0 <= x)%R).
  { assert (0 <= IZR m0)%R by (apply IZR_le; lia). nra. }
  assert (Herr : (Rabs (IZR m1 * p2 E - x) <= p2 E)%R).
  { apply Rabs_le. split; nra. }
  assert (Hpos : -1074 < E -> 0 < mx).
  { intros HE. destruct (Z.eq_dec mx 0) as [H0|H0]; [|lia]. exfalso.
    subst E d. rewrite H0 in *. simpl in *. unfold fexp64 in *. lia. }
  assert (Hm0big : -1074 < E -> 2 ^ 52 <= m0).
  { intros HE. pose proof (Zdigits2_bounds mx (Hpos HE)) as Hd. fold d in Hd.
    assert (HEd : E = d + ex - 53) by (subst E; unfold fexp64 in *; lia).
    apply Z.div_le_lower_bound; [lia|].
    rewrite <- Z.pow_add_r by lia.
    replace (E - ex + 52) with (d - 1) by lia. lia. }
  assert (Hnormal : -1074 < E -> (p2 E <= x * p2 (-52))%R).
  { intros HE. pose proof (Hm0big HE) as Hb.
    assert (IZR (2 ^ 52) <= IZR m0)%R by (apply IZR_le; lia).
    rewrite p2_IZR in H by lia.
    assert (p2 52 * p2 (-52) = 1)%R by (rewrite <- p2_add; reflexivity).
    pose proof (p2_pos (-52)). pose proof (p2_pos 52).
    assert (p2 52 * p2 E <= x)%R by nra.
    replace (p2 E) with ((p2 52 * p2 E) * p2 (-52))%R by nra.
    apply Rmult_le_compat_r; lra. }
  assert (Hgen : (p2 E <= x * p2 (-52) + p2 (-1074))%R).
  { destruct (Z.eq_dec E (-1074)) as [HE|HE].
    - rewrite HE. pose proof (p2_pos (-52)). nra.
    - pose proof (Hnormal ltac:(lia)). pose proof (p2_pos (-1074)). lra. }
  assert (HEbig : (p2 (-1021) <= x)%R -> -1074 < E).
  { intros Hn. destruct (Z.eq_dec mx 0) as [H0|H0].
    - exfalso. rewrite H0 in Hx. simpl in Hx. rewrite Rmult_1_l in Hx.
      assert (ex <= -1074) by (subst E d; rewrite H0 in *; simpl in *; unfold fexp64 in *; lia).
      pose proof (p2_le ex (-1074) ltac:(lia)).
      pose proof (p2_lt (-1074) (-1021) ltac:(lia)). lra.
    - pose proof (Zdigits2_bounds mx ltac:(lia)) as Hd. fold d in Hd.
      assert (Hd1 : 0 <= d) by apply Zdigits2_nonneg.
      assert (x < p2 (d + ex))%R.
      { rewrite p2_add. rewrite <- p2_IZR by lia.
        apply Rlt_le_trans with (IZR (mx + 1) * p2 ex)%R; [lra|].
        apply Rmult_le_compat_r; [pose proof (p2_pos ex); lra|]. apply IZR_le. lia. }
      assert (-1021 < d + ex) by (apply p2_lt_inv; lra).
      subst E. unfold fexp64. lia. }
  destruct r as [s' | s' | | s' m e]; try contradiction.
  - destruct Hr as [-> ->]. simpl. rewrite Rmult_0_l in Herr.
    assert (Hnn : ~ (p2 (-1021) <= x)%R).
    { intros Hn. pose proof (Hm0big (HEbig Hn)).
      assert (0 < 2 ^ 52) by (apply pow2_pos; lia). lia. }
    split; [reflexivity|]. split; [reflexivity|]. split; [reflexivity|].
    split; [discriminate|]. intros _.
    split; [lra|]. intros Hn. contradiction.
  - destruct Hr as (-> & HE & Hbig). simpl.
    split; [reflexivity|]. split; [reflexivity|]. split; [reflexivity|].
    split; [|discriminate]. intros _.
    assert (IZR (2 ^ 1024) <= IZR (m1 * 2 ^ E))%R by (apply IZR_le; lia).
    rewrite mult_IZR, !p2_IZR in H by lia.
    assert (p2 1024 = 2 * p2 1023)%R by (replace 1024 with (1 + 1023) by lia; rewrite p2_add; f_equal; unfold p2; simpl; lra).
    pose proof (Hnormal ltac:(lia)).
    assert (p2 (-52) <= 1/2)%R.
    { apply Rle_trans with (p2 (-1)); [apply p2_le; lia|]. unfold p2. simpl. lra. }
    assert (IZR m1 * p2 E <= (IZR m0 + 1) * p2 E)%R
      by (apply Rmult_le_compat_r; lra).
    assert (x * p2 (-52) <= x * (1 / 2))%R by (apply Rmult_le_compat_l; lra).
    pose proof (p2_pos 1023). lra.
  - destruct Hr as (-> & Hcan & Hle & HEe & Hval).
    assert (Hv : (IZR (Zpos m) * p2 e = IZR m1 * p2 E)%R).
    { rewrite <- Hval, mult_IZR, p2_IZR by lia.
      rewrite Rmult_assoc, <- p2_add. do 2 f_equal. lia. }
    simpl mag. rewrite Hv.
    split; [reflexivity|]. split.
    { unfold valid, prec, emax. simpl. unfold bounded. rewrite Hcan. simpl.
      apply Z.leb_le. lia. }
    split; [reflexivity|]. split; [discriminate|]. intros _.
    split; [lra|].
    intros Hn. pose proof (Hnormal (HEbig Hn)). split; [lra | reflexivity].
Qed.

Lemma rounds_zero (s : bool) : rounds s 0 (S754_zero s).
Proof.
  unfold rounds. simpl. repeat split; try discriminate.
  - rewrite Rminus_0_r, Rabs_R0, Rmult_0_l, Rplus_0_l.
    pose proof (p2_pos (-1074)). lra.
  - exfalso. pose proof (p2_pos (-1021)). lra.
  - exfalso. pose proof (p2_pos (-1021)). lra.
Qed.

Lemma valid_finite_inv (s : bool) (m : positive) (e : Z) :
  valid (S754_finite s m e) ->
  Zdigits2 (Zpos m) <= 53 /\ -1074 <= e <= 971 /\
  (Zdigits2 (Zpos m) = 53 \/ e = -1074).
Proof.
  intros H. unfold valid, prec, emax, valid_binary, bounded, canonical_mantissa in H.
  apply andb_true_iff in H as [H1 H2].
  apply Z.eqb_eq in H1. apply Z.leb_le in H2.
  change (Z.pos (digits2_pos m)) with (Zdigits2 (Zpos m)) in H1.
  unfold fexp, emin in H1. lia.
Qed.

Lemma Zdigits2_pos (m : Z) : 0 < m -> 1 <= Zdigits2 m.
Proof. destruct m; simpl; lia. Qed.

Lemma Zdigits2_ge (m k : Z) : 0 <= k -> 2 ^ k <= m -> k + 1 <= Zdigits2 m.
Proof.
  intros Hk H. assert (Hm : 0 < m) by (pose proof (pow2_pos k Hk); lia).
  pose proof (Zdigits2_bounds m Hm) as [_ Hd].
  destruct (Z.le_gt_cases (k + 1) (Zdigits2 m)); [assumption|].
  assert (2 ^ Zdigits2 m <= 2 ^ k) by (apply pow2_le; pose proof (Zdigits2_nonneg m); lia).
  lia.
Qed.

Lemma Zdigits2_mul (a b : Z) :
  0 < a -> 0 < b -> Zdigits2 a + Zdigits2 b - 1 <= Zdigits2 (a * b).
Proof.
  intros Ha Hb.
  pose proof (Zdigits2_bounds a Ha) as [Ha1 _].
  pose proof (Zdigits2_bounds b Hb) as [Hb1 _].
  pose proof (Zdigits2_pos a Ha). pose proof (Zdigits2_pos b Hb).
  replace (Zdigits2 a + Zdigits2 b - 1)
    with ((Zdigits2 a - 1) + (Zdigits2 b - 1) + 1) by lia.
  apply Zdigits2_ge; [lia|].
  rewrite Z.pow_add_r by lia.
  apply Z.mul_le_mono_nonneg; try lia; apply Z.lt_le_incl, pow2_pos; lia.
Qed.

Lemma mag_finite (s : bool) (m : positive) (e : Z) :
  mag (S754_finite s m e) = (IZR (Zpos m) * p2 e)%R.
Proof. reflexivity. Qed.

(** Multiplication of two finite numbers. *)
Lemma mul_finite_real (sx : bool) (mx : positive) (ex : Z)
    (sy : bool) (my : positive) (ey : Z) :
  valid (S754_finite sx mx ex) -> valid (S754_finite sy my ey) ->
  rounds (xorb sx sy)
    (mag (S754_finite sx mx ex) * mag (S754_finite sy my ey))
    (F64.mul (S754_finite sx mx ex) (S754_finite sy my ey)).
Proof.
  intros Hx Hy.
  apply valid_finite_inv in Hx as (Hdx & Hex & Hcx).
  apply valid_finite_inv in Hy as (Hdy & Hey & Hcy).
  unfold F64.mul, SFmul. rewrite !mag_finite.
  pose proof (Zdigits2_mul (Zpos mx) (Zpos my) ltac:(lia) ltac:(lia)) as Hd.
  pose proof (Zdigits2_pos (Zpos mx) ltac:(lia)).
  pose proof (Zdigits2_pos (Zpos my) ltac:(lia)).
  apply bra_real.
  - lia.
  - rewrite Pos2Z.inj_mul. unfold fexp64. lia.
  - rewrite Pos2Z.inj_mul, plus_IZR, mult_IZR, p2_add.
    pose proof (p2_pos ex). pose proof (p2_pos ey).
    assert (0 < p2 ex * p2 ey)%R by nra.
    split; nra.
Qed.

Lemma mul_real (x y : spec_float) :
  valid x -> valid y -> F64.is_finite x = true -> F64.is_finite y = true ->
  rounds (xorb (sign x) (sign y)) (mag x * mag y) (F64.mul x y).
Proof.
  intros Hx Hy Fx Fy.
  destruct x as [sx | sx | | sx mx ex]; try discriminate;
  destruct y as [sy | sy | | sy my ey]; try discriminate.
  - simpl. rewrite Rmult_0_l. apply rounds_zero.
  - simpl mag. rewrite Rmult_0_l. apply rounds_zero.
  - simpl mag. rewrite Rmult_0_r. apply rounds_zero.
  - apply mul_finite_real; assumption.
Qed.

Lemma div_core_spec (mx : positive) (ex : Z) (my : positive) (ey : Z) :
  Zdigits2 (Zpos mx) <= 53 ->
  exists q e' l,
    SFdiv_core_binary 53 1024 (Zpos mx) ex (Zpos my) ey = (q, e', l) /\
    0 <= q /\ e' <= fexp64 (Zdigits2 q + e') /\
    (IZR q * p2 e' <= (IZR (Zpos mx) * p2 ex) / (IZR (Zpos my) * p2 ey)
       < IZR (q + 1) * p2 e')%R.
Proof.
  intros Hdx.
  unfold SFdiv_core_binary.
  set (d1 := Zdigits2 (Zpos mx)) in *. set (d2 := Zdigits2 (Zpos my)).
  set (F := fexp 53 1024 (d1 + ex - (d2 + ey))).
  set (e' := Z.min F (ex - ey)).
  set (s := ex - ey - e').
  assert (Hs : 0 <= s) by (subst s e'; lia).
  set (m' := match s with
             | 0 => Z.pos mx
             | Z.pos _ => Z.shiftl (Z.pos mx) s
             | Z.neg _ => 0
             end).
  assert (Hm' : m' = Zpos mx * 2 ^ s).
  { subst m'. destruct s as [|p|p] eqn:Es; try lia.
    rewrite Z.shiftl_mul_pow2 by lia. reflexivity. }
  pose proof (Z.div_eucl_eq m' (Zpos my) ltac:(lia)) as Heq.
  pose proof (Z.mod_pos_bound m' (Zpos my) ltac:(lia)) as Hmod.
  unfold Z.modulo in Hmod.
  destruct (Z.div_eucl m' (Z.pos my)) as [q r] eqn:Hqr.
  exists q, e', (new_location (Zpos my) r).
  split; [reflexivity|].
  pose proof (pow2_pos s Hs) as Hps.
  assert (Hq : 0 <= q) by nia.
  pose proof (Zdigits2_bounds (Zpos mx) ltac:(lia)) as Hb1. fold d1 in Hb1.
  pose proof (Zdigits2_bounds (Zpos my) ltac:(lia)) as Hb2. fold d2 in Hb2.
  pose proof (Zdigits2_pos (Zpos mx) ltac:(lia)) as Hd1. fold d1 in Hd1.
  pose proof (Zdigits2_pos (Zpos my) ltac:(lia)) as Hd2. fold d2 in Hd2.
  split; [assumption|]. split.
  - (* alignment *)
    assert (HF : F = Z.max (d1 + ex - (d2 + ey) - 53) (-1074)) by reflexivity.
    destruct (Z.le_gt_cases e' (-1074)) as [Hlow | Hhigh];
      [unfold fexp64; lia|].
    (* then e' = F = d1 + ex - d2 - ey - 53 *)
    assert (He' : e' = d1 + ex - (d2 + ey) - 53) by (subst e'; lia).
    assert (Hsv : s = 53 - d1 + d2) by (subst s; lia).
    assert (Hqbig : 2 ^ 52 <= q).
    { assert (2 ^ (d1 - 1) * 2 ^ s <= m') by nia.
      rewrite <- Z.pow_add_r in H by lia.
      replace (d1 - 1 + s) with (52 + d2) in H by lia.
      rewrite Z.pow_add_r in H by lia.
      assert (2 ^ 52 * Z.pos my < m' + Zpos my).
      { assert (0 < 2 ^ 52) by (apply pow2_pos; lia). nia. }
      nia. }
    pose proof (Zdigits2_ge q 52 ltac:(lia) Hqbig).
    assert (Hup : Zdigits2 q + e' >= d1 + ex - (d2 + ey)).
    { assert (2 ^ (d1 + s - d2 - 1) <= q).
      { replace (d1 + s - d2 - 1) with 52 by lia. assumption. }
      lia. }
    unfold fexp64. lia.
  - (* the quotient is bracketed *)
    assert (HXY : ((IZR (Zpos mx) * p2 ex) / (IZR (Zpos my) * p2 ey)
                   = IZR m' / IZR (Zpos my) * p2 e')%R).
    { rewrite Hm', mult_IZR, p2_IZR by lia.
      replace ex with (s + e' + ey) at 1 by (subst s; lia).
      rewrite !p2_add.
      pose proof (p2_pos ey). pose proof (p2_pos e'). pose proof (p2_pos s).
      assert (0 < IZR (Zpos my))%R by (apply IZR_lt; lia).
      field. split; lra. }
    rewrite HXY.
    assert (Hmy : (0 < IZR (Zpos my))%R) by (apply IZR_lt; lia).
    assert (H1 : (IZR q <= IZR m' / IZR (Zpos my))%R).
    { apply Rmult_le_reg_r with (IZR (Zpos my)); [assumption|].
      unfold Rdiv. rewrite Rmult_assoc, Rinv_l, Rmult_1_r by lra.
      rewrite <- mult_IZR. apply IZR_le. nia. }
    assert (H2 : (IZR m' / IZR (Zpos my) < IZR (q + 1))%R).
    { apply Rmult_lt_reg_r with (IZR (Zpos my)); [assumption|].
      unfold Rdiv. rewrite Rmult_assoc, Rinv_l, Rmult_1_r by lra.
      rewrite <- mult_IZR. apply IZR_lt. nia. }
    pose proof (p2_pos e'). split; nra.
Qed.

(** Division of a finite number by a non-zero finite number. *)
Lemma div_real (x : spec_float) (sy : bool) (my : positive) (ey : Z) :
  valid x -> valid (S754_finite sy my ey) -> F64.is_finite x = true ->
  rounds (xorb (sign x) sy) (mag x / mag (S754_finite sy my ey))
    (F64.div x (S754_finite sy my ey)).
Proof.
  intros Hx Hy Fx.
  destruct x as [sx | sx | | sx mx ex]; try discriminate.
  - simpl. unfold Rdiv. rewrite Rmult_0_l. apply rounds_zero.
  - apply valid_finite_inv in Hx as (Hdx & Hex & Hcx).
    destruct (div_core_spec mx ex my ey Hdx) as (q & e' & l & Hc & Hq & Hal & Hbr).
    unfold F64.div, F64.prec, F64.emax, SFdiv. rewrite Hc. rewrite !mag_finite.
    apply bra_real; assumption.
Qed.

Lemma pos_iter_xO (m d : positive) :
  Zpos (Pos.iter xO m d) = Zpos m * 2 ^ Zpos d.
Proof.
  induction d as [|d IH] using Pos.peano_ind.
  - simpl. rewrite Pos2Z.inj_xO. change (2 ^ 1) with 2. lia.
  - rewrite Pos.iter_succ, Pos2Z.inj_xO, IH, Pos2Z.inj_succ, Z.pow_succ_r by lia.
    lia.
Qed.

Lemma shl_align_spec (mx : positive) (ex ex' : Z) :
  snd (shl_align mx ex ex') = Z.min ex ex' /\
  Zpos (fst (shl_align mx ex ex')) = Zpos mx * 2 ^ (ex - Z.min ex ex').
Proof.
  unfold shl_align. destruct (ex' - ex) as [|d|d] eqn:Hd; simpl.
  - replace (Z.min ex ex') with ex by lia. rewrite Z.sub_diag. simpl. lia.
  - replace (Z.min ex ex') with ex by lia. rewrite Z.sub_diag. simpl. lia.
  - replace (Z.min ex ex') with ex' by lia. split; [reflexivity|].
    rewrite pos_iter_xO. f_equal. f_equal. lia.
Qed.

Lemma Zdigits2_shift (m k : Z) :
  0 < m -> 0 <= k -> Zdigits2 (m * 2 ^ k) = Zdigits2 m + k.
Proof.
  intros Hm Hk. pose proof (Zdigits2_bounds m Hm) as [H1 H2].
  pose proof (Zdigits2_pos m Hm). pose proof (pow2_pos k Hk).
  apply Zdigits2_unique; [nia|].
  replace (Zdigits2 m + k - 1) with ((Zdigits2 m - 1) + k) by lia.
  rewrite !Z.pow_add_r by lia. split; nia.
Qed.

Lemma binary_round_aligned (s : bool) (m : positive) (e : Z) :
  exists mz ez,
    shl_align m e (fexp 53 1024 (Zpos (digits2_pos m) + e)) = (mz, ez) /\
    ez <= fexp64 (Zdigits2 (Zpos mz) + ez) /\
    Zpos mz = Zpos m * 2 ^ (e - ez) /\ ez <= e /\
    (Zdigits2 (Zpos m) <= 53 -> -1074 <= e ->
       ez = fexp64 (Zdigits2 (Zpos mz) + ez)).
Proof.
  pose proof (shl_align_spec m e (fexp 53 1024 (Zpos (digits2_pos m) + e))) as [H1 H2].
  destruct (shl_align m e (fexp 53 1024 (Zpos (digits2_pos m) + e))) as [mz ez].
  simpl in H1, H2. exists mz, ez. split; [reflexivity|].
  change (Zpos (digits2_pos m)) with (Zdigits2 (Zpos m)) in *.
  rewrite fexp_64 in H1, H2. rewrite <- H1 in H2.
  assert (Hd : Zdigits2 (Zpos mz) = Zdigits2 (Zpos m) + (e - ez)).
  { rewrite H2. apply Zdigits2_shift; lia. }
  rewrite Hd. replace (Zdigits2 (Z.pos m) + (e - ez) + ez) with (Zdigits2 (Z.pos m) + e) by lia.
  repeat split; try lia. intros Hdm He. unfold fexp64 in *. lia.
Qed.

(** [binary_round]: the mantissa is aligned first, then rounded. *)
Lemma binary_round_real (s : bool) (m : positive) (e : Z) :
  rounds s (IZR (Zpos m) * p2 e) (binary_round 53 1024 s m e).
Proof.
  destruct (binary_round_aligned s m e) as (mz & ez & Hsh & Hal & Hm & Hle & _).
  unfold binary_round. rewrite Hsh.
  apply bra_real; [lia | assumption |].
  assert (Hval : (IZR (Zpos mz) * p2 ez = IZR (Zpos m) * p2 e)%R).
  { rewrite Hm, mult_IZR, p2_IZR by lia. rewrite Rmult_assoc, <- p2_add.
    do 2 f_equal. lia. }
  rewrite plus_IZR, <- Hval. pose proof (p2_pos ez). split; nra.
Qed.

(** A number that fits the format is converted exactly. *)
Lemma binary_round_exact (s : bool) (m : positive) (e : Z) :
  Zdigits2 (Zpos m) <= 53 -> -1074 <= e -> Zdigits2 (Zpos m) + e <= 1024 ->
  exists m' e',
    binary_round 53 1024 s m e = S754_finite s m' e' /\
    valid (S754_finite s m' e') /\
    (IZR (Zpos m') * p2 e' = IZR (Zpos m) * p2 e)%R.
Proof.
  intros Hd He Hmax.
  destruct (binary_round_aligned s m e) as (mz & ez & Hsh & Hal & Hm & Hle & Hex).
  specialize (Hex Hd He).
  unfold binary_round. rewrite Hsh.
  destruct (bra_aligned s (Zpos mz) ez loc_Exact ltac:(lia) Hal)
    as (m1 & Hm1 & Hexact & Hr).
  specialize (Hexact (eq_sym Hex) eq_refl).
  rewrite <- Hex in Hr.
  assert (Hval : (IZR (Zpos mz) * p2 ez = IZR (Zpos m) * p2 e)%R).
  { rewrite Hm, mult_IZR, p2_IZR by lia. rewrite Rmult_assoc, <- p2_add.
    do 2 f_equal. lia. }
  destruct (binary_round_aux 53 1024 s (Z.pos mz) ez loc_Exact)
    as [s' | s' | | s' m' e']; try contradiction.
  - destruct Hr as [_ Hz]. lia.
  - exfalso. destruct Hr as (_ & Hez & Hbig). rewrite Hexact in Hbig.
    pose proof (Zdigits2_bounds (Zpos m) ltac:(lia)) as [_ Hb].
    pose proof (Zdigits2_pos (Zpos m) ltac:(lia)).
    assert (Ha : Zpos mz * 2 ^ ez = Zpos m * 2 ^ e).
    { rewrite Hm, <- Z.mul_assoc, <- Z.pow_add_r by lia. do 2 f_equal. lia. }
    assert (Hb' : Z.pos m * 2 ^ e < 2 ^ (Zdigits2 (Zpos m)) * 2 ^ e).
    { apply Z.mul_lt_mono_pos_r; [apply pow2_pos; lia | lia]. }
    rewrite <- Z.pow_add_r in Hb' by lia.
    assert (2 ^ (Zdigits2 (Z.pos m) + e) <= 2 ^ 1024) by (apply pow2_le; lia).
    lia.
  - destruct Hr as (-> & Hcan & Hle' & HEe & Hv). exists m', e'.
    split; [reflexivity|]. split.
    + unfold valid, prec, emax. simpl. unfold bounded. rewrite Hcan. simpl.
      apply Z.leb_le. lia.
    + rewrite <- Hval. rewrite <- Hexact, <- Hv, mult_IZR, p2_IZR by lia.
      rewrite Rmult_assoc, <- p2_add. do 2 f_equal. lia.
Qed.

Lemma p2_0 : p2 0 = 1%R.
Proof. reflexivity. Qed.

(** Integers below [2^53] in absolute value are converted exactly. *)
Lemma of_Z_exact (z : Z) :
  z <> 0 -> Z.abs z < 2 ^ 53 ->
  exists m e,
    F64.of_Z z = S754_finite (z <? 0) m e /\
    valid (S754_finite (z <? 0) m e) /\
    (IZR (Zpos m) * p2 e = IZR (Z.abs z))%R.
Proof.
  intros Hz Hlt. unfold F64.of_Z, binary_normalize.
  assert (Hdig : forall p, Zpos p < 2 ^ 53 -> Zdigits2 (Zpos p) <= 53).
  { intros p Hp. destruct (Z.le_gt_cases (Zdigits2 (Zpos p)) 53); [assumption|].
    pose proof (Zdigits2_bounds (Zpos p) ltac:(lia)) as [Hb _].
    assert (2 ^ 53 <= 2 ^ (Zdigits2 (Zpos p) - 1)) by (apply pow2_le; lia).
    lia. }
  destruct z as [|p|p]; try lia.
  - destruct (binary_round_exact false p 0) as (m & e & H1 & H2 & H3);
      [apply Hdig; lia | lia | pose proof (Hdig p ltac:(lia)); lia |].
    exists m, e. rewrite p2_0, Rmult_1_r in H3. auto.
  - destruct (binary_round_exact true p 0) as (m & e & H1 & H2 & H3);
      [apply Hdig; lia | lia | pose proof (Hdig p ltac:(lia)); lia |].
    exists m, e. rewrite p2_0, Rmult_1_r in H3. auto.
Qed.

Lemma of_Z_0 : F64.of_Z 0 = S754_zero false.
Proof. reflexivity. Qed.

(** Addition of two positive finite numbers. *)
Lemma add_finite_real (mx : positive) (ex : Z) (my : positive) (ey : Z) :
  rounds false
    (mag (S754_finite false mx ex) + mag (S754_finite false my ey))
    (F64.add (S754_finite false mx ex) (S754_finite false my ey)).
Proof.
  unfold F64.add, SFadd. cbn [cond_Zopp].
  pose proof (shl_align_spec mx ex (Z.min ex ey)) as [_ Hx].
  pose proof (shl_align_spec my ey (Z.min ex ey)) as [_ Hy].
  set (ez := Z.min ex ey) in *.
  replace (Z.min ex ez) with ez in Hx by lia.
  replace (Z.min ey ez) with ez in Hy by lia.
  set (ax := fst (shl_align mx ex ez)) in *.
  set (ay := fst (shl_align my ey ez)) in *.
  change (Z.pos ax + Z.pos ay) with (Zpos (ax + ay)).
  unfold binary_normalize.
  replace (mag (S754_finite false mx ex) + mag (S754_finite false my ey))%R
    with (IZR (Zpos (ax + ay)) * p2 ez)%R.
  { apply binary_round_real. }
  rewrite Pos2Z.inj_add, plus_IZR, Hx, Hy, !mult_IZR, !p2_IZR by lia.
  rewrite !mag_finite.
  replace ex with ((ex - ez) + ez) at 2 by lia.
  replace ey with ((ey - ez) + ez) at 2 by lia.
  rewrite !p2_add. ring.
Qed.

Lemma shiftl_real (m : positive) (e : Z) :
  0 <= Z.shiftl (Zpos m) e /\
  (IZR (Z.shiftl (Zpos m) e) <= IZR (Zpos m) * p2 e
     < IZR (Z.shiftl (Zpos m) e) + 1)%R.
Proof.
  destruct (Z.le_gt_cases 0 e) as [He | He].
  - rewrite Z.shiftl_mul_pow2 by lia. pose proof (pow2_pos e He).
    split; [lia|]. rewrite mult_IZR, p2_IZR by lia. lra.
  - rewrite Z.shiftl_div_pow2 by lia.
    pose proof (pow2_pos (- e) ltac:(lia)) as Hp.
    pose proof (Z.div_mod (Zpos m) (2 ^ (- e)) ltac:(lia)) as Hdm.
    pose proof (Z.mod_pos_bound (Zpos m) (2 ^ (- e)) Hp) as Hmod.
    set (k := Z.pos m / 2 ^ (- e)) in *.
    assert (Hk : 0 <= k) by (apply Z.div_pos; lia).
    split; [assumption|].
    assert (H1 : (p2 e * IZR (2 ^ (- e)) = 1)%R).
    { rewrite p2_IZR by lia. rewrite <- p2_add.
      replace (e + - e) with 0 by lia. reflexivity. }
    assert (Hlo : (IZR (k * 2 ^ (- e)) <= IZR (Zpos m))%R) by (apply IZR_le; lia).
    assert (Hhi : (IZR (Zpos m) < IZR ((k + 1) * 2 ^ (- e)))%R) by (apply IZR_lt; lia).
    rewrite mult_IZR in Hlo, Hhi. rewrite plus_IZR in Hhi.
    pose proof (p2_pos e) as Hpe.
    assert (Hq : (0 < IZR (2 ^ (- e)))%R) by (apply IZR_lt; lia).
    split.
    + apply Rmult_le_reg_r with (IZR (2 ^ (- e))); [assumption|].
      rewrite Rmult_assoc, H1. lra.
    + apply Rmult_lt_reg_r with (IZR (2 ^ (- e))); [assumption|].
      rewrite Rmult_assoc, H1. lra.
Qed.

(** Truncation is the floor of the absolute value, with the sign put back. *)
Lemma trunc_real (x : spec_float) :
  is_finite x = true ->
  exists k, trunc x = Some (cond_Zopp (sign x) k) /\ 0 <= k /\
            (IZR k <= mag x < IZR k + 1)%R.
Proof.
  destruct x as [s | s | | s m e]; try discriminate; intros _.
  - exists 0. simpl. destruct s; simpl; repeat split; try lia; lra.
  - exists (Z.shiftl (Zpos m) e). simpl.
    pose proof (shiftl_real m e) as [H1 H2]. auto.
Qed.

(** Comparing an integer with a float compares the exact values. *)
Lemma compare_Z_real (z : Z) (x : spec_float) :
  is_finite x = true ->
  match compare_Z z x with
  | Some Lt => (IZR z < to_R x)%R
  | Some Eq => (IZR z = to_R x)%R
  | Some Gt => (IZR z > to_R x)%R
  | None => False
  end.
Proof.
  destruct x as [s | s | | s m e]; try discriminate; intros _.
  - unfold compare_Z, to_R. simpl.
    replace (if s then (- 0)%R else 0%R) with 0%R by (destruct s; lra).
    destruct (Z.compare_spec z 0) as [H|H|H].
    + subst. reflexivity.
    + apply IZR_lt. assumption.
    + apply Rlt_gt, IZR_lt. assumption.
  - unfold compare_Z, to_R. cbn [sign mag].
    set (v := cond_Zopp s (Z.pos m)).
    assert (Hv : ((if s then - (IZR (Zpos m) * p2 e) else IZR (Zpos m) * p2 e)
                  = IZR v * p2 e)%R).
    { subst v. destruct s; cbn [cond_Zopp]; [|reflexivity].
      change (- Z.pos m) with (Z.opp (Z.pos m)). rewrite opp_IZR. ring. }
    rewrite Hv. pose proof (p2_pos e) as Hpe.
    destruct (Z.leb_spec 0 e) as [He | He].
    + assert (Hx : (IZR v * p2 e = IZR (v * 2 ^ e))%R)
        by (rewrite mult_IZR, p2_IZR by lia; reflexivity).
      rewrite Hx.
      destruct (Z.compare_spec z (v * 2 ^ e)) as [H|H|H].
      * subst. reflexivity.
      * apply IZR_lt. assumption.
      * apply Rlt_gt, IZR_lt. assumption.
    + assert (H1 : (p2 e * IZR (2 ^ (- e)) = 1)%R).
      { rewrite p2_IZR by lia. rewrite <- p2_add.
        replace (e + - e) with 0 by lia. reflexivity. }
      assert (Hq : (0 < IZR (2 ^ (- e)))%R)
        by (apply IZR_lt, pow2_pos; lia).
      destruct (Z.compare_spec (z * 2 ^ (- e)) v) as [H|H|H].
      * apply (f_equal IZR) in H. rewrite mult_IZR in H.
        rewrite <- H. rewrite Rmult_assoc, (Rmult_comm (IZR (2 ^ (- e)))), H1. lra.
      * apply IZR_lt in H. rewrite mult_IZR in H.
        apply Rmult_lt_reg_r with (IZR (2 ^ (- e))); [assumption|].
        rewrite Rmult_assoc, H1. lra.
      * apply IZR_lt in H. rewrite mult_IZR in H.
        apply Rlt_gt. apply Rmult_lt_reg_r with (IZR (2 ^ (- e))); [assumption|].
        rewrite Rmult_assoc, H1. lra.
Qed.

Lemma of_Z_real (z : Z) :
  Z.abs z < 2 ^ 53 ->
  is_finite (of_Z z) = true /\ valid (of_Z z) /\
  sign (of_Z z) = (z <? 0) /\ mag (of_Z z) = IZR (Z.abs z) /\
  (z <> 0 -> exists m e, of_Z z = S754_finite (z <? 0) m e).
Proof.
  intros Hz. destruct (Z.eq_dec z 0) as [-> | Hnz].
  - rewrite of_Z_0. simpl. repeat split; try reflexivity. intros H; contradiction.
  - destruct (of_Z_exact z Hnz Hz) as (m & e & H1 & H2 & H3).
    rewrite H1. simpl. repeat split; try assumption. intros _. eauto.
Qed.

Lemma SFeqb_finite_zero (s : bool) (m : positive) (e : Z) (s' : bool) :
  SFeqb (S754_finite s m e) (S754_zero s') = false.
Proof. unfold SFeqb, SFcompare. destruct s; reflexivity. Qed.

Lemma eps_small : (p2 (-52) * IZR (2 ^ 52) = 1)%R.
Proof.
  rewrite p2_IZR by lia. rewrite <- p2_add. reflexivity.
Qed.

Lemma Rabs_le_between (a b : R) : (Rabs a <= b)%R -> (- b <= a <= b)%R.
Proof. unfold Rabs. destruct (Rcase_abs a); lra. Qed.

(** Two roundings in a row: a rounded factor, then a rounded product. *)
Lemma two_roundings (x s y i e : R) :
  (0 <= x)%R -> (0 <= i)%R -> (0 < e <= 1)%R ->
  (Rabs (s - x) <= x * e)%R -> (Rabs (y - i * s) <= i * s * e)%R ->
  (i * x * ((1 - e) * (1 - e)) <= y <= i * x * ((1 + e) * (1 + e)))%R.
Proof.
  intros Hx Hi He Hs Hy.
  apply Rabs_le_between in Hs. apply Rabs_le_between in Hy.
  assert (Hs1 : (x * (1 - e) <= s <= x * (1 + e))%R) by (split; lra).
  assert (Hs0 : (0 <= s)%R) by nra.
  assert (Hy1 : (i * s * (1 - e) <= y <= i * s * (1 + e))%R) by (split; lra).
  assert (His : (i * (x * (1 - e)) <= i * s <= i * (x * (1 + e)))%R).
  { split; apply Rmult_le_compat_l; lra. }
  split.
  - apply Rle_trans with (i * s * (1 - e))%R; [|lra].
    replace (i * x * ((1 - e) * (1 - e)))%R with (i * (x * (1 - e)) * (1 - e))%R by ring.
    apply Rmult_le_compat_r; lra.
  - apply Rle_trans with (i * s * (1 + e))%R; [lra|].
    replace (i * x * ((1 + e) * (1 + e)))%R with (i * (x * (1 + e)) * (1 + e))%R by ring.
    apply Rmult_le_compat_r; lra.
Qed.

Lemma p2_half (e : Z) : (p2 (e - 1) = p2 e / 2)%R.
Proof.
  replace e with ((e - 1) + 1) at 2 by lia. rewrite p2_add.
  replace (p2 1) with 2%R by (unfold p2; simpl; lra). lra.
Qed.

Lemma eps_le_half : (p2 (-52) <= 1 / 2)%R.
Proof.
  apply Rle_trans with (p2 (-1)); [apply p2_le; lia|].
  unfold p2. simpl. lra.
Qed.

Lemma mag_nonneg (x : spec_float) : (0 <= mag x)%R.
Proof.
  destruct x; simpl; try lra.
  apply Rmult_le_pos; [apply IZR_le; lia | apply Rlt_le, p2_pos].
Qed.

Lemma is_pos_inv (x : spec_float) :
  is_pos x = true -> exists m e, x = S754_finite false m e.
Proof.
  destruct x as [s | s | | [] m e]; try discriminate. intros _. eauto.
Qed.

Lemma is_pos_mag (x : spec_float) : is_pos x = true -> (0 < mag x)%R.
Proof.
  intros H. destruct (is_pos_inv x H) as (m & e & ->). simpl.
  apply Rmult_lt_0_compat; [apply IZR_lt; lia | apply p2_pos].
Qed.

Lemma is_pos_finite (x : spec_float) :
  is_pos x = true -> is_finite x = true /\ sign x = false /\ is_zero x = false.
Proof.
  intros H. destruct (is_pos_inv x H) as (m & e & ->). auto.
Qed.

Lemma mul_zero_l (x y : spec_float) :
  is_zero x = true -> is_finite y = true ->
  F64.mul x y = S754_zero (xorb (sign x) (sign y)).
Proof.
  destruct x; try discriminate. destruct y; try discriminate; reflexivity.
Qed.

Lemma mul_zero_r (x y : spec_float) :
  is_finite x = true -> is_zero y = true ->
  F64.mul x y = S754_zero (xorb (sign x) (sign y)).
Proof.
  destruct y; try discriminate. destruct x; try discriminate; reflexivity.
Qed.

(** A rounded positive result in the normal range. *)
Lemma rounds_pos (x : R) (r : spec_float) :
  rounds false x r -> (p2 (-1021) <= x <= p2 1023)%R ->
  valid r /\ is_pos r = true /\ (Rabs (mag r - x) <= x * p2 (-52))%R.
Proof.
  intros (Hnan & Hvalid & Hsign & Hinf & Hfin) [Hlo Hhi].
  assert (F : is_finite r = true).
  { destruct (is_finite r) eqn:E; [reflexivity|]. specialize (Hinf eq_refl). lra. }
  destruct (Hfin F) as [_ Hn]. destruct (Hn Hlo) as [Hrel Hnz].
  split; [assumption|]. split; [|assumption].
  destruct r as [s | s | | s m e]; try discriminate.
  simpl in Hsign. subst s. reflexivity.
Qed.

Lemma div_pos_real (a b : spec_float) :
  valid a -> is_pos a = true -> valid b -> is_pos b = true ->
  (p2 (-1021) <= mag a / mag b <= p2 1023)%R ->
  valid (F64.div a b) /\ is_pos (F64.div a b) = true /\
  (Rabs (mag (F64.div a b) - mag a / mag b) <= mag a / mag b * p2 (-52))%R.
Proof.
  intros Va Pa Vb Pb Hx.
  destruct (is_pos_inv b Pb) as (mb & eb & ->).
  destruct (is_pos_finite a Pa) as (Fa & Sa & _).
  apply rounds_pos; [|assumption].
  pose proof (div_real a false mb eb Va Vb Fa) as H.
  rewrite Sa in H. exact H.
Qed.

Lemma mul_pos_real (a b : spec_float) :
  valid a -> is_pos a = true -> valid b -> is_pos b = true ->
  (p2 (-1021) <= mag a * mag b <= p2 1023)%R ->
  valid (F64.mul a b) /\ is_pos (F64.mul a b) = true /\
  (Rabs (mag (F64.mul a b) - mag a * mag b) <= mag a * mag b * p2 (-52))%R.
Proof.
  intros Va Pa Vb Pb Hx.
  destruct (is_pos_finite a Pa) as (Fa & Sa & _).
  destruct (is_pos_finite b Pb) as (Fb & Sb & _).
  apply rounds_pos; [|assumption].
  pose proof (mul_real a b Va Vb Fa Fb) as H.
  rewrite Sa, Sb in H. exact H.
Qed.

Lemma of_Z_pos (z : Z) :
  0 < z < 2 ^ 53 ->
  valid (of_Z z) /\ is_pos (of_Z z) = true /\ mag (of_Z z) = IZR z.
Proof.
  intros Hz. destruct (of_Z_exact z ltac:(lia) ltac:(lia)) as (m & e & H1 & H2 & H3).
  replace (z <? 0) with false in * by (symmetry; apply Z.ltb_ge; lia).
  rewrite H1. split; [assumption|]. split; [reflexivity|].
  simpl. rewrite H3. f_equal. lia.
Qed.

(** The quotient of two positive numbers multiplied by a third: the
    pattern of [(amp / 127.0) * h], [(t / d) * (w - 1)] and
    [i * ((L - 1) / (T - 1))]. *)
Lemma scaled_ratio (a b c : spec_float) :
  valid a -> is_pos a = true -> valid b -> is_pos b = true ->
  valid c -> is_pos c = true ->
  (p2 (-1000) <= mag a / mag b <= p2 60)%R -> (1 <= mag c <= p2 60)%R ->
  forall y, y = F64.mul (F64.div a b) c \/ y = F64.mul c (F64.div a b) ->
    valid y /\ is_pos y = true /\
    (mag c * (mag a / mag b) * ((1 - p2 (-52)) * (1 - p2 (-52))) <= mag y
       <= mag c * (mag a / mag b) * ((1 + p2 (-52)) * (1 + p2 (-52))))%R.
Proof.
  intros Va Pa Vb Pb Vc Pc [Hlo Hhi] [Hc1 Hc2] y Hy.
  set (X := (mag a / mag b)%R) in *.
  pose proof eps_le_half as Heps. pose proof (p2_pos (-52)) as Heps0.
  assert (HX0 : (0 < X)%R).
  { pose proof (p2_pos (-1000)). lra. }
  destruct (div_pos_real a b Va Pa Vb Pb) as (Vs & Ps & Hs).
  { fold X. split.
    - apply Rle_trans with (p2 (-1000)); [apply p2_le; lia | assumption].
    - apply Rle_trans with (p2 60); [assumption | apply p2_le; lia]. }
  fold X in Hs. set (s := F64.div a b) in *.
  pose proof (Rabs_le_between _ _ Hs) as Hsb.
  assert (Hrange : (p2 (-1021) <= mag s * mag c <= p2 1023)%R).
  { split.
    - apply Rle_trans with (p2 (-1001)); [apply p2_le; lia|].
      change (p2 (-1001)) with (p2 (-1000 - 1)). rewrite (p2_half (-1000)).
      apply Rle_trans with (X * (1 - p2 (-52)) * 1)%R; [nra|].
      apply Rmult_le_compat; nra.
    - apply Rle_trans with (2 * p2 60 * p2 60)%R.
      + pose proof (p2_pos 60). apply Rmult_le_compat; nra.
      + replace 2%R with (p2 1) by (unfold p2; simpl; lra).
        rewrite <- !p2_add. apply p2_le. lia. }
  assert (Hgoal : valid y /\ is_pos y = true /\
                  (Rabs (mag y - mag c * mag s) <= mag c * mag s * p2 (-52))%R).
  { destruct Hy as [-> | ->].
    - destruct (mul_pos_real s c Vs Ps Vc Pc Hrange) as (H1 & H2 & H3).
      rewrite (Rmult_comm (mag c)). auto.
    - rewrite Rmult_comm in Hrange.
      destruct (mul_pos_real c s Vc Pc Vs Ps Hrange) as (H1 & H2 & H3). auto. }
  destruct Hgoal as (H1 & H2 & H3).
  split; [assumption|]. split; [assumption|].
  apply two_roundings with (s := mag s) (e := p2 (-52)); try assumption; lra.
Qed.

(** Real arithmetic behind the index bounds: [P] is the exact product
    [i * D / d], [y] the computed one, [e] the unit roundoff. *)
Lemma twice_rounded_upper (P y e : R) :
  (0 <= P)%R -> (0 < e <= 1)%R ->
  (y <= P * ((1 + e) * (1 + e)))%R -> (y <= P + 3 * e * P)%R.
Proof.
  intros HP He Hy.
  assert (0 <= P * e * (1 - e))%R by (repeat apply Rmult_le_pos; lra).
  assert (P * ((1 + e) * (1 + e)) = P + 3 * e * P - P * e * (1 - e))%R by ring.
  lra.
Qed.

Lemma twice_rounded_lower (P y e : R) :
  (0 <= P)%R -> (0 < e <= 1)%R ->
  (P * ((1 - e) * (1 - e)) <= y)%R -> (P - 2 * e * P <= y)%R.
Proof.
  intros HP He Hy.
  assert (0 <= P * e * e)%R by (repeat apply Rmult_le_pos; lra).
  assert (P * ((1 - e) * (1 - e)) = P - 2 * e * P + P * e * e)%R by ring.
  lra.
Qed.

Lemma ratio_le (i D d : R) :
  (0 <= D)%R -> (0 <= i <= d)%R -> (0 < d)%R -> (i * (D / d) <= D)%R.
Proof.
  intros HD Hi Hd.
  replace (i * (D / d))%R with (D * (i / d))%R by (field; lra).
  assert (i / d <= 1)%R.
  { apply Rmult_le_reg_r with d; [lra|]. unfold Rdiv.
    rewrite Rmult_assoc, Rinv_l by lra. lra. }
  nra.
Qed.

Lemma eps_times (n : Z) (x : R) :
  0 <= n <= 52 -> (0 <= x < IZR (2 ^ n))%R -> (p2 (-52) * x < p2 (n - 52))%R.
Proof.
  intros Hn Hx. rewrite p2_IZR in Hx by lia.
  replace (n - 52) with (-52 + n) by lia. rewrite p2_add.
  apply Rmult_lt_compat_l; [apply p2_pos | lra].
Qed.

Lemma p2_m2 : p2 (-2) = (1 / 4)%R.
Proof. unfold p2. simpl. lra. Qed.

Lemma sub_zero_r (x : spec_float) :
  is_pos x = true -> F64.sub x (S754_zero false) = x.
Proof. intros H. destruct (is_pos_inv x H) as (m & e & ->). reflexivity. Qed.

Lemma add_zero_r (x : spec_float) :
  is_pos x = true -> F64.add x (S754_zero false) = x.
Proof. intros H. destruct (is_pos_inv x H) as (m & e & ->). reflexivity. Qed.

Lemma SFeqb_pos_zero (x : spec_float) :
  is_pos x = true -> SFeqb x (S754_zero false) = false.
Proof. intros H. destruct (is_pos_inv x H) as (m & e & ->). reflexivity. Qed.

Lemma div_finite (a b : spec_float) :
  valid a -> is_finite a = true -> valid b -> is_pos b = true ->
  (mag a / mag b <= p2 1023)%R -> is_finite (F64.div a b) = true.
Proof.
  intros Va Fa Vb Pb Hx. destruct (is_pos_inv b Pb) as (mb & eb & ->).
  destruct (div_real a false mb eb Va Vb Fa) as (_ & _ & _ & Hinf & _).
  destruct (is_finite (F64.div a (S754_finite false mb eb))) eqn:E;
    [reflexivity|]. specialize (Hinf eq_refl). lra.
Qed.

End F64Facts.

(** ** Conversions to integers and [np.linspace] *)

Module NpFacts.

Import F64 F64Facts.

Lemma int_of_float_real (x : spec_float) :
  is_finite x = true ->
  exists k, Np.int_of_float x = Ok (cond_Zopp (sign x) k) /\ 0 <= k /\
            (IZR k <= mag x < IZR k + 1)%R.
Proof.
  intros Hf. destruct (trunc_real x Hf) as (k & Ht & Hk).
  exists k. split; [|exact Hk].
  destruct x; try discriminate; unfold Np.int_of_float; rewrite Ht; reflexivity.
Qed.

Lemma astype_int64_real (x : spec_float) :
  is_finite x = true -> sign x = false -> (mag x < IZR (2 ^ 63))%R ->
  0 <= Np.astype_int64 x /\
  (IZR (Np.astype_int64 x) <= mag x < IZR (Np.astype_int64 x) + 1)%R.
Proof.
  intros Hf Hs Hlt. destruct (trunc_real x Hf) as (k & Ht & Hk & Hb).
  rewrite Hs in Ht. simpl in Ht. unfold Np.astype_int64. rewrite Ht.
  assert (k < 2 ^ 63) by (apply lt_IZR; lra).
  unfold Np.INT64_MIN.
  destruct (Z.leb_spec (- 2 ^ 63) k); [|lia].
  destruct (Z.ltb_spec k (2 ^ 63)); [|lia]. simpl. auto.
Qed.

(** The value at position [i < d] of [np.linspace(0, D, d + 1)]. *)
Lemma linspace_at_value (D d i : Z) :
  0 <= D < 2 ^ 50 -> 1 <= d < 2 ^ 53 -> 0 <= i < d ->
  let y := Np.linspace_at D (d + 1) i in
  let P := (IZR i * (IZR D / IZR d))%R in
  (i * D = 0 /\ is_zero y = true) \/
  (0 < i * D /\ is_pos y = true /\
   (P * ((1 - p2 (-52)) * (1 - p2 (-52))) <= mag y
      <= P * ((1 + p2 (-52)) * (1 + p2 (-52))))%R).
Proof.
  intros HD Hd Hi y P.
  destruct (of_Z_pos d ltac:(lia)) as (Vd & Pd & Md).
  assert (Hy : y = F64.add
                 (let delta := F64.sub (of_Z D) (of_Z 0) in
                  let step := F64.div delta (of_Z d) in
                  if SFeqb step (of_Z 0)
                  then F64.mul (F64.div (of_Z i) (of_Z d)) delta
                  else F64.mul (of_Z i) step) (of_Z 0)).
  { subst y. unfold Np.linspace_at.
    replace (d + 1 - 1) with d by lia.
    replace (0 <? d) with true by (symmetry; apply Z.ltb_lt; lia).
    replace (i =? d) with false by (symmetry; apply Z.eqb_neq; lia).
    rewrite andb_false_r. reflexivity. }
  rewrite of_Z_0 in Hy. cbv zeta in Hy.
  assert (Hdlt : (IZR d < p2 53)%R) by (rewrite <- p2_IZR by lia; apply IZR_lt; lia).
  assert (Hd1 : (1 <= IZR d)%R) by (apply IZR_le; lia).
  destruct (Z.eq_dec D 0) as [HD0 | HD0].
  - (* a single sample: every position maps to it *)
    left. split; [lia|]. subst D. rewrite of_Z_0 in Hy.
    change (F64.sub (S754_zero false) (S754_zero false)) with (S754_zero false) in Hy.
    destruct (is_pos_inv _ Pd) as (md & ed & Ed). rewrite Ed in Hy.
    change (F64.div (S754_zero false) (S754_finite false md ed))
      with (S754_zero false) in Hy.
    change (SFeqb (S754_zero false) (S754_zero false)) with true in Hy.
    cbv iota in Hy. rewrite <- Ed in Hy.
    assert (Fq : is_finite (F64.div (of_Z i) (of_Z d)) = true).
    { destruct (of_Z_real i ltac:(lia)) as (Fi & Vi & Si & Mi & _).
      apply div_finite; try assumption.
      rewrite Mi, Md, Z.abs_eq by lia.
      apply Rle_trans with 1%R.
      - apply Rmult_le_reg_r with (IZR d); [lra|]. unfold Rdiv.
        rewrite Rmult_assoc, Rinv_l by lra. rewrite Rmult_1_r, Rmult_1_l.
        apply IZR_le. lia.
      - change 1%R with (p2 0). apply p2_le. lia. }
    rewrite mul_zero_r in Hy by (assumption || reflexivity).
    rewrite Hy. destruct (xorb _ _); reflexivity.
  - destruct (of_Z_pos D ltac:(lia)) as (VD & PD & MD).
    rewrite sub_zero_r in Hy by assumption.
    assert (HX : (p2 (-1000) <= mag (of_Z D) / mag (of_Z d) <= p2 60)%R).
    { rewrite MD, Md.
      assert (1 <= IZR D)%R by (apply IZR_le; lia).
      assert (IZR D < p2 50)%R by (rewrite <- p2_IZR by lia; apply IZR_lt; lia).
      split.
      - apply Rle_trans with (p2 (-53)); [apply p2_le; lia|].
        apply Rmult_le_reg_r with (IZR d); [lra|]. unfold Rdiv.
        rewrite Rmult_assoc, Rinv_l, Rmult_1_r by lra.
        apply Rle_trans with (p2 (-53) * p2 53)%R.
        + apply Rmult_le_compat_l; [apply Rlt_le, p2_pos | lra].
        + rewrite <- p2_add. change (p2 (-53 + 53)) with 1%R. lra.
      - apply Rle_trans with (IZR D).
        + apply Rmult_le_reg_r with (IZR d); [lra|]. unfold Rdiv.
          rewrite Rmult_assoc, Rinv_l, Rmult_1_r by lra. nra.
        + apply Rle_trans with (p2 50); [lra | apply p2_le; lia]. }
    destruct (div_pos_real (of_Z D) (of_Z d) VD PD Vd Pd) as (Vs & Ps & _).
    { destruct HX. split.
      - apply Rle_trans with (p2 (-1000)); [apply p2_le; lia | assumption].
      - apply Rle_trans with (p2 60); [assumption | apply p2_le; lia]. }
    rewrite SFeqb_pos_zero in Hy by assumption.
    destruct (Z.eq_dec i 0) as [Hi0 | Hi0].
    + left. split; [lia|]. subst i. rewrite of_Z_0 in Hy.
      destruct (is_pos_finite _ Ps) as (Fs & _).
      rewrite mul_zero_l in Hy by (assumption || reflexivity).
      rewrite Hy. destruct (xorb _ _); reflexivity.
    + right. split; [nia|].
      destruct (of_Z_pos i ltac:(lia)) as (Vi & Pi & Mi).
      destruct (scaled_ratio (of_Z D) (of_Z d) (of_Z i) VD PD Vd Pd Vi Pi HX)
        with (y := F64.mul (of_Z i) (F64.div (of_Z D) (of_Z d)))
        as (Vy & Py & Hb).
      { rewrite Mi. split; [apply IZR_le; lia|].
        apply Rle_trans with (p2 53); [|apply p2_le; lia].
        rewrite <- p2_IZR by lia. apply IZR_le. lia. }
      { right. reflexivity. }
      rewrite add_zero_r in Hy by assumption.
      rewrite Hy. split; [assumption|].
      rewrite Mi, MD, Md in Hb. exact Hb.
Qed.

(** The index computed for position [i] of [np.linspace(0, D, d + 1)]. *)
Lemma linspace_at_index (D d i : Z) :
  0 <= D < 2 ^ 50 -> 1 <= d < 2 ^ 53 -> 0 <= i <= d ->
  let j := Np.astype_int64 (Np.linspace_at D (d + 1) i) in
  0 <= j <= D /\ (i = d -> j = D) /\
  (D * d < 2 ^ 50 -> i * D / d - 1 <= j <= i * D / d).
Proof.
  intros HD Hd Hi j.
  assert (Hlast : i = d -> j = D).
  { intros ->. subst j. unfold Np.linspace_at.
    replace ((1 <? d + 1) && (d =? d + 1 - 1)) with true.
    2:{ symmetry. apply andb_true_iff. split; [apply Z.ltb_lt | apply Z.eqb_eq]; lia. }
    destruct (Z.eq_dec D 0) as [-> | HD0]; [reflexivity|].
    destruct (of_Z_pos D ltac:(lia)) as (V & P & M).
    destruct (is_pos_finite _ P) as (F & S & _).
    destruct (astype_int64_real (of_Z D) F S) as [H0 H1].
    { rewrite M. apply IZR_lt. assert (2 ^ 50 < 2 ^ 63) by (apply pow2_lt; lia). lia. }
    rewrite M in H1. destruct H1 as [H1 H2].
    apply le_IZR in H1. rewrite <- plus_IZR in H2. apply lt_IZR in H2. lia. }
  destruct (Z.eq_dec i d) as [Hid | Hid].
  { specialize (Hlast Hid). split; [lia|]. split; [auto|].
    intros _. rewrite Hid, Z.mul_comm, Z.div_mul by lia. lia. }
  destruct (linspace_at_value D d i HD Hd ltac:(lia)) as [[Hz Zy] | (Hpos & Py & Hb)].
  { assert (Hj : j = 0).
    { subst j. destruct (Np.linspace_at D (d + 1) i); try discriminate. reflexivity. }
    rewrite Hj, Hz. rewrite Z.div_0_l by lia. lia. }
  set (y := Np.linspace_at D (d + 1) i) in *.
  set (P := (IZR i * (IZR D / IZR d))%R) in *.
  set (e := p2 (-52)) in *.
  assert (He : (0 < e <= 1)%R).
  { subst e. pose proof (p2_pos (-52)). pose proof eps_le_half. lra. }
  assert (HdR : (1 <= IZR d)%R) by (apply IZR_le; lia).
  assert (HDR : (0 <= IZR D < IZR (2 ^ 50))%R)
    by (split; [apply IZR_le | apply IZR_lt]; lia).
  assert (HiR : (0 <= IZR i <= IZR d)%R) by (split; apply IZR_le; lia).
  assert (HP0 : (0 <= P)%R).
  { subst P. apply Rmult_le_pos; [lra|]. unfold Rdiv.
    apply Rmult_le_pos; [lra|]. apply Rlt_le, Rinv_0_lt_compat. lra. }
  assert (HPD : (P <= IZR D)%R) by (apply ratio_le; lra).
  destruct Hb as [Hlo Hhi].
  apply twice_rounded_upper in Hhi; [|assumption|assumption].
  apply twice_rounded_lower in Hlo; [|assumption|assumption].
  assert (HeP : (e * P < 1 / 4)%R).
  { rewrite <- p2_m2. change (-2) with (50 - 52).
    apply eps_times; [lia | lra]. }
  destruct (is_pos_finite _ Py) as (Fy & Sy & _).
  destruct (astype_int64_real y Fy Sy) as [Hj0 [Hj1 Hj2]].
  { apply Rlt_trans with (IZR (2 ^ 50) + 1)%R; [lra|].
    rewrite <- plus_IZR. apply IZR_lt.
    assert (2 ^ 50 < 2 ^ 62) by (apply pow2_lt; lia).
    assert (2 ^ 62 < 2 ^ 63) by (apply pow2_lt; lia). lia. }
  fold j in Hj0, Hj1, Hj2.
  split; [|split; [assumption|]].
  - split; [assumption|].
    assert (IZR j < IZR (D + 1))%R by (rewrite plus_IZR; lra).
    apply lt_IZR in H. lia.
  - intros HDd.
    pose proof (Z.div_mod (i * D) d ltac:(lia)) as Hdm.
    pose proof (Z.mod_pos_bound (i * D) d ltac:(lia)) as Hr.
    set (k := i * D / d) in *. set (r := (i * D) mod d) in *.
    assert (HPd : (P * IZR d = IZR k * IZR d + IZR r)%R).
    { subst P. rewrite <- mult_IZR, <- plus_IZR, (Z.mul_comm k d), <- Hdm, mult_IZR.
      field. lra. }
    assert (HrR : (0 <= IZR r <= IZR d - 1)%R).
    { split; [apply IZR_le; lia|]. rewrite <- minus_IZR. apply IZR_le. lia. }
    assert (HePd : (e * (P * IZR d) < 1 / 4)%R).
    { rewrite <- p2_m2. change (-2) with (50 - 52).
      apply eps_times; [lia|]. split; [nra|].
      rewrite HPd, <- mult_IZR, <- plus_IZR. apply IZR_lt. nia. }
    assert (Hup : (mag y < IZR k + 1)%R).
    { apply Rmult_lt_reg_r with (IZR d); [lra|].
      assert (mag y * IZR d <= (P + 3 * e * P) * IZR d)%R
        by (apply Rmult_le_compat_r; lra).
      nra. }
    assert (Hlow : (IZR k - 1 / 2 < mag y)%R).
    { assert (IZR k <= P)%R.
      { apply Rmult_le_reg_r with (IZR d); [lra|]. rewrite HPd. lra. }
      lra. }
    split.
    + assert (IZR k < IZR (j + 2))%R by (rewrite plus_IZR; lra).
      apply lt_IZR in H. lia.
    + assert (IZR j < IZR (k + 1))%R by (rewrite plus_IZR; lra).
      apply lt_IZR in H. lia.
Qed.

End NpFacts.

(** ** Amplitude extraction and resampling *)

Example extract_amplitudes_pairs :
  extract_amplitudes Np.CastRaises [-3; 5; -128; 0; 7; -9]
  = Ok [F64.of_Z 5; F64.of_Z 128; F64.of_Z 9].
Proof. vm_compute. reflexivity. Qed.

Example resize_array_5_4 :
  resize_array [10; 20; 30; 40; 50] 4 = Ok [10; 20; 30; 50].
Proof. vm_compute. reflexivity. Qed.

Lemma of_Z_is_pos (z : Z) :
  0 < z < 2 ^ 63 -> F64.is_pos (F64.of_Z z) = true.
Proof.
  intros Hz. destruct z as [|p|p]; try lia.
  unfold F64.of_Z, binary_normalize.
  pose proof (F64Facts.binary_round_real false p 0) as H.
  change (F64.p2 0) with 1%R in H. rewrite Rmult_1_r in H.
  apply F64Facts.rounds_pos in H; [tauto|].
  split.
  - apply Rle_trans with 1%R; [|apply IZR_le; lia].
    change 1%R with (F64.p2 0). apply F64Facts.p2_le. lia.
  - apply Rle_trans with (F64.p2 63); [|apply F64Facts.p2_le; lia].
    rewrite <- F64Facts.p2_IZR by lia. apply IZR_le. lia.
Qed.

Lemma length_range (a b : Z) : length (range a b) = Z.to_nat (b - a).
Proof. unfold range. rewrite length_map, length_seq. reflexivity. Qed.

Lemma nth_error_range (a b : Z) (k : nat) :
  (k < Z.to_nat (b - a))%nat -> nth_error (range a b) k = Some (a + Z.of_nat k).
Proof.
  intros Hk. unfold range. rewrite nth_error_map, nth_error_seq.
  destruct (Nat.ltb_spec k (Z.to_nat (b - a))); [|lia]. reflexivity.
Qed.

Lemma in_range (a b v : Z) : In v (range a b) <-> a <= v < b.
Proof.
  unfold range. rewrite in_map_iff. split.
  - intros (k & <- & Hk). apply in_seq in Hk. lia.
  - intros Hv. exists (Z.to_nat (v - a)). split; [lia|]. apply in_seq. lia.
Qed.

Lemma mapM_ok {A B : Type} (f : A -> result B) (g : A -> B) (l : list A) :
  (forall x, In x l -> f x = Ok (g x)) -> mapM f l = Ok (map g l).
Proof.
  induction l as [|a l IH]; intros H; simpl; [reflexivity|].
  rewrite (H a) by (left; reflexivity).
  rewrite IH by (intros x Hx; apply H; right; assumption). reflexivity.
Qed.

Lemma getitem_ok {A : Type} (a : list A) (j : Z) (dflt : A) :
  0 <= j < Z.of_nat (length a) ->
  Np.getitem a j = Ok (nth (Z.to_nat j) a dflt).
Proof.
  intros Hj. unfold Np.getitem.
  destruct (Z.ltb_spec j 0); [lia|].
  destruct (Z.leb_spec 0 j); [|lia].
  destruct (Z.ltb_spec j (Z.of_nat (length a))); [|lia]. simpl.
  destruct (nth_error a (Z.to_nat j)) as [v|] eqn:E.
  - rewrite (nth_error_nth _ _ dflt E). reflexivity.
  - apply nth_error_None in E. lia.
Qed.

Lemma getitem_empty {A : Type} (j : Z) : Np.getitem (@nil A) j = Raise IndexError.
Proof.
  unfold Np.getitem. destruct (_ && _); [|reflexivity].
  destruct (Z.to_nat _); reflexivity.
Qed.

(** For an array of length [L], [1 <= L <= 2^50], and a target length
    [T], [1 < T <= 2^53], [resize_array] returns [T] elements, each of them
    an element of the input (no value is interpolated), the last one being
    the last element of the input.  When the lengths differ the index of
    element [i] is the binary64 value [np.linspace(0, L - 1, T)[i]]
    truncated toward zero: it lies in [0 .. L - 1] without any clamping and,
    when [(L - 1) * (T - 1) < 2^50], it is [floor(i * (L - 1) / (T - 1))] or
    one less. *)
Theorem resize_array_truncates {A : Type} (arr : list A) (T : Z) :
  1 <= Z.of_nat (length arr) <= 2 ^ 50 -> 1 < T <= 2 ^ 53 ->
  exists out,
    resize_array arr T = Ok out /\
    Z.of_nat (length out) = T /\
    (forall v, In v out -> In v arr) /\
    forall i, 0 <= i < T ->
      exists j,
        0 <= j <= Z.of_nat (length arr) - 1 /\
        nth_error out (Z.to_nat i) = nth_error arr (Z.to_nat j) /\
        (i = T - 1 -> j = Z.of_nat (length arr) - 1) /\
        (Z.of_nat (length arr) <> T ->
           j = Np.astype_int64
                 (Np.linspace_at (Z.of_nat (length arr) - 1) T i)) /\
        ((Z.of_nat (length arr) - 1) * (T - 1) < 2 ^ 50 ->
           i * (Z.of_nat (length arr) - 1) / (T - 1) - 1 <= j
             <= i * (Z.of_nat (length arr) - 1) / (T - 1)).
Proof.
  intros HL HT.
  destruct arr as [|a0 arr']; [simpl in HL; lia|].
  set (arr := a0 :: arr') in *. set (L := Z.of_nat (length arr)) in *.
  unfold resize_array. fold L.
  destruct (Z.eqb_spec L T) as [Heq | Hne].
  - (* the input is returned as it is *)
    exists arr. split; [reflexivity|]. split; [assumption|].
    split; [auto|]. intros i Hi. exists i.
    split; [lia|]. split; [reflexivity|]. split; [lia|].
    split; [intros H; contradiction|]. intros _.
    rewrite Heq, Z.div_mul by lia. lia.
  - set (f := fun i => Np.astype_int64 (Np.linspace_at (L - 1) T i)).
    assert (Hidx : forall i, 0 <= i < T ->
              0 <= f i <= L - 1 /\ (i = T - 1 -> f i = L - 1) /\
              ((L - 1) * (T - 1) < 2 ^ 50 ->
                 i * (L - 1) / (T - 1) - 1 <= f i <= i * (L - 1) / (T - 1))).
    { intros i Hi. unfold f.
      pose proof (NpFacts.linspace_at_index (L - 1) (T - 1) i
                    ltac:(lia) ltac:(lia) ltac:(lia)) as H.
      replace (T - 1 + 1) with T in H by lia. exact H. }
    unfold Np.linspace_intp. destruct (Z.ltb_spec T 0) as [Hneg | _]; [lia|].
    unfold Py.bind, Np.take. fold f.
    set (g := fun j : Z => nth (Z.to_nat j) arr a0).
    rewrite (mapM_ok (Np.getitem arr) g).
    2:{ intros j Hj. apply in_map_iff in Hj as (i & <- & Hi).
        apply in_range in Hi. apply getitem_ok.
        fold L. destruct (Hidx i Hi) as [Hr _]. lia. }
    eexists. split; [reflexivity|].
    split; [rewrite !length_map, length_range; lia|].
    split.
    + intros v Hv. apply in_map_iff in Hv as (j & <- & Hj).
      apply in_map_iff in Hj as (i & <- & Hi). apply in_range in Hi.
      unfold g. apply nth_In. destruct (Hidx i Hi) as [Hr _]. fold L in Hr. lia.
    + intros i Hi. exists (f i). destruct (Hidx i Hi) as (H1 & H2 & H3).
      split; [assumption|]. split.
      * rewrite !nth_error_map, nth_error_range by lia. simpl.
        replace (0 + Z.of_nat (Z.to_nat i)) with i by lia.
        unfold g. symmetry. apply nth_error_nth'. lia.
      * split; [assumption|]. split; [reflexivity | assumption].
Qed.

Lemma resize_array_truncates_witness :
  exists out, resize_array [10; 20; 30; 40; 50] 4 = Ok out /\
              Z.of_nat (length out) = 4.
Proof.
  destruct (resize_array_truncates [10; 20; 30; 40; 50] 4) as (out & H1 & H2 & _).
  - simpl. lia.
  - lia.
  - exists out. auto.
Defined.

(** C7: resampling five values to four takes, at position 2, the value at
    index 2, where [np.linspace(0, 4, 4)[2] = 2.66...] is truncated; the
    nearest index, which the specification and the docstring of
    [resize_array] ask for, is 3. *)
Lemma resize_array_not_nearest :
  exists out,
    resize_array [10; 20; 30; 40; 50] 4 = Ok out /\
    nth_error out 2 = Some 30 /\
    nth_error [10; 20; 30; 40; 50] (Z.to_nat (Spec.resample_index 5 4 2))
      = Some 40.
Proof.
  exists [10; 20; 30; 50]. split; [vm_compute; reflexivity|].
  split; reflexivity.
Qed.

(** C8: on a non-empty array (of fewer than 2^63 elements) [resize_array]
    returns the array itself when the target length is its length, and the
    one-element array of its first element when the target length is 1. *)
Theorem resize_array_identity_and_single {A : Type} (a : A) (rest : list A) :
  Z.of_nat (length (a :: rest)) < 2 ^ 63 ->
  resize_array (a :: rest) (Z.of_nat (length (a :: rest))) = Ok (a :: rest) /\
  resize_array (a :: rest) 1 = Ok [a].
Proof.
  intros HL. split.
  - unfold resize_array. rewrite Z.eqb_refl. reflexivity.
  - unfold resize_array. set (L := Z.of_nat (length (a :: rest))) in *.
    destruct (Z.eqb_spec L 1) as [H1 | H1].
    + destruct rest; [reflexivity|]. simpl length in L. lia.
    + assert (HL1 : 0 < L - 1 < 2 ^ 63) by (subst L; simpl length in *; lia).
      pose proof (of_Z_is_pos (L - 1) HL1) as Hp.
      destruct (F64Facts.is_pos_inv _ Hp) as (m & e & Hm).
      assert (Hidx : Np.linspace_intp (L - 1) 1 = Ok [0]).
      { unfold Np.linspace_intp. simpl. unfold Np.linspace_at. simpl.
        rewrite Hm. reflexivity. }
      rewrite Hidx. reflexivity.
Qed.

Lemma resize_array_identity_and_single_witness :
  resize_array [7; 8; 9] 3 = Ok [7; 8; 9] /\ resize_array [7; 8; 9] 1 = Ok [7].
Proof.
  apply (resize_array_identity_and_single 7 [8; 9]). simpl. lia.
Defined.

Lemma list_pair_ind {A : Type} (P : list A -> Prop) :
  P [] -> (forall a, P [a]) ->
  (forall a b l, P l -> P (a :: b :: l)) -> forall l, P l.
Proof.
  intros H0 H1 H2.
  fix IH 1. intros [|a [|b l]]; [exact H0 | apply H1 | apply H2, IH].
Qed.

Lemma length_slice_even {A : Type} (l : list A) :
  length (Np.slice_even l) = Nat.div2 (S (length l)).
Proof.
  induction l as [|a|a b l IH] using list_pair_ind; try reflexivity.
  simpl in *. rewrite IH. reflexivity.
Qed.

Lemma length_slice_odd {A : Type} (l : list A) :
  length (Np.slice_odd l) = Nat.div2 (length l).
Proof.
  destruct l as [|a l]; [reflexivity|]. simpl. apply length_slice_even.
Qed.

Lemma slice_even_cons2 {A : Type} (a b : A) (l : list A) :
  Np.slice_even (a :: b :: l) = a :: Np.slice_even l.
Proof. reflexivity. Qed.

Lemma slice_odd_cons2 {A : Type} (a b : A) (l : list A) :
  Np.slice_odd (a :: b :: l) = b :: Np.slice_odd l.
Proof. destruct l; reflexivity. Qed.

Lemma to_int8_in_range (c : Np.int_cast) (z : Z) :
  -128 <= z <= 127 -> Np.to_int8 c z = Ok z.
Proof.
  intros H. unfold Np.to_int8.
  destruct (Z.leb_spec (-128) z); [|lia]. destruct (Z.leb_spec z 127); [|lia].
  reflexivity.
Qed.

Lemma mapM_to_int8_in_range (c : Np.int_cast) (raw : list Z) :
  Forall (fun v => -128 <= v <= 127) raw -> mapM (Np.to_int8 c) raw = Ok raw.
Proof.
  intros H. rewrite (mapM_ok (Np.to_int8 c) (fun z => z)).
  - rewrite map_id. reflexivity.
  - intros x Hx. apply to_int8_in_range.
    apply (proj1 (List.Forall_forall _ raw) H x Hx).
Qed.

Lemma F64_eqb_eq (x y : spec_float) : F64.eqb x y = true -> x = y.
Proof.
  destruct x as [a | a | | a m e], y as [b | b | | b n f]; simpl;
    try discriminate; intros H.
  - apply Bool.eqb_prop in H. congruence.
  - apply Bool.eqb_prop in H. congruence.
  - reflexivity.
  - apply andb_true_iff in H as [H H3]. apply andb_true_iff in H as [H1 H2].
    apply Bool.eqb_prop in H1. apply Pos.eqb_eq in H2. apply Z.eqb_eq in H3.
    congruence.
Qed.

(** On the 256 x 256 pairs of [int8] values, the [float64] computation is
    the integer one. *)
Lemma magnitude_table :
  forallb (fun a =>
    forallb (fun b =>
      F64.eqb (Np.maximum1 (SFabs (F64.of_Z a)) (SFabs (F64.of_Z b)))
              (F64.of_Z (Z.max (Z.abs a) (Z.abs b))))
      (range (-128) 128))
    (range (-128) 128) = true.
Proof. vm_compute. reflexivity. Qed.

Lemma magnitude_int8 (a b : Z) :
  -128 <= a <= 127 -> -128 <= b <= 127 ->
  Np.maximum1 (SFabs (F64.of_Z a)) (SFabs (F64.of_Z b))
  = F64.of_Z (Z.max (Z.abs a) (Z.abs b)).
Proof.
  intros Ha Hb.
  assert (Ia : In a (range (-128) 128)) by (apply in_range; lia).
  assert (Ib : In b (range (-128) 128)) by (apply in_range; lia).
  pose proof (proj1 (List.forallb_forall _ _) magnitude_table a Ia) as H1.
  cbv beta in H1.
  pose proof (proj1 (List.forallb_forall _ _) H1 b Ib) as H2.
  apply F64_eqb_eq. exact H2.
Qed.

Lemma length_magnitudes (raw : list Z) (n : nat) :
  length raw = (2 * n)%nat -> length (Spec.magnitudes raw) = n.
Proof.
  revert n. induction raw as [|a|a b l IH] using list_pair_ind; intros n H.
  - simpl in *. lia.
  - simpl in H. lia.
  - simpl in *. destruct n as [|n]; [lia|]. rewrite (IH n) by lia. reflexivity.
Qed.

Lemma nth_error_magnitudes (raw : list Z) (n i : nat) :
  length raw = (2 * n)%nat -> (i < n)%nat ->
  nth_error (Spec.magnitudes raw) i
  = Some (Z.max (Z.abs (nth (2 * i) raw 0)) (Z.abs (nth (2 * i + 1) raw 0))).
Proof.
  revert n i. induction raw as [|a|a b l IH] using list_pair_ind; intros n i H Hi.
  - simpl in H. lia.
  - simpl in H. lia.
  - destruct i as [|i].
    + reflexivity.
    + simpl Spec.magnitudes. simpl nth_error.
      destruct n as [|n]; [lia|].
      rewrite (IH n i) by (simpl in H; lia).
      replace (2 * S i)%nat with (S (S (2 * i))) by lia. reflexivity.
Qed.

Lemma maximum_slices (raw : list Z) :
  Nat.Even (length raw) -> Forall (fun v => -128 <= v <= 127) raw ->
  Np.maximum (map SFabs (map F64.of_Z (Np.slice_even raw)))
             (map SFabs (map F64.of_Z (Np.slice_odd raw)))
  = Ok (map F64.of_Z (Spec.magnitudes raw)).
Proof.
  intros He Hr. unfold Np.maximum.
  rewrite !length_map, length_slice_even, length_slice_odd.
  destruct He as [n Hn].
  replace (Nat.div2 (S (length raw))) with n
    by (rewrite Hn; symmetry; apply Nat.div2_succ_double).
  replace (Nat.div2 (length raw)) with n
    by (rewrite Hn; symmetry; apply Nat.div2_double).
  rewrite Nat.eqb_refl. f_equal.
  revert n Hn Hr. induction raw as [|a|a b l IH] using list_pair_ind;
    intros n Hn Hr.
  - reflexivity.
  - simpl in Hn. lia.
  - rewrite slice_even_cons2, slice_odd_cons2. simpl.
    inversion Hr as [|? ? Ha Hr']. inversion Hr' as [|? ? Hb Hr'']. subst.
    rewrite magnitude_int8 by assumption. f_equal.
    destruct n as [|n]; [simpl in Hn; lia|].
    apply (IH n); [simpl in Hn; lia | assumption].
Qed.

(** C1: on a stream of [2 * n] values, all in [-128 .. 127],
    [extract_amplitudes] returns [n] magnitudes, the one at position [i]
    being [max(abs(raw[2 i]), abs(raw[2 i + 1]))] as a float; every magnitude
    lies in [0 .. 128] (128 is reached, by a value of -128). *)
Theorem extract_amplitudes_magnitudes (c : Np.int_cast) (raw : list Z) (n : nat) :
  length raw = (2 * n)%nat -> Forall (fun v => -128 <= v <= 127) raw ->
  exists out,
    extract_amplitudes c raw = Ok out /\ length out = n /\
    forall i, (i < n)%nat ->
      exists k,
        nth_error out i = Some (F64.of_Z k) /\
        k = Z.max (Z.abs (nth (2 * i) raw 0)) (Z.abs (nth (2 * i + 1) raw 0)) /\
        0 <= k <= 128.
Proof.
  intros Hlen Hr. exists (map F64.of_Z (Spec.magnitudes raw)).
  split; [|split].
  - unfold extract_amplitudes. rewrite mapM_to_int8_in_range by assumption.
    simpl. apply maximum_slices; [exists n; assumption | assumption].
  - rewrite length_map. apply length_magnitudes. assumption.
  - intros i Hi. eexists. split; [|split; [reflexivity|]].
    + rewrite nth_error_map, (nth_error_magnitudes raw n i) by assumption.
      reflexivity.
    + assert (Hnth : forall j, -128 <= nth j raw 0 <= 127).
      { intros j. destruct (Nat.lt_ge_cases j (length raw)) as [Hj | Hj].
        - apply (proj1 (List.Forall_forall _ raw) Hr). apply nth_In. assumption.
        - rewrite nth_overflow by assumption. lia. }
      pose proof (Hnth (2 * i)%nat). pose proof (Hnth (2 * i + 1)%nat). lia.
Qed.

Lemma extract_amplitudes_magnitudes_witness :
  exists out, extract_amplitudes Np.CastRaises [-3; 5; 100; -100] = Ok out /\
              length out = 2%nat.
Proof.
  destruct (extract_amplitudes_magnitudes Np.CastRaises [-3; 5; 100; -100] 2)
    as (out & H1 & H2 & _).
  - reflexivity.
  - repeat constructor; lia.
  - exists out. auto.
Defined.

(** A pair whose minimum is -128 has magnitude 128, above 127. *)
Lemma extract_amplitudes_reaches_128 :
  Forall (fun v => -128 <= v <= 127) [-128; 0] /\
  extract_amplitudes Np.CastRaises [-128; 0] = Ok [F64.of_Z 128] /\
  SFleb (F64.of_Z 128) (F64.of_Z 127) = false.
Proof.
  split; [repeat constructor; lia|]. split; vm_compute; reflexivity.
Qed.

Lemma maximum_mismatch (xs ys : list spec_float) :
  length xs <> length ys -> (2 <= length xs)%nat -> (2 <= length ys)%nat ->
  Np.maximum xs ys = Raise ValueError.
Proof.
  intros Hne Hx Hy. unfold Np.maximum.
  destruct (Nat.eqb_spec (length xs) (length ys)); [contradiction|].
  destruct xs as [|x1 [|x2 xs]]; simpl in Hx; try lia.
  destruct ys as [|y1 [|y2 ys]]; simpl in Hy; try lia.
  reflexivity.
Qed.

Lemma mapM_to_int8_raises (raw : list Z) :
  Exists (fun v => ~ (-128 <= v <= 127)) raw ->
  mapM (Np.to_int8 Np.CastRaises) raw = Raise OverflowError.
Proof.
  induction 1 as [a l Ha | a l Hl IH]; simpl.
  - unfold Np.to_int8.
    destruct (Z.leb_spec (-128) a); destruct (Z.leb_spec a 127);
      simpl; try reflexivity. lia.
  - rewrite IH. destruct (Np.to_int8 Np.CastRaises a) eqn:E; [reflexivity|].
    unfold Np.to_int8 in E. destruct (_ && _); congruence.
Qed.

Lemma wrap_int8_in_range (z : Z) : -128 <= z <= 127 -> Np.wrap_int8 z = z.
Proof. intros H. unfold Np.wrap_int8. rewrite Z.mod_small by lia. lia. Qed.

Lemma wrap_int8_range (z : Z) : -128 <= Np.wrap_int8 z <= 127.
Proof.
  unfold Np.wrap_int8. pose proof (Z.mod_pos_bound (z + 128) 256 ltac:(lia)). lia.
Qed.

Lemma mapM_to_int8_wraps (raw : list Z) :
  mapM (Np.to_int8 Np.CastWraps) raw = Ok (map Np.wrap_int8 raw).
Proof.
  apply mapM_ok. intros z _. unfold Np.to_int8.
  destruct (Z.leb_spec (-128) z); destruct (Z.leb_spec z 127); simpl;
    try reflexivity.
  rewrite wrap_int8_in_range by lia. reflexivity.
Qed.

(** C6: [extract_amplitudes] validates nothing and has no error of its own.
    On a stream of odd length with values in range it raises [ValueError]
    (the two slices cannot be broadcast) when the length is at least 5, and
    returns a result when the length is 1 or 3.  On a value outside
    [-128 .. 127] the conversion to [int8] raises [OverflowError] where
    NumPy raises on such casts; where NumPy wraps them, the result is that of
    the stream reduced modulo 256. *)
Theorem extract_amplitudes_unvalidated (c : Np.int_cast) (raw : list Z) :
  (Forall (fun v => -128 <= v <= 127) raw -> Nat.Odd (length raw) ->
   (5 <= length raw)%nat -> extract_amplitudes c raw = Raise ValueError) /\
  (Forall (fun v => -128 <= v <= 127) raw -> Nat.Odd (length raw) ->
   (length raw < 5)%nat -> is_ok (extract_amplitudes c raw) = true) /\
  (Exists (fun v => ~ (-128 <= v <= 127)) raw ->
   extract_amplitudes Np.CastRaises raw = Raise OverflowError) /\
  extract_amplitudes Np.CastWraps raw
  = extract_amplitudes Np.CastWraps (map Np.wrap_int8 raw).
Proof.
  split; [|split; [|split]].
  - intros Hr [k Hk] H5. unfold extract_amplitudes.
    rewrite mapM_to_int8_in_range by assumption. simpl.
    apply maximum_mismatch; rewrite !length_map, ?length_slice_even, ?length_slice_odd, Hk.
    + replace (S (2 * k + 1)) with (2 * (S k))%nat by lia.
      rewrite Nat.div2_double.
      replace (2 * k + 1)%nat with (S (2 * k)) by lia.
      rewrite Nat.div2_succ_double. lia.
    + replace (S (2 * k + 1)) with (2 * (S k))%nat by lia.
      rewrite Nat.div2_double. lia.
    + replace (2 * k + 1)%nat with (S (2 * k)) by lia.
      rewrite Nat.div2_succ_double. lia.
  - intros Hr [k Hk] H5. unfold extract_amplitudes.
    rewrite mapM_to_int8_in_range by assumption.
    destruct raw as [|a [|b [|c' [|d [|e l]]]]]; simpl in Hk, H5; try lia;
      reflexivity.
  - intros Hex. unfold extract_amplitudes.
    rewrite mapM_to_int8_raises by assumption. reflexivity.
  - unfold extract_amplitudes. rewrite !mapM_to_int8_wraps.
    rewrite map_map.
    rewrite (map_ext (fun x => Np.wrap_int8 (Np.wrap_int8 x)) Np.wrap_int8);
      [reflexivity|].
    intros z. apply wrap_int8_in_range, wrap_int8_range.
Qed.

Lemma extract_amplitudes_unvalidated_witness :
  extract_amplitudes Np.CastRaises [1; 2; 3; 4; 5] = Raise ValueError /\
  is_ok (extract_amplitudes Np.CastRaises [1; 2; 3]) = true /\
  extract_amplitudes Np.CastRaises [1; 200] = Raise OverflowError.
Proof.
  split; [|split].
  - apply (proj1 (extract_amplitudes_unvalidated Np.CastRaises [1; 2; 3; 4; 5])).
    + repeat constructor; lia.
    + exists 2%nat. reflexivity.
    + simpl. lia.
  - apply (proj1 (proj2 (extract_amplitudes_unvalidated Np.CastRaises [1; 2; 3]))).
    + repeat constructor; lia.
    + exists 1%nat. reflexivity.
    + simpl. lia.
  - apply (proj1 (proj2 (proj2 (extract_amplitudes_unvalidated Np.CastRaises [1; 200])))).
    apply Exists_cons_tl, Exists_cons_hd. lia.
Defined.

(** A stream of odd length three is accepted: its single odd-position value
    is paired with both even-position values. *)
Lemma extract_amplitudes_accepts_odd_length :
  Nat.Odd (length [1; -2; 3]) /\
  extract_amplitudes Np.CastRaises [1; -2; 3] = Ok [F64.of_Z 2; F64.of_Z 3].
Proof.
  split; [exists 1%nat; reflexivity | vm_compute; reflexivity].
Qed.

(** ** The canvas *)

Import Pil.

Lemma setitem_in (im : Pil.image) (x y : Z) (c : color) :
  0 <= x < Pil.im_width im -> 0 <= y < Pil.im_height im ->
  Draw.setitem x y c im = (Ok tt, Pil.put im x y c).
Proof.
  intros Hx Hy. unfold Draw.setitem, Pil.setitem.
  destruct (Z.ltb_spec x 0); [lia|]. destruct (Z.ltb_spec y 0); [lia|].
  destruct (Z.leb_spec 0 x); [|lia]. destruct (Z.ltb_spec x (Pil.im_width im)); [|lia].
  destruct (Z.leb_spec 0 y); [|lia]. destruct (Z.ltb_spec y (Pil.im_height im)); [|lia].
  reflexivity.
Qed.


Lemma same_frame_refl (im : Pil.image) : same_frame im im.
Proof. unfold same_frame. auto. Qed.

Lemma same_frame_trans (a b c : Pil.image) :
  same_frame a b -> same_frame b c -> same_frame a c.
Proof. unfold same_frame. intuition congruence. Qed.

Lemma same_frame_put (im : Pil.image) (x y : Z) (c : color) :
  same_frame im (Pil.put im x y c).
Proof. unfold same_frame. auto. Qed.

(** A loop that sets, in one colour, the pixel of each element that passes
    a test. *)
Lemma for_each_setitem {A : Type} (l : list A) (cond : A -> bool)
    (fx fy : A -> Z) (c : color) (im : Pil.image) :
  (forall a, In a l -> cond a = true ->
     0 <= fx a < Pil.im_width im /\ 0 <= fy a < Pil.im_height im) ->
  exists im',
    Draw.for_each l (fun a => if cond a then Draw.setitem (fx a) (fy a) c
                              else Draw.ret tt) im = (Ok tt, im') /\
    same_frame im im' /\
    forall x y,
      Pil.im_pixels im' !! (x, y)
      = if existsb (fun a => cond a && (fx a =? x) && (fy a =? y)) l
        then Some c
        else Pil.im_pixels im !! (x, y).
Proof.
  revert im. induction l as [|a l IH]; intros im Hin.
  - exists im. simpl. split; [reflexivity|]. split; [apply same_frame_refl|].
    reflexivity.
  - simpl Draw.for_each. unfold Draw.bind.
    destruct (cond a) eqn:Ca.
    + destruct (Hin a (or_introl eq_refl) Ca) as [Hx Hy].
      rewrite setitem_in by assumption.
      destruct (IH (Pil.put im (fx a) (fy a) c)) as (im' & Hrun & Hfr & Hpix).
      { intros b Hb Cb. simpl. apply Hin; [right|]; assumption. }
      exists im'. split; [exact Hrun|].
      split; [eapply same_frame_trans; [apply same_frame_put | exact Hfr]|].
      intros x y. rewrite Hpix. simpl existsb. rewrite Ca. simpl andb.
      destruct (existsb _ l); [rewrite orb_true_r; reflexivity|].
      rewrite orb_false_r. simpl Pil.im_pixels.
      destruct (Z.eqb_spec (fx a) x) as [-> | Hne]; simpl.
      * destruct (Z.eqb_spec (fy a) y) as [-> | Hne].
        -- apply lookup_insert_eq.
        -- apply lookup_insert_ne. congruence.
      * apply lookup_insert_ne. congruence.
    + unfold Draw.ret.
      destruct (IH im) as (im' & Hrun & Hfr & Hpix).
      { intros b Hb Cb. apply Hin; [right|]; assumption. }
      exists im'. split; [exact Hrun|]. split; [exact Hfr|].
      intros x y. rewrite Hpix. simpl existsb. rewrite Ca. reflexivity.
Qed.

(** C10: on a column [x] of the canvas the quiet branch succeeds and sets to
    the quiet colour exactly the pixels [(x, y)] with
    [center_y - 1 <= y <= center_y + 1] and [0 <= y < height]; every other
    pixel, and the size, fill colour and text of the canvas, are unchanged.
    The rows are tested against the height of the canvas only: when the
    waveform area is less than three rows tall, a pixel of the marker lies in
    the title strip or in the timeline strip. *)
Theorem draw_quiet_marker (im : Pil.image) (x center_y : Z) :
  0 <= x < Pil.im_width im ->
  exists im',
    draw_quiet x center_y (Pil.im_height im) im = (Ok tt, im') /\
    Pil.same_frame im im' /\
    (forall x' y',
       Pil.im_pixels im' !! (x', y') =
       if (x' =? x) && (center_y - 1 <=? y') && (y' <=? center_y + 1)
          && (0 <=? y') && (y' <? Pil.im_height im)
       then Some QUIET_COLOR
       else Pil.im_pixels im !! (x', y')) /\
    let waveform_height := Pil.im_height im - TIMELINE_HEIGHT - TITLE_HEIGHT in
    (center_y = TITLE_HEIGHT + waveform_height / 2 ->
     0 <= waveform_height < 3 ->
     exists y, Pil.im_pixels im' !! (x, y) = Some QUIET_COLOR /\
               (y < TITLE_HEIGHT \/ TITLE_HEIGHT + waveform_height <= y)).
Proof.
  intros Hx. unfold draw_quiet. change (range (-1) 2) with [-1; 0; 1].
  destruct (for_each_setitem [-1; 0; 1]
              (fun dy => (0 <=? center_y + dy) && (center_y + dy <? Pil.im_height im))
              (fun _ => x) (fun dy => center_y + dy) QUIET_COLOR im)
    as (im' & Hrun & Hfr & Hpix).
  { intros dy _ Hc. apply andb_true_iff in Hc as [H1 H2].
    apply Z.leb_le in H1. apply Z.ltb_lt in H2. lia. }
  exists im'. split; [exact Hrun|]. split; [exact Hfr|].
  assert (Hform : forall x' y',
       Pil.im_pixels im' !! (x', y') =
       if (x' =? x) && (center_y - 1 <=? y') && (y' <=? center_y + 1)
          && (0 <=? y') && (y' <? Pil.im_height im)
       then Some QUIET_COLOR
       else Pil.im_pixels im !! (x', y')).
  { intros x' y'. rewrite Hpix.
    match goal with
    | |- (if ?b1 then _ else _) = (if ?b2 then _ else _) =>
        replace b1 with b2; [reflexivity|]
    end.
    apply Bool.eq_iff_eq_true. simpl existsb.
    rewrite !orb_true_iff, !andb_true_iff, !Z.eqb_eq, !Z.leb_le, !Z.ltb_lt.
    intuition lia. }
  split; [exact Hform|].
  cbv zeta. intros Hcy Hwh. unfold TITLE_HEIGHT, TIMELINE_HEIGHT in *.
  remember (Pil.im_height im) as h eqn:Eh.
  assert (Hcases : h = 45 \/ h = 46 \/ h = 47) by lia.
  destruct Hcases as [-> | [-> | ->]]; vm_compute in Hcy; subst center_y.
  - exists 24. rewrite Hform, Z.eqb_refl. split; [reflexivity | lia].
  - exists 24. rewrite Hform, Z.eqb_refl. split; [reflexivity | lia].
  - exists 27. rewrite Hform, Z.eqb_refl. split; [reflexivity | lia].
Qed.

Lemma draw_quiet_marker_witness :
  exists im',
    draw_quiet 1 25 46 (Pil.Image 4 46 BG_COLOR ∅ []) = (Ok tt, im') /\
    Pil.im_pixels im' !! (1, 24) = Some QUIET_COLOR.
Proof.
  destruct (draw_quiet_marker (Pil.Image 4 46 BG_COLOR ∅ []) 1 25)
    as (im' & Hrun & _ & Hpix & _).
  - simpl. lia.
  - exists im'. split; [exact Hrun|]. rewrite Hpix. reflexivity.
Defined.

(** ** The height of a bar *)

Import F64 F64Facts NpFacts.

(** The integer part of a twice-rounded quotient [N / d] is the exact
    integer quotient or one less. *)
Lemma floor_twice_rounded (N d j : Z) (P y : R) :
  0 < d -> 0 <= N < 2 ^ 50 -> (P * IZR d = IZR N)%R ->
  (P * ((1 - p2 (-52)) * (1 - p2 (-52))) <= y
     <= P * ((1 + p2 (-52)) * (1 + p2 (-52))))%R ->
  (IZR j <= y < IZR j + 1)%R ->
  N / d - 1 <= j <= N / d.
Proof.
  intros Hd HN HP [Hlo Hhi] [Hj1 Hj2].
  set (e := p2 (-52)) in *.
  assert (He : (0 < e <= 1)%R).
  { subst e. pose proof (p2_pos (-52)). pose proof eps_le_half. lra. }
  assert (HdR : (1 <= IZR d)%R) by (apply IZR_le; lia).
  assert (HNR : (0 <= IZR N < IZR (2 ^ 50))%R)
    by (split; [apply IZR_le | apply IZR_lt]; lia).
  assert (HP0 : (0 <= P)%R) by nra.
  assert (HPN : (P <= IZR N)%R) by nra.
  apply twice_rounded_upper in Hhi; [|assumption|assumption].
  apply twice_rounded_lower in Hlo; [|assumption|assumption].
  assert (HeP : (e * P < 1 / 4)%R).
  { rewrite <- p2_m2. change (-2) with (50 - 52). apply eps_times; [lia | lra]. }
  pose proof (Z.div_mod N d ltac:(lia)) as Hdm.
  pose proof (Z.mod_pos_bound N d ltac:(lia)) as Hr.
  set (k := N / d) in *. set (r := N mod d) in *.
  assert (HPd : (P * IZR d = IZR k * IZR d + IZR r)%R).
  { rewrite HP, <- mult_IZR, <- plus_IZR. f_equal. lia. }
  assert (HrR : (0 <= IZR r <= IZR d - 1)%R).
  { split; [apply IZR_le; lia|]. rewrite <- minus_IZR. apply IZR_le. lia. }
  assert (HePd : (e * (P * IZR d) < 1 / 4)%R).
  { rewrite <- p2_m2. change (-2) with (50 - 52).
    apply eps_times; [lia|]. rewrite HP. assumption. }
  assert (Hup : (y < IZR k + 1)%R).
  { apply Rmult_lt_reg_r with (IZR d); [lra|].
    assert (y * IZR d <= (P + 3 * e * P) * IZR d)%R
      by (apply Rmult_le_compat_r; lra).
    nra. }
  assert (Hlow : (IZR k - 1 / 2 < y)%R).
  { assert (IZR k <= P)%R.
    { apply Rmult_le_reg_r with (IZR d); [lra|]. rewrite HPd. lra. }
    lra. }
  split.
  - assert (H : (IZR k < IZR (j + 2))%R) by (rewrite plus_IZR; lra).
    apply lt_IZR in H. lia.
  - assert (H : (IZR j < IZR (k + 1))%R) by (rewrite plus_IZR; lra).
    apply lt_IZR in H. lia.
Qed.

Lemma float_of_int_exact (z : Z) :
  Z.abs z < 2 ^ 53 -> Np.float_of_int z = Ok (of_Z z).
Proof.
  intros Hz. destruct (of_Z_real z Hz) as (F & _).
  unfold Np.float_of_int. destruct (of_Z z); try discriminate; reflexivity.
Qed.

Lemma truediv_pos (x y : spec_float) :
  is_pos y = true -> Np.truediv x y = Ok (F64.div x y).
Proof.
  intros H. destruct (is_pos_inv y H) as (m & e & ->). reflexivity.
Qed.

(** C3: for an integral magnitude [8 <= amp <= 128] and a canvas height
    [45 <= height < 2^31], the bar height
    [int((amp / 127.0) * (waveform_height // 2))], where
    [waveform_height = height - 20 - 25], is computed without an exception
    and is [floor(amp * (waveform_height // 2) / 127)] or one less: the half
    height is an integer (floor) division, and the quotient and the product
    are rounded to binary64 before the truncation. *)
Theorem bar_height_value (amp height : Z) :
  8 <= amp <= 128 -> 45 <= height < 2 ^ 31 ->
  let waveform_height := height - TIMELINE_HEIGHT - TITLE_HEIGHT in
  exists bh,
    bar_height (of_Z amp) waveform_height = Ok bh /\
    amp * (waveform_height / 2) / 127 - 1 <= bh
      <= amp * (waveform_height / 2) / 127.
Proof.
  intros Ha Hh wh. unfold TIMELINE_HEIGHT, TITLE_HEIGHT in wh.
  set (h := wh / 2).
  assert (Hh0 : 0 <= h < 2 ^ 30).
  { subst h wh. split; [apply Z.div_pos; lia|].
    apply Z.div_lt_upper_bound; [lia|]. change (2 ^ 31) with (2 * 2 ^ 30) in Hh. lia. }
  destruct (of_Z_pos amp) as (Va & Pa & Ma).
  { assert (2 ^ 7 < 2 ^ 53) by (apply pow2_lt; lia). change (2 ^ 7) with 128 in *. lia. }
  destruct (of_Z_pos 127) as (Vb & Pb & Mb); [split; [lia | reflexivity]|].
  assert (HX : (p2 (-1000) <= mag (of_Z amp) / mag (of_Z 127) <= p2 60)%R).
  { rewrite Ma, Mb.
    assert (8 <= IZR amp <= 128)%R by (split; apply IZR_le; lia).
    split.
    - apply Rle_trans with (p2 (-4)); [apply p2_le; lia|].
      replace (p2 (-4)) with (1 / 16)%R by (unfold p2; simpl; lra). lra.
    - apply Rle_trans with (p2 1); [|apply p2_le; lia].
      replace (p2 1) with 2%R by (unfold p2; simpl; lra). lra. }
  unfold bar_height. rewrite truediv_pos by assumption. unfold Py.bind.
  rewrite float_of_int_exact.
  2:{ fold h. assert (2 ^ 30 < 2 ^ 53) by (apply pow2_lt; lia). lia. }
  fold h. destruct (Z.eq_dec h 0) as [Hz | Hnz].
  - rewrite Hz, of_Z_0.
    destruct (div_pos_real (of_Z amp) (of_Z 127) Va Pa Vb Pb) as (_ & Pq & _).
    { destruct HX. split.
      - apply Rle_trans with (p2 (-1000)); [apply p2_le; lia | assumption].
      - apply Rle_trans with (p2 60); [assumption | apply p2_le; lia]. }
    destruct (is_pos_finite _ Pq) as (Fq & _).
    rewrite mul_zero_r by (assumption || reflexivity).
    exists 0. split; [reflexivity|]. rewrite Z.mul_0_r, Z.div_0_l by lia. lia.
  - destruct (of_Z_pos h) as (Vc & Pc & Mc).
    { assert (2 ^ 30 < 2 ^ 53) by (apply pow2_lt; lia). lia. }
    destruct (scaled_ratio (of_Z amp) (of_Z 127) (of_Z h) Va Pa Vb Pb Vc Pc HX)
      with (y := F64.mul (F64.div (of_Z amp) (of_Z 127)) (of_Z h))
      as (Vy & Py & Hb).
    { rewrite Mc. split; [apply IZR_le; lia|].
      apply Rle_trans with (p2 30); [|apply p2_le; lia].
      rewrite <- p2_IZR by lia. apply IZR_le. lia. }
    { left. reflexivity. }
    destruct (is_pos_finite _ Py) as (Fy & Sy & _).
    destruct (int_of_float_real _ Fy) as (k & Hk & Hk0 & Hkb).
    rewrite Sy in Hk. change (cond_Zopp false k) with k in Hk.
    exists k. split; [exact Hk|].
    rewrite Ma, Mb, Mc in Hb.
    apply (floor_twice_rounded (amp * h) 127 k
             (IZR h * (IZR amp / 127))%R
             (mag (F64.mul (F64.div (of_Z amp) (of_Z 127)) (of_Z h)))).
    + lia.
    + split; [nia|].
      assert (amp * h < 2 ^ 7 * 2 ^ 30) by (change (2 ^ 7) with 128; nia).
      assert (2 ^ 7 * 2 ^ 30 < 2 ^ 50) by (rewrite <- Z.pow_add_r by lia; apply pow2_lt; lia).
      lia.
    + rewrite mult_IZR. field.
    + exact Hb.
    + exact Hkb.
Qed.

Lemma bar_height_value_witness :
  exists bh, bar_height (of_Z 67) (807 - 20 - 25) = Ok bh /\ 200 <= bh <= 201.
Proof.
  destruct (bar_height_value 67 807) as (bh & H1 & H2).
  - lia.
  - split; [lia | reflexivity].
  - exists bh. split; [exact H1|]. vm_compute in H2. exact H2.
Defined.

(** At the default height 350 and amplitude 100 the bar is 119 rows tall in
    each direction; the formula of the specification gives 120. *)
Lemma bar_height_default_height :
  bar_height (of_Z 100) (350 - TIMELINE_HEIGHT - TITLE_HEIGHT) = Ok 119 /\
  Spec.bar_height 100 350 = 120.
Proof. split; vm_compute; reflexivity. Qed.

(** ** Quiet columns *)

Lemma is_nonneg_inv (x : spec_float) :
  is_nonneg x = true -> is_zero x = true \/ is_pos x = true.
Proof. destruct x as [s | s | | [] m e]; try discriminate; auto. Qed.

Lemma is_nonneg_finite (x : spec_float) :
  is_nonneg x = true -> is_finite x = true.
Proof. destruct x; try discriminate; reflexivity. Qed.

Lemma to_R_nonneg (x : spec_float) : is_nonneg x = true -> to_R x = mag x.
Proof.
  destruct x as [s | s | | [] m e]; try discriminate; intros _; unfold to_R;
    simpl; try reflexivity. destruct s; lra.
Qed.

(** [x < z] on a non-negative float. *)
Lemma lt_Z_real (x : spec_float) (z : Z) :
  is_nonneg x = true -> (lt_Z x z = true <-> (mag x < IZR z)%R).
Proof.
  intros Hx. pose proof (compare_Z_real z x (is_nonneg_finite x Hx)) as H.
  rewrite (to_R_nonneg x Hx) in H. unfold lt_Z.
  destruct (compare_Z z x) as [[]|]; try contradiction; split; intros H';
    try discriminate; try reflexivity; lra.
Qed.

Lemma valid_mag_lt (x : spec_float) : valid x -> (mag x < p2 1024)%R.
Proof.
  intros V. destruct x as [s | s | | s m e]; simpl; try apply p2_pos.
  apply valid_finite_inv in V as (Hd & He & _).
  pose proof (Zdigits2_bounds (Zpos m) ltac:(lia)) as [_ Hb].
  pose proof (Zdigits2_pos (Zpos m) ltac:(lia)).
  assert (IZR (Zpos m) < p2 53)%R.
  { apply Rlt_le_trans with (p2 (Zdigits2 (Zpos m))); [|apply p2_le; lia].
    rewrite <- p2_IZR by lia. apply IZR_lt. assumption. }
  apply Rlt_le_trans with (p2 53 * p2 e)%R.
  - apply Rmult_lt_compat_r; [apply p2_pos | assumption].
  - rewrite <- p2_add. apply p2_le. lia.
Qed.

(** A rounded result that is finite. *)
Lemma rounds_finite (s : bool) (x : R) (r : spec_float) :
  rounds s x r -> (x <= p2 1023)%R ->
  is_finite r = true /\ valid r /\ sign r = s /\
  (Rabs (mag r - x) <= x * p2 (-52) + p2 (-1074))%R.
Proof.
  intros (Hnan & Hvalid & Hsign & Hinf & Hfin) Hx.
  assert (F : is_finite r = true).
  { destruct (is_finite r) eqn:E; [reflexivity|]. specialize (Hinf eq_refl). lra. }
  destruct (Hfin F) as [Hg _]. auto.
Qed.

(** The bar height of a magnitude below the threshold is computed without
    an exception, on any canvas height. *)
Lemma bar_height_ok (amp : spec_float) (waveform_height : Z) :
  valid amp -> is_nonneg amp = true -> (mag amp <= 128)%R ->
  Z.abs waveform_height < 2 ^ 32 ->
  exists bh, bar_height amp waveform_height = Ok bh.
Proof.
  intros Va Na Ha Hw.
  destruct (of_Z_pos 127) as (Vb & Pb & Mb); [split; [lia | reflexivity]|].
  destruct (is_pos_inv _ Pb) as (mb & eb & Eb).
  set (h := waveform_height / 2).
  assert (Hh : Z.abs h <= 2 ^ 32).
  { subst h. pose proof (Z.div_mod waveform_height 2 ltac:(lia)).
    pose proof (Z.mod_pos_bound waveform_height 2 ltac:(lia)). lia. }
  assert (H32 : 2 ^ 32 < 2 ^ 53) by (apply pow2_lt; lia).
  unfold bar_height. rewrite truediv_pos by assumption. unfold Py.bind.
  rewrite float_of_int_exact by (fold h; lia). fold h.
  destruct (of_Z_real h ltac:(lia)) as (Fh & Vh & Sh & Mh & _).
  pose proof (mag_nonneg amp) as Ha0.
  assert (HX : (0 <= mag amp / mag (of_Z 127) <= 2)%R).
  { rewrite Mb. split; [|lra]. unfold Rdiv. apply Rmult_le_pos; lra. }
  pose proof (div_real amp false mb eb Va) as Hq. rewrite <- Eb in Hq.
  specialize (Hq Vb (is_nonneg_finite _ Na)).
  apply rounds_finite in Hq.
  2:{ apply Rle_trans with (p2 1); [|apply p2_le; lia].
      replace (p2 1) with 2%R by (unfold p2; simpl; lra). lra. }
  destruct Hq as (Fq & Vq & Sq & Hqb).
  set (q := F64.div amp (of_Z 127)) in *.
  assert (Hq3 : (mag q <= 4)%R).
  { apply Rabs_le_between in Hqb.
    pose proof eps_le_half. pose proof (p2_pos (-52)).
    assert (p2 (-1074) <= 1)%R by (change 1%R with (p2 0); apply p2_le; lia).
    nra. }
  pose proof (mul_real q (of_Z h) Vq Vh Fq Fh) as Hy.
  apply rounds_finite in Hy.
  2:{ rewrite Mh.
      assert (IZR (Z.abs h) <= p2 32)%R
        by (rewrite <- p2_IZR by lia; apply IZR_le; lia).
      apply Rle_trans with (4 * p2 32)%R.
      - pose proof (mag_nonneg q). apply Rmult_le_compat; try lra.
        apply IZR_le. lia.
      - replace 4%R with (p2 2) by (unfold p2; simpl; lra).
        rewrite <- p2_add. apply p2_le. lia. }
  destruct Hy as (Fy & _).
  destruct (int_of_float_real _ Fy) as (k & Hk & _).
  eexists. exact Hk.
Qed.

(** C9: in a column whose magnitude is below the quiet threshold 8 (a
    well-formed float that is not negative), the loop body does what the
    quiet branch does and nothing else, whatever the band arrays hold: no
    band value is read and no colour is computed. *)
Theorem draw_column_quiet (original_amps : list spec_float)
    (resized_bands : list (string * list spec_float)) (x_indices : list Z)
    (height x idx : Z) (amp : spec_float) (im : Pil.image) :
  Np.getitem x_indices x = Ok idx -> Np.getitem original_amps idx = Ok amp ->
  valid amp -> is_nonneg amp = true -> lt_Z amp QUIET_THRESHOLD = true ->
  0 <= height < 2 ^ 31 ->
  draw_column original_amps resized_bands x_indices height x im
  = draw_quiet x (TITLE_HEIGHT + (height - TIMELINE_HEIGHT - TITLE_HEIGHT) / 2)
      height im.
Proof.
  intros Hidx Hamp Va Na Hq Hh.
  assert (Hm : (mag amp < 8)%R) by (apply (lt_Z_real amp 8 Na); exact Hq).
  destruct (bar_height_ok amp (height - TIMELINE_HEIGHT - TITLE_HEIGHT) Va Na)
    as (bh & Hbh); [lra | |].
  { unfold TIMELINE_HEIGHT, TITLE_HEIGHT.
    assert (2 ^ 31 < 2 ^ 32) by (apply pow2_lt; lia). lia. }
  unfold draw_column, Draw.bind, Draw.lift.
  rewrite Hidx, Hamp, Hbh, Hq. reflexivity.
Qed.

Lemma draw_column_quiet_witness :
  draw_column [of_Z 5] [("sub"%string, [of_Z 90])] [0] 60 0
    (Pil.Image 1 60 BG_COLOR ∅ [])
  = draw_quiet 0 32 60 (Pil.Image 1 60 BG_COLOR ∅ []).
Proof.
  apply (draw_column_quiet [of_Z 5] [("sub"%string, [of_Z 90])] [0] 60 0 0
           (of_Z 5)).
  - reflexivity.
  - reflexivity.
  - reflexivity.
  - reflexivity.
  - reflexivity.
  - split; [lia | reflexivity].
Defined.

(** ** The colour of a column *)

Lemma rounds_nn (x : R) (r : spec_float) :
  rounds false x r -> valid r /\ is_nonneg_or_inf r = true.
Proof.
  intros (Hnan & Hvalid & Hsign & _). split; [assumption|].
  destruct r as [s | s | | s m e]; simpl in *; try discriminate;
    try reflexivity; subst; reflexivity.
Qed.

Lemma add_nn (x y : spec_float) :
  valid x -> is_nonneg_or_inf x = true ->
  valid y -> is_nonneg_or_inf y = true ->
  valid (F64.add x y) /\ is_nonneg_or_inf (F64.add x y) = true.
Proof.
  intros Vx Nx Vy Ny.
  destruct x as [sx | [] | | [] mx ex]; try discriminate;
  destruct y as [sy | [] | | [] my ey]; try discriminate;
    try (split; [assumption | reflexivity]).
  - destruct sx, sy; split; reflexivity.
  - apply rounds_nn with (x := (mag (S754_finite false mx ex)
                                + mag (S754_finite false my ey))%R).
    apply add_finite_real.
Qed.

Lemma mul_pos_nn (c w : spec_float) :
  valid c -> is_pos c = true -> valid w -> is_nonneg_or_inf w = true ->
  valid (F64.mul c w) /\ is_nonneg_or_inf (F64.mul c w) = true.
Proof.
  intros Vc Pc Vw Nw. destruct (is_pos_inv c Pc) as (mc & ec & ->).
  destruct w as [sw | [] | | [] mw ew]; try discriminate.
  - split; reflexivity.
  - split; reflexivity.
  - apply rounds_nn with (x := (mag (S754_finite false mc ec)
                                * mag (S754_finite false mw ew))%R).
    apply (mul_finite_real false mc ec false mw ew); assumption.
Qed.

Lemma div_nn (v t : spec_float) :
  valid v -> is_nonneg v = true -> valid t -> is_positive t = true ->
  valid (F64.div v t) /\ is_nonneg_or_inf (F64.div v t) = true.
Proof.
  intros Vv Nv Vt Pt.
  destruct t as [st | [] | | [] mt et]; try discriminate;
  destruct v as [sv | sv | | [] mv ev]; try discriminate;
    try (split; reflexivity).
  apply rounds_nn with (x := (mag (S754_finite false mv ev)
                              / mag (S754_finite false mt et))%R).
  apply (div_real (S754_finite false mv ev) false mt et); auto.
Qed.

Lemma EPSILON_value : EPSILON = S754_finite false 4722366482869645 (-72).
Proof. vm_compute. reflexivity. Qed.

Lemma valid_EPSILON : valid EPSILON.
Proof. rewrite EPSILON_value. reflexivity. Qed.

Lemma sum_nn (vals : list spec_float) (acc : spec_float) :
  valid acc -> is_nonneg_or_inf acc = true ->
  Forall (fun v => valid v /\ is_nonneg v = true) vals ->
  valid (fold_left F64.add vals acc) /\
  is_nonneg_or_inf (fold_left F64.add vals acc) = true.
Proof.
  revert acc. induction vals as [|v vals IH]; intros acc Va Na Hv; simpl.
  - auto.
  - inversion Hv as [|? ? [Vv Nv] Hv']. subst.
    assert (Nv' : is_nonneg_or_inf v = true).
    { destruct v as [s | s | | [] m e]; try discriminate; reflexivity. }
    destruct (add_nn acc v Va Na Vv Nv') as [V N].
    apply IH; assumption.
Qed.

(** Adding [1e-6] to a sum of non-negative numbers gives a positive one. *)
Lemma add_EPSILON_positive (s : spec_float) :
  valid s -> is_nonneg_or_inf s = true ->
  valid (F64.add s EPSILON) /\ is_positive (F64.add s EPSILON) = true.
Proof.
  intros Vs Ns. rewrite EPSILON_value.
  destruct s as [ss | [] | | [] ms es]; try discriminate;
    try (split; reflexivity).
  pose proof (add_finite_real ms es 4722366482869645 (-72)) as H.
  set (r := F64.add (S754_finite false ms es)
              (S754_finite false 4722366482869645 (-72))) in *.
  destruct H as (Hnan & Hvalid & Hsign & Hinf & Hfin).
  split; [assumption|].
  destruct (is_finite r) eqn:F.
  - destruct (Hfin eq_refl) as [_ Hn].
    destruct Hn as [_ Hnz].
    { simpl mag.
      assert (0 < IZR (Zpos ms) * p2 es)%R
        by (apply Rmult_lt_0_compat; [apply IZR_lt; lia | apply p2_pos]).
      assert (p2 (-1021) <= IZR (Zpos 4722366482869645) * p2 (-72))%R.
      { apply Rle_trans with (1 * p2 (-72))%R.
        - rewrite Rmult_1_l. apply p2_le. lia.
        - apply Rmult_le_compat_r; [apply Rlt_le, p2_pos | apply IZR_le; lia]. }
      lra. }
    destruct r as [s | s | | s m e]; try discriminate.
    simpl in Hsign. subst s. reflexivity.
  - destruct r as [s | s | | s m e]; try discriminate.
    simpl in Hsign. subst s. reflexivity.
Qed.

Lemma band_total_positive (band_vals : list (string * spec_float)) :
  Forall (fun b => valid (snd b) /\ is_nonneg (snd b) = true) band_vals ->
  valid (band_total band_vals) /\ is_positive (band_total band_vals) = true.
Proof.
  intros H. unfold band_total. apply add_EPSILON_positive.
  - apply sum_nn; [reflexivity | reflexivity |].
    apply Forall_map. exact H.
  - apply sum_nn; [reflexivity | reflexivity |].
    apply Forall_map. exact H.
Qed.

Lemma band_colors_range (name : string) (r g b : Z) :
  BAND_COLORS !! name = Some (r, g, b) ->
  0 < r < 256 /\ 0 < g < 256 /\ 0 < b < 256.
Proof.
  unfold BAND_COLORS. intros H.
  repeat (apply lookup_insert_Some in H as [[_ H] | [_ H]];
          [injection H as <- <- <-; lia|]).
  rewrite lookup_empty in H. discriminate.
Qed.

Lemma of_Z_color (c : Z) :
  0 < c < 256 -> valid (of_Z c) /\ is_pos (of_Z c) = true.
Proof.
  intros H. destruct (of_Z_pos c) as (V & P & _); [|auto].
  assert (2 ^ 8 < 2 ^ 53) by (apply pow2_lt; lia). change (2 ^ 8) with 256 in *.
  lia.
Qed.

Lemma is_positive_not_zero (x : spec_float) :
  is_positive x = true -> is_zero x = false.
Proof. destruct x; try discriminate; reflexivity. Qed.

Lemma nn_not_nan (x : spec_float) :
  is_nonneg_or_inf x = true -> is_nan x = false.
Proof. destruct x; try discriminate; reflexivity. Qed.

Lemma accumulate_nn (total : spec_float)
    (acc : spec_float * spec_float * spec_float) (band : string * spec_float) :
  valid total -> is_positive total = true -> channels_nn acc ->
  is_Some (BAND_COLORS !! fst band) ->
  valid (snd band) -> is_nonneg (snd band) = true ->
  exists acc', accumulate total acc band = Ok acc' /\ channels_nn acc'.
Proof.
  intros Vt Pt Hacc [[[cr cg] cb] Hc] Vv Nv.
  destruct acc as [[r g] b]. destruct band as [name val]. cbn [fst snd] in *.
  destruct Hacc as ((Vr & Nr) & (Vg & Ng) & (Vb & Nb)).
  destruct (band_colors_range name cr cg cb Hc) as (Hr & Hg & Hb).
  destruct (div_nn val total Vv Nv Vt Pt) as [Vw Nw].
  destruct (of_Z_color cr Hr) as [Vcr Pcr].
  destruct (of_Z_color cg Hg) as [Vcg Pcg].
  destruct (of_Z_color cb Hb) as [Vcb Pcb].
  destruct (mul_pos_nn _ _ Vcr Pcr Vw Nw) as [V1 N1].
  destruct (mul_pos_nn _ _ Vcg Pcg Vw Nw) as [V2 N2].
  destruct (mul_pos_nn _ _ Vcb Pcb Vw Nw) as [V3 N3].
  exists (F64.add r (F64.mul (of_Z cr) (F64.div val total)),
          F64.add g (F64.mul (of_Z cg) (F64.div val total)),
          F64.add b (F64.mul (of_Z cb) (F64.div val total))).
  split.
  - unfold accumulate. cbv beta iota zeta. unfold color in *. rewrite Hc.
    unfold Np.truediv.
    rewrite (is_positive_not_zero total Pt). reflexivity.
  - unfold channels_nn. split; [|split]; apply add_nn; assumption.
Qed.

Lemma accumulate_all_nn (total : spec_float)
    (bands : list (string * spec_float))
    (acc : spec_float * spec_float * spec_float) :
  valid total -> is_positive total = true -> channels_nn acc ->
  Forall (fun b => is_Some (BAND_COLORS !! fst b) /\
                   valid (snd b) /\ is_nonneg (snd b) = true) bands ->
  exists acc', accumulate_all total acc bands = Ok acc' /\ channels_nn acc'.
Proof.
  intros Vt Pt. revert acc.
  induction bands as [|band rest IH]; intros acc Hacc Hb; simpl.
  - eauto.
  - inversion Hb as [|? ? (Hc & Vv & Nv) Hb']. subst.
    destruct (accumulate_nn total acc band Vt Pt Hacc Hc Vv Nv)
      as (acc1 & E1 & H1).
    rewrite E1. simpl. apply IH; assumption.
Qed.

Lemma clip_range (v : Z) : 0 <= Np.clip v 0 255 <= 255.
Proof. unfold Np.clip. lia. Qed.

(** C2: for band values that are well-formed floats, not negative, under
    names of [BAND_COLORS], the total [sum + 1e-6] is positive, the weighted
    sum of the band colours is computed without an exception and none of its
    channels is NaN, and the colour returned has its three channels in
    [0 .. 255]. *)
Theorem band_color_in_range (band_vals : list (string * spec_float)) :
  Forall (fun b => is_Some (BAND_COLORS !! fst b) /\
                   valid (snd b) /\ is_nonneg (snd b) = true) band_vals ->
  is_positive (band_total band_vals) = true /\
  exists fr fg fb,
    accumulate_all (band_total band_vals) (of_Z 0, of_Z 0, of_Z 0) band_vals
    = Ok (fr, fg, fb) /\
    is_nan fr = false /\ is_nan fg = false /\ is_nan fb = false /\
    exists r g b,
      band_color band_vals = Ok (r, g, b) /\
      0 <= r <= 255 /\ 0 <= g <= 255 /\ 0 <= b <= 255.
Proof.
  intros H.
  destruct (band_total_positive band_vals) as [Vt Pt].
  { eapply List.Forall_impl; [|exact H]. intros b (_ & V & N). auto. }
  split; [exact Pt|].
  destruct (accumulate_all_nn (band_total band_vals) band_vals
              (of_Z 0, of_Z 0, of_Z 0) Vt Pt) as ([[fr fg] fb] & E & Hnn).
  { repeat split. }
  { exact H. }
  destruct Hnn as ((_ & Nr) & (_ & Ng) & (_ & Nb)).
  exists fr, fg, fb. split; [exact E|].
  split; [apply nn_not_nan; assumption|].
  split; [apply nn_not_nan; assumption|].
  split; [apply nn_not_nan; assumption|].
  unfold band_color. rewrite E. simpl.
  do 3 eexists. split; [reflexivity|].
  split; [|split]; apply clip_range.
Qed.

Lemma band_color_in_range_witness :
  band_color (map (fun b : Z * Z * string => (snd b, of_Z 0)) BANDS)
  = Ok (0, 0, 0).
Proof.
  destruct (band_color_in_range
              (map (fun b : Z * Z * string => (snd b, of_Z 0)) BANDS))
    as (_ & _ & _ & _ & _ & _ & _ & _ & r & g & b & H & _).
  - repeat constructor; eexists; vm_compute; reflexivity.
  - vm_compute. reflexivity.
Defined.

(** ** The tick pass *)

Lemma range_split (a b c : Z) :
  a <= b <= c -> range a c = range a b ++ range b c.
Proof.
  intros H. unfold range.
  replace (Z.to_nat (c - a)) with (Z.to_nat (b - a) + Z.to_nat (c - b))%nat by lia.
  rewrite seq_app, map_app. f_equal.
  assert (G : forall n s,
            map (fun k => a + Z.of_nat k) (seq (s + Z.to_nat (b - a)) n)
            = map (fun k => b + Z.of_nat k) (seq s n)).
  { induction n as [|n IH]; intros s; simpl; [reflexivity|].
    f_equal; [lia|]. apply (IH (S s)). }
  apply (G _ 0%nat).
Qed.

Lemma range_empty (a b : Z) : b <= a -> range a b = [].
Proof.
  intros H. unfold range. replace (Z.to_nat (b - a)) with 0%nat by lia.
  reflexivity.
Qed.

Lemma range_cons (a b : Z) : a < b -> range a b = a :: range (a + 1) b.
Proof.
  intros H. rewrite (range_split a (a + 1) b) by lia.
  unfold range at 1. replace (a + 1 - a) with 1 by lia. simpl.
  f_equal. lia.
Qed.

Lemma existsb_range (a b : Z) (f : Z -> bool) :
  existsb f (range a b) = true <-> exists v, a <= v < b /\ f v = true.
Proof.
  rewrite existsb_exists. split; intros (v & Hv & Hf); exists v;
    (split; [apply in_range; assumption | assumption]).
Qed.

(** A loop left by [break] at the first element of its second part runs the
    body on the first part only. *)
Lemma for_until_prefix {A : Type} (l1 l2 : list A) (stop : A -> bool)
    (body : A -> Draw.t unit) (im : Pil.image) :
  (forall a, In a l1 -> stop a = false) ->
  match l2 with [] => True | a :: _ => stop a = true end ->
  Draw.for_until (l1 ++ l2) stop body im = Draw.for_each l1 body im.
Proof.
  revert im. induction l1 as [|v l1 IH]; intros im H1 H2; simpl.
  - destruct l2 as [|a l2]; [reflexivity|]. simpl. rewrite H2. reflexivity.
  - rewrite (H1 v) by (left; reflexivity). unfold Draw.bind.
    destruct (body v im) as [[[]|e] im']; [|reflexivity].
    apply IH; [|assumption]. intros a Ha. apply H1. right. assumption.
Qed.

(** [time_sec > duration_seconds] for a positive duration. *)
Lemma past_end_real (d : spec_float) (i : Z) :
  is_pos d = true -> (past_end d i = true <-> (mag d < IZR (i * 30))%R).
Proof.
  intros Pd. destruct (is_pos_finite d Pd) as (Fd & Sd & _).
  pose proof (compare_Z_real (i * 30) d Fd) as H.
  unfold to_R in H. rewrite Sd in H. unfold past_end.
  destruct (compare_Z (i * 30) d) as [[]|]; try contradiction; split; intros H';
    try discriminate; try reflexivity; lra.
Qed.

Lemma past_end_false (d : spec_float) (i : Z) :
  is_pos d = true -> (past_end d i = false <-> (IZR (i * 30) <= mag d)%R).
Proof.
  intros Pd. pose proof (past_end_real d i Pd) as H.
  destruct (past_end d i); split; intros H'; try reflexivity; try discriminate.
  - destruct H as [H _]. specialize (H eq_refl). lra.
  - destruct (Rle_or_lt (IZR (i * 30)) (mag d)) as [G | G]; [assumption|].
    apply H in G. discriminate.
Qed.

(** The index of the last tick: the integer part of a thirtieth of the
    duration. *)
Lemma last_tick (d : spec_float) :
  is_pos d = true ->
  exists K, 0 <= K /\ past_end d K = false /\ past_end d (K + 1) = true.
Proof.
  intros Pd. pose proof (is_pos_mag d Pd) as Hm.
  destruct (archimed (mag d / 30)) as [H1 H2].
  set (u := up (mag d / 30)) in *.
  exists (u - 1). repeat split.
  - assert (H : (0 < IZR u)%R) by (assert (0 < mag d / 30)%R by lra; lra).
    apply lt_IZR in H. lia.
  - apply past_end_false; [assumption|]. rewrite mult_IZR, minus_IZR. lra.
  - apply past_end_real; [assumption|].
    replace (u - 1 + 1) with u by lia. rewrite mult_IZR. lra.
Qed.

Lemma is_pos_nonneg (x : spec_float) : is_pos x = true -> is_nonneg x = true.
Proof. destruct x; try discriminate; intros H; exact H. Qed.

(** The bound of the loop, [int(duration_seconds / tick_interval) + 2],
    reaches past every multiple of the interval within the duration. *)
Lemma tick_count (d : spec_float) :
  valid d -> is_pos d = true -> lt_Z d (2 ^ 53) = true ->
  exists n,
    (do q <- Np.truediv d (of_Z 30); Np.int_of_float q) = Ok n /\ 0 <= n /\
    forall K, past_end d K = false -> K <= n + 1.
Proof.
  intros Vd Pd Hd.
  destruct (is_pos_finite d Pd) as (Fd & Sd & _).
  apply (lt_Z_real d _ (is_pos_nonneg d Pd)) in Hd.
  destruct (of_Z_pos 30) as (Vb & Pb & Mb); [split; [lia | reflexivity]|].
  destruct (is_pos_inv _ Pb) as (mb & eb & Eb).
  rewrite truediv_pos by assumption. unfold Py.bind.
  pose proof (div_real d false mb eb Vd) as Hq. rewrite <- Eb in Hq.
  specialize (Hq Vb Fd). rewrite Sd, Mb in Hq. simpl xorb in Hq.
  pose proof (is_pos_mag d Pd) as Hm.
  assert (H53 : (IZR (2 ^ 53) = p2 53)%R) by (apply p2_IZR; lia).
  assert (H50 : (mag d / 30 <= p2 50)%R).
  { assert (p2 53 = 8 * p2 50)%R.
    { change 53 with (3 + 50). rewrite p2_add. unfold p2 at 1. simpl. lra. }
    pose proof (p2_pos 50). lra. }
  apply rounds_finite in Hq.
  2:{ apply Rle_trans with (p2 50); [lra | apply p2_le; lia]. }
  destruct Hq as (Fq & Vq & Sq & Hqb).
  destruct (int_of_float_real _ Fq) as (k & Hk & Hk0 & Hkb).
  rewrite Sq in Hk. change (cond_Zopp false k) with k in Hk.
  exists k. split; [exact Hk|]. split; [assumption|].
  intros K HK. apply past_end_false in HK; [|assumption].
  rewrite mult_IZR in HK.
  apply Rabs_le_between in Hqb.
  assert (He : (mag d / 30 * p2 (-52) <= 1 / 4)%R).
  { assert (E50 : (p2 50 * p2 (-52) = 1 / 4)%R).
    { rewrite <- p2_add. apply p2_m2. }
    pose proof (p2_pos (-52)). nra. }
  assert (Ht : (p2 (-1074) <= 1 / 4)%R)
    by (rewrite <- p2_m2; apply p2_le; lia).
  assert (H : (IZR K < IZR (k + 2))%R) by (rewrite plus_IZR; lra).
  apply lt_IZR in H. lia.
Qed.

Lemma p2_m50 : p2 (-50) = (4 * p2 (-52))%R.
Proof. change (-50) with (2 + -52). rewrite p2_add. unfold p2 at 1. simpl. lra. Qed.

Lemma div_zero_l (s : bool) (d : spec_float) :
  is_pos d = true -> F64.div (S754_zero s) d = S754_zero s.
Proof.
  intros Pd. destruct (is_pos_inv d Pd) as (m & e & ->). destruct s; reflexivity.
Qed.

(** The column of the tick at [time_sec] seconds: on the canvas, and the
    integer part of a binary64 number within a relative distance [2^-50] of
    [time_sec / duration_seconds * (width - 1)]. *)
Lemma tick_x_value (d : spec_float) (w t : Z) :
  valid d -> is_pos d = true -> lt_Z d (2 ^ 53) = true ->
  1 <= w < 2 ^ 31 -> 0 <= t -> (IZR t <= mag d)%R ->
  exists x,
    tick_x d w t = Ok x /\ 0 <= x < w /\
    let P := (IZR t / mag d * IZR (w - 1))%R in
    (IZR x <= P * (1 + p2 (-50)) /\ P * (1 - p2 (-50)) < IZR x + 1)%R.
Proof.
  intros Vd Pd Hd Hw Ht Htd.
  pose proof (is_pos_mag d Pd) as Hm.
  destruct (is_pos_finite d Pd) as (Fd & Sd & _).
  apply (lt_Z_real d _ (is_pos_nonneg d Pd)) in Hd.
  assert (H53 : (IZR (2 ^ 53) = p2 53)%R) by (apply p2_IZR; lia).
  assert (Ht53 : t < 2 ^ 53).
  { apply lt_IZR. lra. }
  assert (H31 : 2 ^ 31 < 2 ^ 53) by (apply pow2_lt; lia).
  unfold tick_x. rewrite float_of_int_exact by lia.
  unfold Py.bind. rewrite truediv_pos by assumption.
  rewrite float_of_int_exact by lia.
  destruct (Z.eq_dec t 0) as [Ht0 | Ht0].
  { subst t. rewrite of_Z_0, div_zero_l by assumption.
    destruct (of_Z_real (w - 1) ltac:(lia)) as (Fw & _).
    rewrite mul_zero_l by (assumption || reflexivity).
    exists 0. split; [reflexivity|]. split; [lia|].
    cbv zeta. unfold Rdiv. rewrite !Rmult_0_l. lra. }
  destruct (of_Z_pos t ltac:(lia)) as (Va & Pa & Ma).
  assert (HtR : (1 <= IZR t)%R) by (apply IZR_le; lia).
  assert (HX : (p2 (-1000) <= mag (of_Z t) / mag d <= p2 60)%R).
  { rewrite Ma. split.
    - apply Rle_trans with (p2 (-53)); [apply p2_le; lia|].
      assert (E : (p2 (-53) * p2 53 = 1)%R).
      { rewrite <- p2_add. apply p2_0. }
      apply Rmult_le_reg_r with (mag d); [assumption|].
      unfold Rdiv. rewrite Rmult_assoc, Rinv_l, Rmult_1_r by lra.
      pose proof (p2_pos (-53)). nra.
    - apply Rle_trans with 1%R.
      + apply Rmult_le_reg_r with (mag d); [assumption|].
        unfold Rdiv. rewrite Rmult_assoc, Rinv_l, Rmult_1_r by lra. lra.
      + change 1%R with (p2 0). apply p2_le. lia. }
  destruct (Z.eq_dec w 1) as [Hw1 | Hw1].
  { subst w. change (1 - 1) with 0. rewrite of_Z_0.
    destruct (div_pos_real (of_Z t) d Va Pa Vd Pd) as (_ & Pq & _).
    { destruct HX. split.
      - apply Rle_trans with (p2 (-1000)); [apply p2_le; lia | assumption].
      - apply Rle_trans with (p2 60); [assumption | apply p2_le; lia]. }
    destruct (is_pos_finite _ Pq) as (Fq & _).
    rewrite mul_zero_r by (assumption || reflexivity).
    exists 0. split; [reflexivity|]. split; [lia|].
    cbv zeta. rewrite !Rmult_0_r, Rmult_0_l. lra. }
  destruct (of_Z_pos (w - 1) ltac:(lia)) as (Vc & Pc & Mc).
  assert (HwR : (1 <= IZR (w - 1) < IZR (2 ^ 31))%R).
  { split; [apply IZR_le | apply IZR_lt]; lia. }
  destruct (scaled_ratio (of_Z t) d (of_Z (w - 1)) Va Pa Vd Pd Vc Pc HX)
    with (y := F64.mul (F64.div (of_Z t) d) (of_Z (w - 1)))
    as (Vy & Py & Hb).
  { rewrite Mc. split; [lra|].
    apply Rle_trans with (p2 31); [|apply p2_le; lia].
    rewrite <- p2_IZR by lia. lra. }
  { left. reflexivity. }
  destruct (is_pos_finite _ Py) as (Fy & Sy & _).
  destruct (int_of_float_real _ Fy) as (k & Hk & Hk0 & Hkb).
  rewrite Sy in Hk. change (cond_Zopp false k) with k in Hk.
  exists k. split; [exact Hk|].
  rewrite Ma, Mc in Hb.
  set (y := mag (F64.mul (F64.div (of_Z t) d) (of_Z (w - 1)))) in *.
  set (P := (IZR (w - 1) * (IZR t / mag d))%R) in *.
  set (e := p2 (-52)) in *.
  assert (He : (0 < e <= 1)%R).
  { subst e. pose proof (p2_pos (-52)). pose proof eps_le_half. lra. }
  assert (Hr : (0 < IZR t / mag d <= 1)%R).
  { split.
    - apply Rdiv_lt_0_compat; lra.
    - apply Rmult_le_reg_r with (mag d); [assumption|].
      unfold Rdiv. rewrite Rmult_assoc, Rinv_l, Rmult_1_r by lra. lra. }
  assert (HP : (0 <= P <= IZR (w - 1))%R) by (subst P; nra).
  destruct Hb as [Hlo Hhi].
  apply twice_rounded_upper in Hhi; [|lra|assumption].
  apply twice_rounded_lower in Hlo; [|lra|assumption].
  assert (HeP : (e * P < 1 / 4)%R).
  { rewrite <- p2_m2. change (-2) with (50 - 52). apply eps_times; [lia|].
    split; [lra|]. apply Rle_lt_trans with (IZR (w - 1)); [lra|].
    apply Rlt_trans with (IZR (2 ^ 31)); [lra|]. apply IZR_lt.
    apply pow2_lt. lia. }
  split.
  - split; [assumption|].
    assert (H : (IZR k < IZR w)%R).
    { replace (IZR w) with (IZR (w - 1) + 1)%R by (rewrite minus_IZR; lra). lra. }
    apply lt_IZR in H. assumption.
  - cbv zeta. replace (IZR t / mag d * IZR (w - 1))%R with P
      by (subst P; ring).
    rewrite p2_m50. fold e. nra.
Qed.

Lemma existsb_rows (x x' ty m y w : Z) :
  0 <= x < w ->
  existsb (fun a => (0 <=? x) && (x <? w) && (x =? x') && (a =? y)) (range ty m)
  = (x =? x') && (ty <=? y) && (y <? m).
Proof.
  intros Hx. apply eq_true_iff_eq. rewrite existsb_range. split.
  - intros (v & Hv & Hf). apply andb_true_iff in Hf as [Hf H4].
    apply andb_true_iff in Hf as [Hf H3]. rewrite H3. simpl.
    apply Z.eqb_eq in H4. subst v. apply andb_true_iff. split; lia.
  - intros H. apply andb_true_iff in H as [H H3].
    apply andb_true_iff in H as [H1 H2]. exists y. split; [lia|].
    rewrite H1, Z.eqb_refl. replace (0 <=? x) with true by lia.
    replace (x <? w) with true by lia. reflexivity.
Qed.

(** One tick: a column of at most five pixels from the timeline row down,
    and a label three pixels to its right. *)
Lemma draw_tick_effect (d : spec_float) (w h ty i x : Z) (im : Pil.image) :
  Pil.im_width im = w -> Pil.im_height im = h -> 0 <= ty ->
  tick_x d w (i * 30) = Ok x -> 0 <= x < w ->
  exists im',
    draw_tick d w h ty i im = (Ok tt, im') /\
    Pil.im_width im' = w /\ Pil.im_height im' = h /\
    Pil.im_fill im' = Pil.im_fill im /\
    Pil.im_text im'
    = (x + 3, ty + 3, tick_label (i * 30), TEXT_COLOR) :: Pil.im_text im /\
    forall x' y,
      Pil.im_pixels im' !! (x', y)
      = if (x =? x') && (ty <=? y) && (y <? Z.min (ty + 5) h)
        then Some TICK_COLOR
        else Pil.im_pixels im !! (x', y).
Proof.
  intros Hw Hh Hty Hx Hxr.
  destruct (for_each_setitem (range ty (Z.min (ty + 5) h))
              (fun _ => (0 <=? x) && (x <? w)) (fun _ => x) (fun y => y)
              TICK_COLOR im) as (im1 & E1 & (F1 & F2 & F3 & F4) & P1).
  { intros a Ha _. apply in_range in Ha. lia. }
  exists (Pil.text im1 (x + 3) (ty + 3) (tick_label (i * 30)) TEXT_COLOR).
  split.
  { unfold draw_tick, Draw.bind, Draw.lift. rewrite Hx, E1. reflexivity. }
  simpl. repeat split; try congruence.
  intros x' y. rewrite P1. rewrite (existsb_rows x x' ty _ y w) by assumption.
  reflexivity.
Qed.

(** A run of ticks. *)
Lemma for_each_draw_tick (d : spec_float) (w h ty : Z) (col : Z -> Z)
    (l : list Z) :
  0 <= ty ->
  (forall i, In i l -> tick_x d w (i * 30) = Ok (col i) /\ 0 <= col i < w) ->
  forall im, Pil.im_width im = w -> Pil.im_height im = h ->
  exists im',
    Draw.for_each l (draw_tick d w h ty) im = (Ok tt, im') /\
    Pil.im_width im' = w /\ Pil.im_height im' = h /\
    Pil.im_fill im' = Pil.im_fill im /\
    Pil.im_text im' = rev (map (fun i => (col i + 3, ty + 3, tick_label (i * 30), TEXT_COLOR)) l)
      ++ Pil.im_text im /\
    forall x y,
      Pil.im_pixels im' !! (x, y)
      = if existsb (fun i => col i =? x) l && (ty <=? y)
           && (y <? Z.min (ty + 5) h)
        then Some TICK_COLOR
        else Pil.im_pixels im !! (x, y).
Proof.
  intros Hty. induction l as [|i l IH]; intros Hl im Hw Hh.
  - exists im. simpl. repeat split; auto.
  - destruct (Hl i (or_introl eq_refl)) as [Hx Hxr].
    destruct (draw_tick_effect d w h ty i (col i) im Hw Hh Hty Hx Hxr)
      as (im1 & E1 & W1 & H1 & F1 & T1 & P1).
    destruct (IH (fun j Hj => Hl j (or_intror Hj)) im1 W1 H1)
      as (im' & E' & W' & H' & F' & T' & P').
    exists im'. split.
    { simpl. unfold Draw.bind. rewrite E1. exact E'. }
    repeat split; try congruence.
    + rewrite T', T1. simpl. rewrite <- app_assoc. reflexivity.
    + intros x y. rewrite P', P1. simpl.
      destruct (col i =? x), (existsb (fun j => col j =? x) l),
        (ty <=? y), (y <? Z.min (ty + 5) h); reflexivity.
Qed.

(** The tick pass stops at the first multiple of the interval beyond the
    duration, having drawn a tick for each one before it. *)
Lemma draw_ticks_for_each (d : spec_float) (w h ty K : Z) (im : Pil.image) :
  valid d -> is_pos d = true -> lt_Z d (2 ^ 53) = true ->
  0 <= K -> past_end d K = false -> past_end d (K + 1) = true ->
  draw_ticks d w h ty im
  = Draw.for_each (range 0 (K + 1)) (draw_tick d w h ty) im.
Proof.
  intros Vd Pd Hd HK0 HK1 HK2.
  destruct (tick_count d Vd Pd Hd) as (n & Hn & Hn0 & HnK).
  specialize (HnK K HK1).
  unfold draw_ticks, Draw.bind, Draw.lift. rewrite Hn.
  rewrite (range_split 0 (K + 1) (n + 2)) by lia.
  apply for_until_prefix.
  - intros a Ha. apply in_range in Ha.
    apply past_end_false; [assumption|].
    apply past_end_false in HK1; [|assumption].
    apply Rle_trans with (IZR (K * 30)); [apply IZR_le; lia | assumption].
  - destruct (Z_lt_le_dec (K + 1) (n + 2)) as [Hlt | Hle].
    + rewrite range_cons by assumption. assumption.
    + rewrite range_empty by assumption. exact I.
Qed.

(** C4: for a positive duration below 2^53 seconds the tick pass draws one
    tick for each multiple [30 * i] of the interval with [30 * i <= duration]
    and none for any other time: the labels added to the canvas are those of
    [i = 0 .. K], where [30 * K <= duration < 30 * (K + 1)], and the pixels
    changed are the tick columns, at most five rows from the timeline row
    down.  The column of a tick is [int(time / duration * (width - 1))]: it
    lies on the canvas and is the integer part (not the nearest integer) of a
    binary64 number within a relative distance [2^-50] of the exact
    product. *)
Theorem draw_ticks_multiples (d : spec_float) (w h ty : Z) (im : Pil.image) :
  valid d -> is_pos d = true -> lt_Z d (2 ^ 53) = true ->
  1 <= w < 2 ^ 31 -> 0 <= ty ->
  Pil.im_width im = w -> Pil.im_height im = h ->
  exists (K : Z) (col : Z -> Z) (im' : Pil.image),
    0 <= K /\ (IZR (K * 30) <= mag d < IZR ((K + 1) * 30))%R /\
    draw_ticks d w h ty im = (Ok tt, im') /\
    (forall i, 0 <= i <= K ->
       tick_x d w (i * 30) = Ok (col i) /\ 0 <= col i < w /\
       let P := (IZR (i * 30) / mag d * IZR (w - 1))%R in
       (IZR (col i) <= P * (1 + p2 (-50)) /\
        P * (1 - p2 (-50)) < IZR (col i) + 1)%R) /\
    Pil.im_width im' = w /\ Pil.im_height im' = h /\
    Pil.im_fill im' = Pil.im_fill im /\
    Pil.im_text im'
    = rev (map (fun i => (col i + 3, ty + 3, tick_label (i * 30), TEXT_COLOR))
             (range 0 (K + 1)))
      ++ Pil.im_text im /\
    forall x y,
      Pil.im_pixels im' !! (x, y)
      = if existsb (fun i => col i =? x) (range 0 (K + 1)) && (ty <=? y)
           && (y <? Z.min (ty + 5) h)
        then Some TICK_COLOR
        else Pil.im_pixels im !! (x, y).
Proof.
  intros Vd Pd Hd Hw Hty Hiw Hih.
  destruct (last_tick d Pd) as (K & HK0 & HK1 & HK2).
  set (col := fun i => match tick_x d w (i * 30) with
                       | Ok x => x
                       | Raise _ => 0
                       end).
  assert (Hcol : forall i, 0 <= i <= K ->
            tick_x d w (i * 30) = Ok (col i) /\ 0 <= col i < w /\
            let P := (IZR (i * 30) / mag d * IZR (w - 1))%R in
            (IZR (col i) <= P * (1 + p2 (-50)) /\
             P * (1 - p2 (-50)) < IZR (col i) + 1)%R).
  { intros i Hi.
    destruct (tick_x_value d w (i * 30) Vd Pd Hd Hw ltac:(lia)) as (x & Hx & Hxr & Hxb).
    - apply past_end_false in HK1; [|assumption].
      apply Rle_trans with (IZR (K * 30)); [apply IZR_le; lia | assumption].
    - unfold col. rewrite Hx. auto. }
  destruct (for_each_draw_tick d w h ty col (range 0 (K + 1)) Hty) with (im := im)
    as (im' & E & W' & H' & F' & T' & P'); try assumption.
  { intros i Hi. apply in_range in Hi.
    destruct (Hcol i ltac:(lia)) as (H1 & H2 & _). auto. }
  exists K, col, im'. split; [assumption|]. split.
  { split.
    - apply past_end_false; assumption.
    - apply past_end_real; assumption. }
  split.
  { rewrite (draw_ticks_for_each d w h ty K) by assumption. exact E. }
  repeat split; try assumption; apply Hcol; assumption.
Qed.

Lemma draw_ticks_multiples_witness :
  exists (K : Z) (col : Z -> Z) (im' : Pil.image),
    (IZR (K * 30) <= mag (of_Z 65) < IZR ((K + 1) * 30))%R /\
    draw_ticks (of_Z 65) 9 40 20 (Pil.Image 9 40 BG_COLOR ∅ []) = (Ok tt, im') /\
    Pil.im_text im'
    = rev (map (fun i => (col i + 3, 20 + 3, tick_label (i * 30), TEXT_COLOR))
             (range 0 (K + 1))).
Proof.
  destruct (draw_ticks_multiples (of_Z 65) 9 40 20 (Pil.Image 9 40 BG_COLOR ∅ []))
    as (K & col & im' & _ & HK & E & _ & _ & _ & _ & T & _).
  - reflexivity.
  - reflexivity.
  - reflexivity.
  - split; [lia | reflexivity].
  - lia.
  - reflexivity.
  - reflexivity.
  - exists K, col, im'. split; [exact HK|]. split; [exact E|].
    rewrite T. simpl. rewrite app_nil_r. reflexivity.
Defined.

(** For a track of 65 seconds on the default width the tick of 0:30 is at
    column 1845; the nearest column to [30 / 65 * 3999 = 1845.69...] is 1846. *)
Lemma tick_x_truncates :
  tick_x (of_Z 65) 4000 30 = Ok 1845 /\ Spec.tick_x 30 65 4000 = 1846.
Proof. split; vm_compute; reflexivity. Qed.

(** ** Degenerate requests *)

(** Writing pixels changes neither the size of the canvas, nor its fill
    colour, nor its text, whether the write succeeds or raises. *)
Lemma setitem_frame (x y : Z) (c : color) (im : Pil.image) :
  same_frame im (snd (Draw.setitem x y c im)).
Proof.
  unfold Draw.setitem, Pil.setitem.
  destruct (_ && _); simpl; [apply same_frame_put | apply same_frame_refl].
Qed.

Lemma for_each_frame {A : Type} (l : list A) (body : A -> Draw.t unit) :
  (forall a im, same_frame im (snd (body a im))) ->
  forall im, same_frame im (snd (Draw.for_each l body im)).
Proof.
  intros Hb. induction l as [|a l IH]; intros im; simpl.
  - apply same_frame_refl.
  - unfold Draw.bind. pose proof (Hb a im) as H.
    destruct (body a im) as [[[]|e] im1]; simpl in H.
    + eapply same_frame_trans; [exact H | apply IH].
    + exact H.
Qed.

Lemma draw_quiet_frame (x center_y height : Z) (im : Pil.image) :
  same_frame im (snd (draw_quiet x center_y height im)).
Proof.
  unfold draw_quiet. apply for_each_frame. intros dy im0.
  destruct (_ && _); [apply setitem_frame | apply same_frame_refl].
Qed.

Lemma draw_bar_frame (x center_y bh wh : Z) (c : color) (im : Pil.image) :
  same_frame im (snd (draw_bar x center_y bh wh c im)).
Proof.
  unfold draw_bar. apply for_each_frame. intros dy im0.
  destruct (_ && _); [apply setitem_frame | apply same_frame_refl].
Qed.

Lemma draw_column_frame (original_amps : list spec_float)
    (resized_bands : list (string * list spec_float)) (x_indices : list Z)
    (height x : Z) (im : Pil.image) :
  same_frame im
    (snd (draw_column original_amps resized_bands x_indices height x im)).
Proof.
  unfold draw_column, Draw.bind, Draw.lift.
  destruct (Np.getitem x_indices x) as [idx|e]; [|apply same_frame_refl].
  destruct (Np.getitem original_amps idx) as [amp|e]; [|apply same_frame_refl].
  destruct (bar_height amp _) as [bh|e]; [|apply same_frame_refl].
  destruct (lt_Z amp QUIET_THRESHOLD); [apply draw_quiet_frame|].
  destruct (mapM _ resized_bands) as [bv|e]; [|apply same_frame_refl].
  destruct (band_color bv) as [c|e]; [|apply same_frame_refl].
  apply draw_bar_frame.
Qed.

(** A sequence whose second part always raises, raises. *)
Lemma bind_never_ok {A B : Type} (m : Draw.t A) (f : A -> Draw.t B)
    (Q : Pil.image -> Prop) (im : Pil.image) :
  Q (snd (m im)) ->
  (forall a im1, Q im1 -> exists e im2, f a im1 = (Raise e, im2) /\ Q im2) ->
  exists e im2, Draw.bind m f im = (Raise e, im2) /\ Q im2.
Proof.
  intros Hm Hf. unfold Draw.bind.
  destruct (m im) as [[a|e] im1]; simpl in Hm; eauto.
Qed.

(** On a duration of zero the tick pass divides by it at the first tick. *)
Lemma draw_ticks_zero (s : bool) (w h ty : Z) (im : Pil.image) :
  draw_ticks (S754_zero s) w h ty im = (Raise ZeroDivisionError, im).
Proof.
  unfold draw_ticks, Draw.bind, Draw.lift.
  assert (P30 : is_pos (of_Z 30) = true) by reflexivity.
  rewrite truediv_pos by assumption. unfold Py.bind.
  rewrite div_zero_l by assumption.
  change (Np.int_of_float (S754_zero s)) with (@Ok Z 0).
  change (range 0 (0 + 2)) with [0; 1].
  reflexivity.
Qed.

Lemma draw_waveform_zero (original_amps : list spec_float)
    (resized_bands : list (string * list spec_float)) (s : bool)
    (track_info : string) (width height : Z) (im : Pil.image) :
  exists e im',
    draw_waveform original_amps resized_bands (S754_zero s) track_info
      width height im = (Raise e, im') /\
    same_frame (Pil.text im 10 5 track_info TITLE_COLOR) im'.
Proof.
  unfold draw_waveform.
  apply bind_never_ok; [apply same_frame_refl|]. intros _ im1 Q1.
  apply bind_never_ok.
  { eapply same_frame_trans; [exact Q1|]. apply for_each_frame.
    intros a im0. apply setitem_frame. }
  intros _ im2 Q2.
  apply bind_never_ok; [exact Q2|]. intros x_indices im3 Q3.
  apply bind_never_ok.
  { eapply same_frame_trans; [exact Q3|]. apply for_each_frame.
    intros a im0. apply draw_column_frame. }
  intros _ im4 Q4.
  apply bind_never_ok.
  { eapply same_frame_trans; [exact Q4|]. apply for_each_frame.
    intros a im0. apply setitem_frame. }
  intros _ im5 Q5.
  rewrite draw_ticks_zero. eauto.
Qed.

(** On a negative duration the tick pass does nothing. *)
Lemma draw_ticks_negative (m : positive) (e w h ty : Z) (im : Pil.image) :
  valid (S754_finite true m e) ->
  draw_ticks (S754_finite true m e) w h ty im = (Ok tt, im).
Proof.
  intros Vd. set (d := S754_finite true m e) in *.
  destruct (of_Z_pos 30) as (Vb & Pb & Mb); [split; [lia | reflexivity]|].
  destruct (is_pos_inv _ Pb) as (mb & eb & Eb).
  unfold draw_ticks, Draw.bind, Draw.lift.
  rewrite truediv_pos by assumption. unfold Py.bind.
  pose proof (div_real d false mb eb Vd) as Hq. rewrite <- Eb in Hq.
  specialize (Hq Vb eq_refl). rewrite Mb in Hq.
  change (xorb (sign d) false) with true in Hq.
  pose proof (valid_mag_lt d Vd) as Hm.
  pose proof (mag_nonneg d) as Hm0.
  apply rounds_finite in Hq.
  2:{ assert (p2 1024 = 2 * p2 1023)%R.
      { change 1024 with (1 + 1023). rewrite p2_add. unfold p2 at 1. simpl. lra. }
      lra. }
  destruct Hq as (Fq & _ & Sq & _).
  destruct (int_of_float_real _ Fq) as (k & Hk & Hk0 & _).
  rewrite Sq in Hk. rewrite Hk. simpl cond_Zopp.
  assert (P0 : past_end d 0 = true).
  { pose proof (compare_Z_real (0 * 30) d eq_refl) as H.
    assert (Hpos : (0 < mag d)%R).
    { subst d. simpl mag. apply Rmult_lt_0_compat; [|apply p2_pos].
      apply IZR_lt. lia. }
    unfold past_end. unfold to_R in H. change (sign d) with true in H.
    change (IZR (0 * 30)) with 0%R in H.
    destruct (compare_Z (0 * 30) d) as [[]|]; try contradiction;
      try reflexivity; lra. }
  destruct (Z_lt_le_dec 0 (- k + 2)) as [Hlt | Hle].
  - rewrite range_cons by assumption. simpl. rewrite P0. reflexivity.
  - rewrite range_empty by assumption. reflexivity.
Qed.

(** Resampling to length zero succeeds on every array. *)
Lemma resize_array_to_empty {A : Type} (arr : list A) :
  resize_array arr 0 = Ok [].
Proof.
  unfold resize_array. destruct arr as [|a arr]; [reflexivity|].
  destruct (Z.eqb_spec (Z.of_nat (length (a :: arr))) 0) as [H | _].
  - simpl length in H. lia.
  - reflexivity.
Qed.

Lemma getitem_head {A : Type} (a : A) (l : list A) : Np.getitem (a :: l) 0 = Ok a.
Proof. apply (getitem_ok (a :: l) 0 a). simpl length. lia. Qed.

Lemma center_y_on_canvas (h : Z) :
  6 <= h -> 0 <= TITLE_HEIGHT + (h - TIMELINE_HEIGHT - TITLE_HEIGHT) / 2 < h.
Proof.
  intros Hh. unfold TITLE_HEIGHT, TIMELINE_HEIGHT.
  pose proof (Z.div_mod (h - 20 - 25) 2 ltac:(lia)).
  pose proof (Z.mod_pos_bound (h - 20 - 25) 2 ltac:(lia)). lia.
Qed.

(** With no magnitude at all, the first column of the bar pass indexes an
    empty array, after the title and the centre line have been drawn. *)
Lemma render_waveform_empty (band_amps : list (string * list spec_float))
    (d : spec_float) (track_info : string) (w h : Z) :
  1 <= w < 2 ^ 31 -> 6 <= h < 2 ^ 31 ->
  exists im,
    render_waveform [] band_amps d track_info w h
    = Failed IndexError (Some im) /\
    Pil.im_text im = [(10, 5, track_info, TITLE_COLOR)] /\
    forall x, 0 <= x < w ->
      Pil.im_pixels im
        !! (x, TITLE_HEIGHT + (h - TIMELINE_HEIGHT - TITLE_HEIGHT) / 2)
      = Some CENTER_LINE_COLOR.
Proof.
  intros Hw Hh. pose proof (center_y_on_canvas h ltac:(lia)) as Hcy.
  unfold render_waveform. simpl length. change (Z.of_nat 0) with 0.
  rewrite (mapM_ok _ (fun band => (fst band, []))).
  2:{ intros b _. rewrite resize_array_to_empty. reflexivity. }
  unfold Pil.new.
  destruct (Z.ltb_spec w 0); [lia|]. destruct (Z.ltb_spec h 0); [lia|].
  destruct (Z.leb_spec (2 ^ 31) w); [lia|].
  destruct (Z.leb_spec (2 ^ 31) h); [lia|]. simpl orb. cbv iota.
  unfold draw_waveform. simpl length. change (Z.of_nat 0) with 0.
  set (cy := TITLE_HEIGHT + (h - TIMELINE_HEIGHT - TITLE_HEIGHT) / 2) in *.
  set (im1 := Pil.Image w h BG_COLOR ∅ [(10, 5, track_info, TITLE_COLOR)]).
  destruct (for_each_setitem (range 0 w) (fun _ => true) (fun x => x)
              (fun _ => cy) CENTER_LINE_COLOR im1)
    as (im2 & E2 & (_ & _ & _ & T2) & P2).
  { intros a Ha _. apply in_range in Ha. simpl. lia. }
  cbv beta iota in E2.
  exists im2.
  unfold Draw.bind at 1. unfold Draw.text at 1. unfold Pil.text. simpl Pil.im_width.
  simpl Pil.im_height. simpl Pil.im_fill. simpl Pil.im_pixels. simpl Pil.im_text.
  fold im1. unfold Draw.bind at 1. rewrite E2.
  unfold Draw.bind at 1. unfold Draw.lift at 1. unfold Np.linspace_intp.
  destruct (Z.ltb_spec w 0); [lia|].
  unfold Draw.bind at 1.
  rewrite (range_cons 0 w) by lia. simpl map. simpl Draw.for_each.
  unfold Draw.bind at 1. unfold draw_column at 1.
  unfold Draw.bind at 1. unfold Draw.lift at 1. rewrite getitem_head.
  unfold Draw.bind at 1. unfold Draw.lift at 1. rewrite getitem_empty.
  split; [reflexivity|]. split; [exact T2|].
  intros x Hx. rewrite P2.
  replace (existsb _ (range 0 w)) with true; [reflexivity|].
  symmetry. apply existsb_range. exists x. split; [lia|].
  rewrite !Z.eqb_refl. reflexivity.
Qed.

(** On a canvas of height zero the first pixel of the centre line is out of
    range, after the title has been drawn. *)
Lemma draw_waveform_zero_height (original_amps : list spec_float)
    (resized_bands : list (string * list spec_float)) (d : spec_float)
    (track_info : string) (w : Z) :
  1 <= w ->
  draw_waveform original_amps resized_bands d track_info w 0
    (Pil.Image w 0 BG_COLOR ∅ [])
  = (Raise IndexError,
     Pil.Image w 0 BG_COLOR ∅ [(10, 5, track_info, TITLE_COLOR)]).
Proof.
  intros Hw. unfold draw_waveform.
  unfold Draw.bind at 1. unfold Draw.text at 1. unfold Pil.text.
  simpl Pil.im_width. simpl Pil.im_height. simpl Pil.im_fill.
  simpl Pil.im_pixels. simpl Pil.im_text.
  unfold Draw.bind at 1. rewrite (range_cons 0 w) by lia.
  simpl Draw.for_each. unfold Draw.bind at 1.
  unfold Draw.setitem at 1, Pil.setitem. simpl Pil.im_height. simpl Pil.im_width.
  change (TITLE_HEIGHT + (0 - TIMELINE_HEIGHT - TITLE_HEIGHT) / 2) with 2.
  change (2 <? 0) with false. cbv iota.
  change (2 <? 0) with false. rewrite andb_false_r.
  reflexivity.
Qed.

(** C5: [render_waveform] validates none of its arguments, and what a
    degenerate request does depends on where the value is first used.
    A duration of zero ([+0.0] or [-0.0]) makes the tick pass raise
    [ZeroDivisionError] at its first tick: the call never saves an image, and
    the title is on the canvas when the exception is raised.  On a negative
    finite duration the tick pass draws nothing and raises nothing.  With an
    empty magnitude sequence the call raises [IndexError] at the first column
    of the bar pass, after the title and the centre line have been drawn.  On
    a canvas of height zero it raises [IndexError] at the first pixel of the
    centre line, after the title has been drawn. *)
Theorem render_waveform_unvalidated (original_amps : list spec_float)
    (band_amps resized_bands : list (string * list spec_float))
    (s : bool) (m : positive) (e : Z) (d : spec_float) (track_info : string)
    (w h ty : Z) (im : Pil.image) :
  (draw_ticks (S754_zero s) w h ty im = (Raise ZeroDivisionError, im) /\
   (exists ex im',
      draw_waveform original_amps resized_bands (S754_zero s) track_info w h im
      = (Raise ex, im') /\
      Pil.im_text im' = (10, 5, track_info, TITLE_COLOR) :: Pil.im_text im) /\
   (forall saved,
      render_waveform original_amps band_amps (S754_zero s) track_info w h
      <> Saved saved)) /\
  (valid (S754_finite true m e) ->
   draw_ticks (S754_finite true m e) w h ty im = (Ok tt, im)) /\
  (1 <= w < 2 ^ 31 -> 6 <= h < 2 ^ 31 ->
   exists canvas,
     render_waveform [] band_amps d track_info w h
     = Failed IndexError (Some canvas) /\
     Pil.im_text canvas = [(10, 5, track_info, TITLE_COLOR)] /\
     forall x, 0 <= x < w ->
       Pil.im_pixels canvas
         !! (x, TITLE_HEIGHT + (h - TIMELINE_HEIGHT - TITLE_HEIGHT) / 2)
       = Some CENTER_LINE_COLOR) /\
  (1 <= w ->
   draw_waveform original_amps resized_bands d track_info w 0
     (Pil.Image w 0 BG_COLOR ∅ [])
   = (Raise IndexError,
      Pil.Image w 0 BG_COLOR ∅ [(10, 5, track_info, TITLE_COLOR)])).
Proof.
  split; [|split; [|split]].
  - split; [apply draw_ticks_zero|]. split.
    + destruct (draw_waveform_zero original_amps resized_bands s track_info
                  w h im) as (ex & im' & E & (_ & _ & _ & T)).
      exists ex, im'. split; [exact E | exact T].
    + intros saved. unfold render_waveform.
      destruct (mapM _ band_amps) as [rb|ex]; [|discriminate].
      destruct (Pil.new w h BG_COLOR) as [img|ex]; [|discriminate].
      destruct (draw_waveform_zero original_amps rb s track_info w h img)
        as (ex & im' & E & _).
      rewrite E. discriminate.
  - apply draw_ticks_negative.
  - apply render_waveform_empty.
  - apply draw_waveform_zero_height.
Qed.

Lemma render_waveform_unvalidated_witness :
  draw_ticks (of_Z (-10)) 4 50 30 (Pil.Image 4 50 BG_COLOR ∅ [])
  = (Ok tt, Pil.Image 4 50 BG_COLOR ∅ []) /\
  (exists canvas,
     render_waveform [] [("sub"%string, [of_Z 3])] (of_Z 65) "t" 4 50
     = Failed IndexError (Some canvas) /\
     Pil.im_pixels canvas !! (3, 27) = Some CENTER_LINE_COLOR) /\
  draw_waveform [of_Z 9] [] (of_Z 65) "t" 4 0 (Pil.Image 4 0 BG_COLOR ∅ [])
  = (Raise IndexError, Pil.Image 4 0 BG_COLOR ∅ [(10, 5, "t"%string, TITLE_COLOR)]).
Proof.
  split; [|split].
  - apply (proj1 (proj2 (render_waveform_unvalidated [] [] [] false 5629499534213120 (-49)
                           (of_Z 65) "t" 4 50 30 (Pil.Image 4 50 BG_COLOR ∅ [])))).
    reflexivity.
  - destruct (proj1 (proj2 (proj2 (render_waveform_unvalidated [] [("sub"%string, [of_Z 3])] []
                           false 5629499534213120 (-49) (of_Z 65) "t" 4 50 30
                           (Pil.Image 4 50 BG_COLOR ∅ [])))))
      as (canvas & E & _ & P).
    + split; [lia | reflexivity].
    + split; [lia | reflexivity].
    + exists canvas. split; [exact E|]. apply (P 3). lia.
  - apply (proj2 (proj2 (proj2 (render_waveform_unvalidated [of_Z 9] [] []
                           false 5629499534213120 (-49) (of_Z 65) "t" 4 0 30
                           (Pil.Image 4 0 BG_COLOR ∅ []))))).
    lia.
Defined.

(** A request with a negative duration is not rejected: the image is saved,
    without a single tick label.  A request with a duration of zero fails
    only in the tick pass, when the bars and the timeline are on the
    canvas. *)
Lemma render_waveform_negative_duration_saved :
  (exists img,
     render_waveform [of_Z 5; of_Z 120] [("mid"%string, [of_Z 60; of_Z 90])]
       (of_Z (-10)) "t" 2 50 = Saved img /\
     Pil.im_text img = [(10, 5, "t"%string, TITLE_COLOR)] /\
     Pil.im_pixels img !! (0, 30) = Some TIMELINE_COLOR) /\
  (exists canvas,
     render_waveform [of_Z 5; of_Z 120] [("mid"%string, [of_Z 60; of_Z 90])]
       (of_Z 0) "t" 2 50 = Failed ZeroDivisionError (Some canvas) /\
     Pil.im_pixels canvas !! (0, 30) = Some TIMELINE_COLOR).
Proof.
  split.
  - vm_compute. eexists. split; [reflexivity|]. split; reflexivity.
  - vm_compute. eexists. split; reflexivity.
Qed.

(** ** Invariants of the canvas *)

Lemma bind_inv {A B : Type} (I : Pil.image -> Prop) (m : Draw.t A)
    (f : A -> Draw.t B) (im : Pil.image) :
  I (snd (m im)) -> (forall a im1, I im1 -> I (snd (f a im1))) ->
  I (snd (Draw.bind m f im)).
Proof.
  intros Hm Hf. unfold Draw.bind.
  destruct (m im) as [[a|e] im1]; simpl in *; auto.
Qed.

Lemma for_each_inv {A : Type} (I : Pil.image -> Prop) (l : list A)
    (body : A -> Draw.t unit) :
  (forall a im, In a l -> I im -> I (snd (body a im))) ->
  forall im, I im -> I (snd (Draw.for_each l body im)).
Proof.
  induction l as [|a l IH]; intros Hb im Him; simpl; [assumption|].
  apply bind_inv.
  - apply Hb; [left; reflexivity | assumption].
  - intros _ im1 H1. apply IH; [|assumption].
    intros b im2 Hb2. apply Hb. right. assumption.
Qed.

Lemma for_until_inv {A : Type} (I : Pil.image -> Prop) (l : list A)
    (stop : A -> bool) (body : A -> Draw.t unit) :
  (forall a im, In a l -> stop a = false -> I im -> I (snd (body a im))) ->
  forall im, I im -> I (snd (Draw.for_until l stop body im)).
Proof.
  induction l as [|a l IH]; intros Hb im Him; simpl; [assumption|].
  destruct (stop a) eqn:Sa; [assumption|].
  apply bind_inv.
  - apply Hb; [left; reflexivity | assumption | assumption].
  - intros _ im1 H1. apply IH; [|assumption].
    intros b im2 Hb2. apply Hb. right. assumption.
Qed.

(** The size and fill colour of the canvas, and the fact that every pixel
    written lies on it. *)
Lemma setitem_canvas (w h : Z) (fill : color) (x y : Z) (c : color)
    (im : Pil.image) :
  (Pil.im_width im = w /\ Pil.im_height im = h /\ Pil.im_fill im = fill /\
   written (fun x y _ => 0 <= x < w /\ 0 <= y < h) im) ->
  let im' := snd (Draw.setitem x y c im) in
  Pil.im_width im' = w /\ Pil.im_height im' = h /\ Pil.im_fill im' = fill /\
  written (fun x y _ => 0 <= x < w /\ 0 <= y < h) im'.
Proof.
  intros (Hw & Hh & Hf & Hp). cbv zeta. unfold Draw.setitem, Pil.setitem.
  destruct (_ && _) eqn:E; simpl; [|auto].
  split; [assumption|]. split; [assumption|]. split; [assumption|].
  intros x' y' c' Hl. simpl in Hl.
  apply andb_true_iff in E as [E E4]. apply andb_true_iff in E as [E E3].
  apply andb_true_iff in E as [E1 E2].
  destruct (decide ((if x <? 0 then Pil.im_width im + x else x,
                     if y <? 0 then Pil.im_height im + y else y) = (x', y')))
    as [Heq | Hne].
  - inversion Heq; subst. lia.
  - rewrite lookup_insert_ne in Hl by assumption. apply (Hp x' y' c'). exact Hl.
Qed.


Lemma bind_lift_inv {A B : Type} (I : Pil.image -> Prop) (r : result A)
    (f : A -> Draw.t B) (im : Pil.image) :
  (forall a, r = Ok a -> I (snd (f a im))) -> I im ->
  I (snd (Draw.bind (Draw.lift r) f im)).
Proof.
  intros Hf Him. unfold Draw.bind, Draw.lift.
  destruct r as [a|e]; [apply Hf; reflexivity | exact Him].
Qed.

(** The colour of a bar has its channels in 0..255, whatever the band
    values. *)
Lemma band_color_rgb (band_vals : list (string * spec_float)) (c : color) :
  band_color band_vals = Ok c -> rgb c.
Proof.
  unfold band_color. destruct (accumulate_all _ _ _) as [[[r g] b]|e];
    [|discriminate].
  simpl. intros E. inversion E. unfold rgb, Np.clip. lia.
Qed.

(** The places [render_waveform] writes to, and the colours it writes
    there: what holds of the canvas whenever such a pixel is set, or a text
    is drawn, holds of it throughout. *)
Section Writes.

Variable I : Pil.image -> Prop.
Variable W : Z -> Z -> color -> Prop.
Variables width height : Z.

Let waveform_height := height - TIMELINE_HEIGHT - TITLE_HEIGHT.
Let center_y := TITLE_HEIGHT + waveform_height / 2.
Let timeline_y := TITLE_HEIGHT + waveform_height.

Hypothesis setitem_I :
  forall x y c im, W x y c -> I im -> I (snd (Draw.setitem x y c im)).
Hypothesis text_I :
  forall x y s c im, I im -> I (Pil.text im x y s c).

Lemma draw_quiet_writes (x : Z) (im : Pil.image) :
  (forall dy, -1 <= dy <= 1 -> 0 <= center_y + dy < height ->
     W x (center_y + dy) QUIET_COLOR) ->
  I im -> I (snd (draw_quiet x center_y height im)).
Proof.
  intros HW. unfold draw_quiet. apply for_each_inv. intros dy im0 Hdy H0.
  apply in_range in Hdy.
  destruct (_ && _) eqn:E; [|exact H0].
  apply andb_true_iff in E as [E1 E2].
  apply setitem_I; [|exact H0]. apply HW; lia.
Qed.

Lemma draw_bar_writes (x bh : Z) (c : color) (im : Pil.image) :
  (forall y, TITLE_HEIGHT <= y < TITLE_HEIGHT + waveform_height ->
     W x y c) ->
  I im -> I (snd (draw_bar x center_y bh waveform_height c im)).
Proof.
  intros HW. unfold draw_bar. apply for_each_inv. intros y im0 Hy H0.
  destruct (_ && _) eqn:E; [|exact H0].
  apply andb_true_iff in E as [E1 E2].
  apply setitem_I; [|exact H0]. apply HW; lia.
Qed.

Lemma draw_column_writes (original_amps : list spec_float)
    (resized_bands : list (string * list spec_float)) (x_indices : list Z)
    (x : Z) (im : Pil.image) :
  (forall dy, -1 <= dy <= 1 -> 0 <= center_y + dy < height ->
     W x (center_y + dy) QUIET_COLOR) ->
  (forall y c, TITLE_HEIGHT <= y < TITLE_HEIGHT + waveform_height ->
     rgb c -> W x y c) ->
  I im ->
  I (snd (draw_column original_amps resized_bands x_indices height x im)).
Proof.
  intros HQ HB Him. unfold draw_column.
  apply bind_lift_inv; [|exact Him]. intros idx _.
  apply bind_lift_inv; [|exact Him]. intros amp _.
  apply bind_lift_inv; [|exact Him]. intros bh _.
  destruct (lt_Z amp QUIET_THRESHOLD).
  - apply draw_quiet_writes; assumption.
  - apply bind_lift_inv; [|exact Him]. intros bv _.
    apply bind_lift_inv; [|exact Him]. intros c Hc.
    apply draw_bar_writes; [|exact Him].
    intros y Hy. apply HB; [assumption|]. exact (band_color_rgb bv c Hc).
Qed.

Lemma draw_tick_writes (d : spec_float) (i : Z) (im : Pil.image) :
  (forall x y, 0 <= x < width ->
     timeline_y <= y < Z.min (timeline_y + 5) height -> W x y TICK_COLOR) ->
  I im -> I (snd (draw_tick d width height timeline_y i im)).
Proof.
  intros HW Him. unfold draw_tick.
  apply bind_lift_inv; [|exact Him]. intros x _.
  apply bind_inv.
  - apply for_each_inv; [|exact Him]. intros y im0 Hy H0.
    apply in_range in Hy.
    destruct (_ && _) eqn:E; [|exact H0].
    apply andb_true_iff in E as [E1 E2].
    apply setitem_I; [|exact H0]. apply HW; lia.
  - intros _ im2 H2. apply text_I. exact H2.
Qed.

Lemma draw_ticks_writes (d : spec_float) (im : Pil.image) :
  (forall x y, 0 <= x < width ->
     timeline_y <= y < Z.min (timeline_y + 5) height -> W x y TICK_COLOR) ->
  I im -> I (snd (draw_ticks d width height timeline_y im)).
Proof.
  intros HW Him. unfold draw_ticks.
  apply bind_lift_inv; [|exact Him]. intros n _.
  apply for_until_inv; [|exact Him]. intros i im0 _ _ H0.
  apply draw_tick_writes; assumption.
Qed.

Lemma draw_waveform_writes (original_amps : list spec_float)
    (resized_bands : list (string * list spec_float)) (d : spec_float)
    (track_info : string) (im : Pil.image) :
  (forall x, 0 <= x < width -> W x center_y CENTER_LINE_COLOR) ->
  (forall x dy, 0 <= x < width -> -1 <= dy <= 1 ->
     0 <= center_y + dy < height -> W x (center_y + dy) QUIET_COLOR) ->
  (forall x y c, 0 <= x < width ->
     TITLE_HEIGHT <= y < TITLE_HEIGHT + waveform_height -> rgb c ->
     W x y c) ->
  (forall x, 0 <= x < width -> W x timeline_y TIMELINE_COLOR) ->
  (forall x y, 0 <= x < width ->
     timeline_y <= y < Z.min (timeline_y + 5) height -> W x y TICK_COLOR) ->
  I im ->
  I (snd (draw_waveform original_amps resized_bands d track_info
            width height im)).
Proof.
  intros HC HQ HB HT HK Him. unfold draw_waveform.
  apply bind_inv; [apply text_I; exact Him|]. intros _ im1 H1.
  apply bind_inv.
  { apply for_each_inv; [|exact H1]. intros x im0 Hx H0.
    apply in_range in Hx. apply setitem_I; [|exact H0]. apply HC. lia. }
  intros _ im2 H2.
  apply bind_inv; [exact H2|]. intros x_indices im3 H3.
  apply bind_inv.
  { apply for_each_inv; [|exact H3]. intros x im0 Hx H0.
    apply in_range in Hx. apply draw_column_writes; [| |exact H0].
    - intros dy Hdy Hy. apply HQ; [lia | assumption | assumption].
    - intros y c Hy Hc. apply HB; [lia | assumption | assumption]. }
  intros _ im4 H4.
  apply bind_inv.
  { apply for_each_inv; [|exact H4]. intros x im0 Hx H0.
    apply in_range in Hx. apply setitem_I; [|exact H0]. apply HT. lia. }
  intros _ im5 H5.
  apply draw_ticks_writes; assumption.
Qed.

End Writes.

Lemma new_inv (w h : Z) (fill : color) (img : Pil.image) :
  Pil.new w h fill = Ok img ->
  0 <= w < 2 ^ 31 /\ 0 <= h < 2 ^ 31 /\ img = Pil.Image w h fill ∅ [].
Proof.
  unfold Pil.new.
  destruct (Z.ltb_spec w 0); [discriminate|].
  destruct (Z.ltb_spec h 0); [discriminate|].
  destruct (Z.leb_spec (2 ^ 31) w); [discriminate|].
  destruct (Z.leb_spec (2 ^ 31) h); [discriminate|].
  simpl. intros E. inversion E. auto.
Qed.

(** The canvas a call of [render_waveform] leaves when it has created one. *)
Lemma render_waveform_canvas_inv (original_amps : list spec_float)
    (band_amps : list (string * list spec_float)) (d : spec_float)
    (track_info : string) (w h : Z) (im : Pil.image) :
  (render_waveform original_amps band_amps d track_info w h = Saved im \/
   exists e, render_waveform original_amps band_amps d track_info w h
             = Failed e (Some im)) ->
  exists resized_bands r,
    (0 <= w < 2 ^ 31 /\ 0 <= h < 2 ^ 31) /\
    draw_waveform original_amps resized_bands d track_info w h
      (Pil.Image w h BG_COLOR ∅ []) = (r, im).
Proof.
  unfold render_waveform. intros H.
  destruct (mapM _ band_amps) as [rb|e0].
  2:{ destruct H as [H | [e H]]; discriminate. }
  destruct (Pil.new w h BG_COLOR) as [img|e0] eqn:En.
  2:{ destruct H as [H | [e H]]; discriminate. }
  apply new_inv in En as (Hw & Hh & ->).
  destruct (draw_waveform original_amps rb d track_info w h _)
    as [r im'] eqn:Ed.
  exists rb, r. split; [auto|]. rewrite Ed.
  destruct r as [[]|e0]; destruct H as [H | [e H]]; try discriminate;
    inversion H; subst; reflexivity.
Qed.

(** Whatever the request, the canvas keeps the size and the background it
    was created with, no pixel is ever written outside it, and every pixel
    written is an RGB colour with channels in 0..255. *)
Theorem render_waveform_canvas (original_amps : list spec_float)
    (band_amps : list (string * list spec_float)) (d : spec_float)
    (track_info : string) (w h : Z) (im : Pil.image) :
  (render_waveform original_amps band_amps d track_info w h = Saved im \/
   exists e, render_waveform original_amps band_amps d track_info w h
             = Failed e (Some im)) ->
  (0 <= w < 2 ^ 31 /\ 0 <= h < 2 ^ 31) /\
  Pil.im_width im = w /\ Pil.im_height im = h /\
  Pil.im_fill im = BG_COLOR /\
  written (fun x y c => (0 <= x < w /\ 0 <= y < h) /\ rgb c) im.
Proof.
  intros H.
  destruct (render_waveform_canvas_inv _ _ _ _ _ _ _ H) as (rb & r & Hd & E).
  split; [exact Hd|].
  replace im with (snd (draw_waveform original_amps rb d track_info w h
                          (Pil.Image w h BG_COLOR ∅ [])))
    by (rewrite E; reflexivity).
  assert (G : forall im0 : Pil.image,
            (Pil.im_width im0 = w /\ Pil.im_height im0 = h /\
             Pil.im_fill im0 = BG_COLOR /\
             written (fun x y _ => 0 <= x < w /\ 0 <= y < h) im0) /\
            written (fun _ _ c => rgb c) im0 ->
            Pil.im_width im0 = w /\ Pil.im_height im0 = h /\
            Pil.im_fill im0 = BG_COLOR /\
            written (fun x y c => (0 <= x < w /\ 0 <= y < h) /\ rgb c) im0).
  { intros im0 ((Hw & Hh & Hf & Hp) & Hc). repeat (split; [assumption|]).
    intros x y c Hl. split; [exact (Hp x y c Hl) | exact (Hc x y c Hl)]. }
  apply G.
  apply (draw_waveform_writes
           (fun im => (Pil.im_width im = w /\ Pil.im_height im = h /\
                       Pil.im_fill im = BG_COLOR /\
                       written (fun x y _ => 0 <= x < w /\ 0 <= y < h) im) /\
                      written (fun _ _ c => rgb c) im)
           (fun _ _ c => rgb c));
    try (intros; unfold rgb, CENTER_LINE_COLOR, QUIET_COLOR, TIMELINE_COLOR,
           TICK_COLOR; lia).
  - intros x y c im0 Hc [H0 H1]. split; [apply setitem_canvas; exact H0|].
    unfold Draw.setitem, Pil.setitem.
    destruct (_ && _); simpl; [|assumption].
    intros x' y' c' Hl. simpl in Hl.
    match type of Hl with
    | <[?k := _]> _ !! _ = _ =>
        destruct (decide (k = (x', y'))) as [Heq | Hne]
    end.
    + rewrite Heq, lookup_insert_eq in Hl. inversion Hl; subst. assumption.
    + rewrite lookup_insert_ne in Hl by assumption. exact (H1 x' y' c' Hl).
  - intros x y s c im0 H0. exact H0.
  - intros x y c _ _ Hc. exact Hc.
  - simpl. split; [split; [reflexivity|]; split; [reflexivity|];
                   split; [reflexivity|]|];
      intros x y c Hl; simpl in Hl; rewrite lookup_empty in Hl; discriminate.
Qed.

Lemma render_waveform_canvas_witness :
  exists im,
    render_waveform [of_Z 5; of_Z 120] [("mid"%string, [of_Z 60; of_Z 90])]
      (of_Z 65) "t" 2 50 = Saved im /\
    Pil.im_width im = 2 /\ Pil.im_height im = 50.
Proof.
  assert (E : exists im,
            render_waveform [of_Z 5; of_Z 120]
              [("mid"%string, [of_Z 60; of_Z 90])] (of_Z 65) "t" 2 50
            = Saved im).
  { vm_compute. eexists. reflexivity. }
  destruct E as (im & E). exists im. split; [exact E|].
  destruct (render_waveform_canvas _ _ _ _ _ _ im (or_introl E))
    as (_ & Hw & Hh & _).
  split; assumption.
Defined.



(** ** Labels, filters and titles *)

Lemma string_app_assoc (a b c : string) : (a +:+ b) +:+ c = a +:+ (b +:+ c).
Proof.
  induction a as [|ch a IH]; [reflexivity|].
  change (String ch ((a +:+ b) +:+ c) = String ch (a +:+ (b +:+ c))).
  f_equal. exact IH.
Qed.

Lemma string_length_app (a b : string) :
  String.length (a +:+ b) = (String.length a + String.length b)%nat.
Proof.
  induction a as [|ch a IH]; [reflexivity|].
  change (S (String.length (a +:+ b))
          = S (String.length a + String.length b)).
  f_equal. exact IH.
Qed.

(** The seconds of a label, for each second of a minute: two characters
    that read back as the number. *)
Lemma seconds_table :
  forallb (fun s : Z =>
             let ss := (if s <? 10 then "0" else "") +:+ dec s in
             (String.length ss =? 2)%nat &&
             match NilZero.uint_of_string ss with
             | Some u => Z.of_N (N.of_uint u) =? s
             | None => false
             end) (range 0 60) = true.
Proof. vm_compute. reflexivity. Qed.

(** The label of a time is its minutes, a colon, and its seconds on
    exactly two digits. *)
Theorem tick_label_format (time_sec : Z) :
  0 <= time_sec ->
  exists ss u,
    tick_label time_sec = dec (time_sec / 60) +:+ ":" +:+ ss /\
    String.length ss = 2%nat /\
    NilZero.uint_of_string ss = Some u /\
    Z.of_N (N.of_uint u) = time_sec mod 60.
Proof.
  intros Ht. pose proof (Z.mod_pos_bound time_sec 60 ltac:(lia)) as Hs.
  pose proof seconds_table as Tb.
  rewrite List.forallb_forall in Tb.
  specialize (Tb (time_sec mod 60)). cbv zeta in Tb.
  assert (Hin : In (time_sec mod 60) (range 0 60)) by (apply in_range; lia).
  specialize (Tb Hin).
  apply andb_true_iff in Tb as [T1 T2].
  destruct (NilZero.uint_of_string _) as [u|] eqn:Eu; [|discriminate].
  eexists. exists u. split; [|split; [|split]].
  - unfold tick_label. cbv zeta. reflexivity.
  - apply Nat.eqb_eq. exact T1.
  - exact Eu.
  - apply Z.eqb_eq. exact T2.
Qed.

Lemma tick_label_format_witness :
  exists ss u,
    tick_label 65 = dec (65 / 60) +:+ ":" +:+ ss /\
    String.length ss = 2%nat /\
    NilZero.uint_of_string ss = Some u /\
    Z.of_N (N.of_uint u) = 65 mod 60.
Proof. apply (tick_label_format 65). lia. Defined.

(** The ticks are half minutes: the label of tick [i] is [i / 2] minutes
    and either 00 or 30 seconds. *)
Theorem tick_label_half_minutes (i : Z) :
  0 <= i ->
  tick_label (i * 30)
  = dec (i / 2) +:+ (if Z.even i then ":00" else ":30").
Proof.
  intros Hi. unfold tick_label. cbv zeta.
  replace (i * 30 / 60) with (i / 2).
  2:{ replace (i * 30) with (i * 30) by reflexivity.
      change 60 with (2 * 30). rewrite Z.div_mul_cancel_r by lia. reflexivity. }
  destruct (Z.even i) eqn:Ev.
  - apply Z.even_spec in Ev as [k ->].
    replace (2 * k * 30) with (k * 60) by lia. rewrite Z.mod_mul by lia.
    reflexivity.
  - assert (Od : Z.odd i = true) by (rewrite <- Z.negb_even, Ev; reflexivity).
    apply Z.odd_spec in Od as [k ->].
    replace ((2 * k + 1) * 30) with (30 + k * 60) by lia.
    rewrite Z.mod_add by lia. reflexivity.
Qed.

Lemma tick_label_half_minutes_witness :
  tick_label (3 * 30) = "1:30".
Proof. apply (tick_label_half_minutes 3). lia. Defined.

(** *** The filter of a band *)

Lemma string_of_uint_no_comma (d : Decimal.uint) :
  has_char ","%char (NilEmpty.string_of_uint d) = false.
Proof. induction d; simpl; auto. Qed.

Lemma str_no_comma (n : Z) : has_char ","%char (str n) = false.
Proof.
  unfold str, NilZero.string_of_int, NilZero.string_of_uint.
  destruct (Z.to_int n) as [d | d]; destruct d; simpl;
    try reflexivity; apply string_of_uint_no_comma.
Qed.

Lemma str_inj (a b : Z) : str a = str b -> a = b.
Proof.
  unfold str. intros H. apply DecimalZ.to_int_inj.
  assert (G : forall z, NilZero.int_of_string
                          (NilZero.string_of_int (Z.to_int z))
                        = Some (Z.to_int z)).
  { intros z. apply NilZero.isi.
    - intros E. pose proof (DecimalZ.of_to z) as Hz. rewrite E in Hz.
      pose proof (DecimalZ.to_of (Z.to_int z)) as Ht.
      rewrite DecimalZ.of_to in Ht. rewrite E in Ht. discriminate Ht.
    - intros E. pose proof (DecimalZ.to_of (Z.to_int z)) as Ht.
      rewrite DecimalZ.of_to in Ht. rewrite E in Ht. discriminate Ht. }
  pose proof (G a) as Ga. rewrite H, G in Ga. inversion Ga. reflexivity.
Qed.

Lemma has_char_app (c : Ascii.ascii) (a b : string) :
  has_char c (a +:+ b) = has_char c a || has_char c b.
Proof.
  induction a as [|ch a IH]; [reflexivity|].
  change (Ascii.eqb ch c || has_char c (a +:+ b)
          = Ascii.eqb ch c || has_char c a || has_char c b).
  rewrite IH, orb_assoc. reflexivity.
Qed.

Ltac drop_empty H :=
  repeat match type of H with
         | context [String.append EmptyString ?a] =>
             change (String.append EmptyString a) with a in H
         end.

(** Two strings cut at their first comma. *)
Lemma split_comma (s1 s2 r1 r2 : string) :
  has_char ","%char s1 = false -> has_char ","%char s2 = false ->
  s1 +:+ String ","%char r1 = s2 +:+ String ","%char r2 -> s1 = s2 /\ r1 = r2.
Proof.
  revert s2. induction s1 as [|a s1 IH]; intros [|b s2] H1 H2 H.
  - injection H as H. auto.
  - injection H as Hc _. subst b. simpl in H2. discriminate.
  - injection H as Hc _. subst a. simpl in H1. discriminate.
  - injection H as Hc H. subst b.
    simpl in H1, H2. apply orb_false_iff in H1 as [_ H1].
    apply orb_false_iff in H2 as [_ H2].
    destruct (IH s2 H1 H2 H) as [-> ->]. auto.
Qed.

(** The filter of a band tells its kind and the cut-off frequencies that
    kind uses: two bands with the same filter are both low bands with the
    same upper bound, both high bands with the same lower bound, or both
    inner bands with the same bounds. *)
Theorem build_ffmpeg_filter_inj (lo hi lo' hi' : Z) :
  build_ffmpeg_filter lo hi = build_ffmpeg_filter lo' hi' ->
  (lo = 0 <-> lo' = 0) /\
  (lo = 0 -> hi = hi') /\
  (lo <> 0 -> lo = lo' /\ (hi < 20000 <-> hi' < 20000) /\
              (hi < 20000 -> hi = hi')).
Proof.
  unfold build_ffmpeg_filter.
  destruct (Z.eqb_spec lo 0) as [L | L]; destruct (Z.eqb_spec lo' 0) as [L' | L'];
    destruct (Z.leb_spec 20000 hi) as [Hh | Hh];
    destruct (Z.leb_spec 20000 hi') as [Hh' | Hh']; intros H;
    try discriminate H; injection H as H; drop_empty H.
  1-4: apply str_inj in H; subst; repeat split; intros; lia.
  - apply str_inj in H; subst; repeat split; intros; lia.
  - exfalso.
    assert (G : has_char ","%char (str lo)
                = has_char ","%char (str lo' +:+ ",lowpass=f=" +:+ str hi'))
      by (rewrite H; reflexivity).
    rewrite !has_char_app, !str_no_comma in G. simpl in G. discriminate G.
  - exfalso.
    assert (G : has_char ","%char (str lo +:+ ",lowpass=f=" +:+ str hi)
                = has_char ","%char (str lo'))
      by (rewrite H; reflexivity).
    rewrite !has_char_app, !str_no_comma in G. simpl in G. discriminate G.
  - apply split_comma in H as [Hl Hr]; try apply str_no_comma.
    injection Hr as Hr. drop_empty Hr. apply str_inj in Hl, Hr. subst.
    repeat split; intros; try lia; reflexivity.
Qed.

Lemma build_ffmpeg_filter_inj_witness :
  (60 = 0 <-> 60 = 0) /\ (60 = 0 -> 250 = 250) /\
  (60 <> 0 -> 60 = 60 /\ (250 < 20000 <-> 250 < 20000) /\
              (250 < 20000 -> 250 = 250)).
Proof. apply (build_ffmpeg_filter_inj 60 250 60 250). reflexivity. Defined.

(** The filter of an inner band is the filter of the high band from its
    lower bound, a comma, and the filter of the low band up to its upper
    bound. *)
Theorem build_ffmpeg_filter_inner (lo hi top : Z) :
  lo <> 0 -> hi < 20000 -> 20000 <= top ->
  build_ffmpeg_filter lo hi
  = build_ffmpeg_filter lo top +:+ "," +:+ build_ffmpeg_filter 0 hi.
Proof.
  intros Hlo Hhi Htop. unfold build_ffmpeg_filter.
  destruct (Z.eqb_spec lo 0); [contradiction|].
  destruct (Z.leb_spec 20000 hi); [lia|].
  destruct (Z.leb_spec 20000 top); [|lia].
  change (0 =? 0) with true. cbv iota.
  rewrite string_app_assoc. reflexivity.
Qed.

Lemma build_ffmpeg_filter_inner_witness :
  build_ffmpeg_filter 60 250
  = build_ffmpeg_filter 60 20000 +:+ "," +:+ build_ffmpeg_filter 0 250.
Proof. apply (build_ffmpeg_filter_inner 60 250 20000); lia. Defined.

(** *** The title of the track *)

Lemma truthy_not_empty (s : string) : truthy s = true <-> s <> "".
Proof.
  unfold truthy. destruct (String.eqb_spec s ""); simpl; split; intros H;
    try discriminate; try reflexivity; try assumption; contradiction.
Qed.

(** The title drawn is never empty unless the name of the file is: it is
    the name of the file when the tags cannot be read or hold neither an
    artist nor a title, and a non-empty text made of the tags otherwise. *)
Theorem get_track_info_not_empty
    (audio : result (option (gmap string (list string)))) (basename : string) :
  basename <> "" ->
  get_track_info audio basename <> "" /\
  (match audio with
   | Ok (Some tags) =>
       first_or_empty (tags !! "artist") = "" /\
       first_or_empty (tags !! "title") = ""
   | _ => True
   end -> get_track_info audio basename = basename).
Proof.
  intros Hb. unfold get_track_info.
  destruct audio as [[tags|]|e]; [|auto|auto].
  set (artist := first_or_empty (tags !! "artist")).
  set (title := first_or_empty (tags !! "title")).
  split.
  - destruct (truthy artist) eqn:Ta; destruct (truthy title) eqn:Tt; simpl;
      try assumption; try (apply truthy_not_empty; assumption).
    apply truthy_not_empty in Ta. destruct artist; [contradiction|].
    discriminate.
  - intros [-> ->]. reflexivity.
Qed.

Lemma get_track_info_not_empty_witness :
  get_track_info (Ok (Some (<["title" := ["Song"]]> ∅))) "a.flac" <> "".
Proof.
  apply (get_track_info_not_empty (Ok (Some (<["title" := ["Song"]]> ∅))) "a.flac").
  discriminate.
Defined.

(** ** Resampling at the edges *)

(** A negative target length is refused by [np.linspace]; a target length
    of zero gives the empty array; an empty array cannot be resampled to a
    positive length, since every index is out of range. *)
Theorem resize_array_edges {A : Type} (arr : list A) (T : Z) :
  (T < 0 -> resize_array arr T = Raise ValueError) /\
  (T = 0 -> resize_array arr T = Ok []) /\
  (arr = [] -> 1 <= T -> resize_array arr T = Raise IndexError).
Proof.
  split; [|split].
  - intros HT. unfold resize_array.
    destruct (Z.eqb_spec (Z.of_nat (length arr)) T); [lia|].
    unfold Np.linspace_intp. destruct (Z.ltb_spec T 0); [reflexivity | lia].
  - intros ->. apply resize_array_to_empty.
  - intros -> HT. unfold resize_array. simpl length.
    destruct (Z.eqb_spec (Z.of_nat 0) T); [lia|].
    unfold Np.linspace_intp. destruct (Z.ltb_spec T 0); [lia|].
    rewrite (range_cons 0 T) by lia. unfold Py.bind, Np.take. simpl.
    rewrite getitem_empty. reflexivity.
Qed.

Lemma resize_array_edges_witness :
  resize_array [1; 2; 3] (-1) = Raise ValueError /\
  resize_array [1; 2; 3] 0 = Ok [] /\
  resize_array (@nil Z) 4 = Raise IndexError.
Proof.
  split; [|split].
  - apply (proj1 (resize_array_edges [1; 2; 3] (-1))). lia.
  - apply (proj1 (proj2 (resize_array_edges [1; 2; 3] 0))). reflexivity.
  - apply (proj2 (proj2 (resize_array_edges (@nil Z) 4))); [reflexivity | lia].
Defined.

(** ** The quiet threshold *)

(** A magnitude that is an integer is quiet exactly when it is at most 7:
    the comparison with the threshold is strict. *)
Theorem quiet_threshold_strict (k : Z) :
  Z.abs k < 2 ^ 53 -> lt_Z (of_Z k) QUIET_THRESHOLD = (k <? 8).
Proof.
  intros Hk. destruct (of_Z_real k Hk) as (Fk & _ & Sk & Mk & _).
  pose proof (compare_Z_real QUIET_THRESHOLD (of_Z k) Fk) as H.
  unfold to_R in H. rewrite Sk, Mk in H. unfold QUIET_THRESHOLD in *.
  assert (Hv : (if k <? 0 then (- IZR (Z.abs k))%R else IZR (Z.abs k)) = IZR k).
  { destruct (Z.ltb_spec k 0).
    - rewrite <- opp_IZR. f_equal. lia.
    - f_equal. lia. }
  rewrite Hv in H. unfold lt_Z.
  destruct (compare_Z 8 (of_Z k)) as [[]|]; try contradiction;
    destruct (Z.ltb_spec k 8) as [Hlt | Hge]; try reflexivity; exfalso.
  - apply eq_IZR in H. lia.
  - apply lt_IZR in H. lia.
  - apply Rgt_lt in H. apply lt_IZR in H. lia.
Qed.

Lemma quiet_threshold_strict_witness :
  lt_Z (of_Z 7) QUIET_THRESHOLD = true /\ lt_Z (of_Z 8) QUIET_THRESHOLD = false.
Proof.
  split.
  - apply (quiet_threshold_strict 7). reflexivity.
  - apply (quiet_threshold_strict 8). reflexivity.
Defined.

(** ** Durations that are not numbers *)

(** A duration that is NaN or infinite makes the tick pass raise when it
    computes the number of ticks, before it draws any. *)
Theorem draw_ticks_not_finite (s : bool) (w h ty : Z) (im : Pil.image) :
  draw_ticks S754_nan w h ty im = (Raise ValueError, im) /\
  draw_ticks (S754_infinity s) w h ty im = (Raise OverflowError, im).
Proof. split; [|destruct s]; reflexivity. Qed.

(** ** Requests that are rendered *)

(** The indices [np.linspace(0, D, num).astype(np.intp)] lie in [0 .. D]. *)
Lemma linspace_intp_indices (D num : Z) :
  0 <= D < 2 ^ 50 -> 1 <= num <= 2 ^ 53 ->
  Np.linspace_intp D num
  = Ok (map (fun i => Np.astype_int64 (Np.linspace_at D num i)) (range 0 num))
  /\ forall i, 0 <= i < num ->
       0 <= Np.astype_int64 (Np.linspace_at D num i) <= D.
Proof.
  intros HD Hn. split.
  - unfold Np.linspace_intp. destruct (Z.ltb_spec num 0); [lia | reflexivity].
  - intros i Hi. destruct (Z.eq_dec num 1) as [-> | Hn1].
    + assert (i = 0) by lia. subst i.
      destruct (Z.eq_dec D 0) as [-> | HD0]; [vm_compute; split; discriminate|].
      assert (HD1 : 0 < D < 2 ^ 63).
      { assert (2 ^ 50 < 2 ^ 63) by (apply pow2_lt; lia). lia. }
      pose proof (of_Z_is_pos D HD1) as Hp.
      destruct (is_pos_inv _ Hp) as (m & e & Hm).
      assert (E0 : Np.astype_int64 (Np.linspace_at D 1 0) = 0).
      { unfold Np.linspace_at. simpl. rewrite Hm. reflexivity. }
      rewrite E0. lia.
    + pose proof (linspace_at_index D (num - 1) i ltac:(lia) ltac:(lia)
                    ltac:(lia)) as H.
      replace (num - 1 + 1) with num in H by lia. cbv zeta in H.
      destruct H as (H & _). exact H.
Qed.

(** Resampling a non-empty array to a positive length succeeds, and keeps
    what holds of every element. *)
Lemma resize_array_ok {A : Type} (P : A -> Prop) (arr : list A) (T : Z) :
  1 <= Z.of_nat (length arr) <= 2 ^ 50 -> 1 <= T <= 2 ^ 53 ->
  Forall P arr ->
  exists out,
    resize_array arr T = Ok out /\ Z.of_nat (length out) = T /\ Forall P out.
Proof.
  intros HL HT HP. unfold resize_array.
  destruct (Z.eqb_spec (Z.of_nat (length arr)) T) as [Heq | Hne].
  - exists arr. auto.
  - destruct arr as [|a0 arr']; [simpl in HL; lia|].
    set (arr := a0 :: arr') in *.
    destruct (linspace_intp_indices (Z.of_nat (length arr) - 1) T
                ltac:(lia) HT) as [E Hidx].
    rewrite E. unfold Py.bind, Np.take.
    set (f := fun i => Np.astype_int64
                         (Np.linspace_at (Z.of_nat (length arr) - 1) T i)) in *.
    set (g := fun j : Z => nth (Z.to_nat j) arr a0).
    rewrite (mapM_ok (Np.getitem arr) g).
    2:{ intros j Hj. apply in_map_iff in Hj as (i & <- & Hi).
        apply in_range in Hi. apply getitem_ok.
        pose proof (Hidx i Hi) as Hr. fold (f i) in Hr. lia. }
    eexists. split; [reflexivity|].
    split; [rewrite !length_map, length_range; lia|].
    apply List.Forall_forall. intros v Hv.
    apply in_map_iff in Hv as (j & <- & Hj).
    apply in_map_iff in Hj as (i & <- & Hi). apply in_range in Hi.
    apply (proj1 (List.Forall_forall P arr) HP).
    unfold g. apply nth_In. pose proof (Hidx i Hi) as Hr. fold (f i) in Hr. lia.
Qed.

(** The colour of a column whose band values are sound. *)
Lemma band_color_ok (band_vals : list (string * spec_float)) :
  Forall (fun b => is_Some (BAND_COLORS !! fst b) /\
                   valid (snd b) /\ is_nonneg (snd b) = true) band_vals ->
  exists c, band_color band_vals = Ok c.
Proof.
  intros H.
  destruct (band_total_positive band_vals) as [Vt Pt].
  { eapply List.Forall_impl; [|exact H]. intros b (_ & V & N). auto. }
  destruct (accumulate_all_nn (band_total band_vals) band_vals
              (of_Z 0, of_Z 0, of_Z 0) Vt Pt) as ([[fr fg] fb] & E & _).
  { repeat split. }
  { exact H. }
  unfold band_color. rewrite E. simpl. eexists. reflexivity.
Qed.

(** A loop whose body succeeds and keeps the frame of the canvas. *)
Lemma for_each_ok {A : Type} (l : list A) (body : A -> Draw.t unit)
    (im0 : Pil.image) :
  (forall a im, In a l -> same_frame im0 im ->
     exists im', body a im = (Ok tt, im') /\ same_frame im0 im') ->
  forall im, same_frame im0 im ->
    exists im', Draw.for_each l body im = (Ok tt, im') /\ same_frame im0 im'.
Proof.
  induction l as [|a l IH]; intros Hb im Him.
  - exists im. split; [reflexivity | assumption].
  - destruct (Hb a im (or_introl eq_refl) Him) as (im1 & E1 & F1).
    destruct (IH (fun b im2 Hb2 => Hb b im2 (or_intror Hb2)) im1 F1)
      as (im' & E' & F').
    exists im'. split; [|assumption].
    simpl. unfold Draw.bind. rewrite E1. exact E'.
Qed.

Lemma same_frame_size (im im' : Pil.image) :
  same_frame im im' ->
  Pil.im_width im' = Pil.im_width im /\ Pil.im_height im' = Pil.im_height im.
Proof. intros (H1 & H2 & _). auto. Qed.

Lemma draw_quiet_ok (x center_y : Z) (im : Pil.image) :
  0 <= x < Pil.im_width im ->
  exists im',
    draw_quiet x center_y (Pil.im_height im) im = (Ok tt, im') /\
    same_frame im im'.
Proof.
  intros Hx. unfold draw_quiet.
  destruct (for_each_setitem (range (-1) 2)
              (fun dy => (0 <=? center_y + dy)
                         && (center_y + dy <? Pil.im_height im))
              (fun _ => x) (fun dy => center_y + dy) QUIET_COLOR im)
    as (im' & Hrun & Hfr & _).
  { intros dy _ Hc. apply andb_true_iff in Hc as [H1 H2]. lia. }
  exists im'. auto.
Qed.

(** The bar of a column: exactly the rows within [bar_height] of the centre
    that lie in the waveform area are set, in the colour of the column; the
    title strip, the timeline strip, the other columns, and the size, fill
    colour and text of the canvas are unchanged. *)
Theorem draw_bar_effect (x center_y bar_height : Z) (c : color)
    (im : Pil.image) :
  0 <= x < Pil.im_width im -> TIMELINE_HEIGHT + TITLE_HEIGHT <= Pil.im_height im ->
  let waveform_height := Pil.im_height im - TIMELINE_HEIGHT - TITLE_HEIGHT in
  exists im',
    draw_bar x center_y bar_height waveform_height c im = (Ok tt, im') /\
    same_frame im im' /\
    forall x' y',
      Pil.im_pixels im' !! (x', y')
      = if (x' =? x) && (center_y - bar_height <=? y')
           && (y' <=? center_y + bar_height)
           && (TITLE_HEIGHT <=? y') && (y' <? TITLE_HEIGHT + waveform_height)
        then Some c
        else Pil.im_pixels im !! (x', y').
Proof.
  intros Hx Hh wh. unfold draw_bar.
  destruct (for_each_setitem
              (range (center_y - bar_height) (center_y + bar_height + 1))
              (fun y => (TITLE_HEIGHT <=? y) && (y <? TITLE_HEIGHT + wh))
              (fun _ => x) (fun y => y) c im)
    as (im' & Hrun & Hfr & Hpix).
  { intros y _ Hc. apply andb_true_iff in Hc as [H1 H2].
    subst wh. unfold TITLE_HEIGHT, TIMELINE_HEIGHT in *. lia. }
  exists im'. split; [exact Hrun|]. split; [exact Hfr|].
  intros x' y'. rewrite Hpix.
  match goal with
  | |- (if ?b1 then _ else _) = (if ?b2 then _ else _) =>
      replace b1 with b2; [reflexivity|]
  end.
  apply Bool.eq_iff_eq_true. rewrite existsb_range. split.
  - intros H. repeat (apply andb_true_iff in H as [H ?]).
    exists y'. split; [lia|].
    repeat (apply andb_true_iff; split); try assumption; lia.
  - intros (v & Hv & H). repeat (apply andb_true_iff in H as [H ?]).
    assert (v = y') by lia. subst v.
    repeat (apply andb_true_iff; split); try assumption; lia.
Qed.

Lemma draw_bar_effect_witness :
  exists im',
    draw_bar 1 35 40 (65 - TIMELINE_HEIGHT - TITLE_HEIGHT) (70, 180, 230)
      (Pil.Image 4 65 BG_COLOR ∅ []) = (Ok tt, im') /\
    Pil.im_pixels im' !! (1, 24) = None /\
    Pil.im_pixels im' !! (1, 25) = Some (70, 180, 230) /\
    Pil.im_pixels im' !! (1, 44) = Some (70, 180, 230) /\
    Pil.im_pixels im' !! (1, 45) = None.
Proof.
  destruct (draw_bar_effect 1 35 40 (70, 180, 230)
              (Pil.Image 4 65 BG_COLOR ∅ [])) as (im' & E & _ & P).
  - simpl. lia.
  - simpl. unfold TIMELINE_HEIGHT, TITLE_HEIGHT. lia.
  - exists im'. split; [exact E|]. rewrite !P. repeat split; reflexivity.
Defined.

Lemma draw_bar_ok (x center_y bh : Z) (c : color) (im : Pil.image) :
  0 <= x < Pil.im_width im ->
  exists im',
    draw_bar x center_y bh (Pil.im_height im - TIMELINE_HEIGHT - TITLE_HEIGHT)
      c im = (Ok tt, im') /\
    same_frame im im'.
Proof.
  intros Hx. unfold draw_bar.
  destruct (for_each_setitem
              (range (center_y - bh) (center_y + bh + 1))
              (fun y => (TITLE_HEIGHT <=? y)
                        && (y <? TITLE_HEIGHT
                                 + (Pil.im_height im - TIMELINE_HEIGHT
                                    - TITLE_HEIGHT)))
              (fun _ => x) (fun y => y) c im)
    as (im' & Hrun & Hfr & _).
  { intros y _ Hc. apply andb_true_iff in Hc as [H1 H2].
    unfold TITLE_HEIGHT, TIMELINE_HEIGHT in *. lia. }
  exists im'. auto.
Qed.

Lemma mapM_Forall2 {A B : Type} (f : A -> result B) (Q : A -> B -> Prop)
    (l : list A) :
  (forall a, In a l -> exists b, f a = Ok b /\ Q a b) ->
  exists bs, mapM f l = Ok bs /\ Forall2 Q l bs.
Proof.
  induction l as [|a l IH]; intros H.
  - exists []. split; [reflexivity | constructor].
  - destruct (H a (or_introl eq_refl)) as (b & Eb & Qb).
    destruct (IH (fun a' Ha' => H a' (or_intror Ha'))) as (bs & Ebs & Qbs).
    exists (b :: bs). split; [|constructor; assumption].
    simpl. rewrite Eb, Ebs. reflexivity.
Qed.

Lemma nth_map_range (f : Z -> Z) (n a dflt : Z) :
  0 <= a < n -> nth (Z.to_nat a) (map f (range 0 n)) dflt = f a.
Proof.
  intros Ha. apply nth_error_nth.
  rewrite nth_error_map, nth_error_range by lia. simpl. f_equal. f_equal. lia.
Qed.

(** A column of a sound request is drawn without an exception. *)
Lemma draw_column_ok (original_amps : list spec_float)
    (resized_bands : list (string * list spec_float)) (x_indices : list Z)
    (x idx : Z) (im : Pil.image) :
  0 <= x < Pil.im_width im -> 0 <= Pil.im_height im < 2 ^ 31 ->
  Np.getitem x_indices x = Ok idx ->
  0 <= idx < Z.of_nat (length original_amps) ->
  Forall (fun v => valid v /\ is_nonneg v = true /\ (mag v <= 128)%R)
    original_amps ->
  Forall (fun band : string * list spec_float =>
            is_Some (BAND_COLORS !! fst band) /\
            length (snd band) = length original_amps /\
            Forall (fun v => valid v /\ is_nonneg v = true) (snd band))
    resized_bands ->
  exists im',
    draw_column original_amps resized_bands x_indices (Pil.im_height im) x im
    = (Ok tt, im') /\
    same_frame im im'.
Proof.
  intros Hx Hh Hidx Hi Hamps Hbands.
  pose proof (getitem_ok original_amps idx (of_Z 0) Hi) as Ea.
  set (amp := nth (Z.to_nat idx) original_amps (of_Z 0)) in *.
  assert (Hamp : valid amp /\ is_nonneg amp = true /\ (mag amp <= 128)%R).
  { apply (proj1 (List.Forall_forall _ original_amps) Hamps).
    apply nth_In. lia. }
  destruct Hamp as (Va & Na & Ma).
  destruct (bar_height_ok amp
              (Pil.im_height im - TIMELINE_HEIGHT - TITLE_HEIGHT) Va Na Ma)
    as (bh & Ebh).
  { unfold TIMELINE_HEIGHT, TITLE_HEIGHT.
    assert (2 ^ 31 < 2 ^ 32) by (apply pow2_lt; lia). lia. }
  unfold draw_column, Draw.bind, Draw.lift. rewrite Hidx, Ea, Ebh.
  destruct (lt_Z amp QUIET_THRESHOLD); [apply draw_quiet_ok; assumption|].
  set (g := fun band : string * list spec_float =>
              (fst band, nth (Z.to_nat idx) (snd band) (of_Z 0))).
  rewrite (mapM_ok _ g).
  2:{ intros band Hb.
      destruct (proj1 (List.Forall_forall _ resized_bands) Hbands band Hb)
        as (_ & Hl & _).
      rewrite (getitem_ok (snd band) idx (of_Z 0)) by lia. reflexivity. }
  destruct (band_color_ok (map g resized_bands)) as (c & Ec).
  { apply Forall_map. eapply List.Forall_impl; [|exact Hbands].
    intros band (Hn & Hl & Hv). simpl. split; [assumption|].
    apply (proj1 (List.Forall_forall _ (snd band)) Hv).
    apply nth_In. lia. }
  rewrite Ec. apply draw_bar_ok. assumption.
Qed.

(** The tick pass of a positive duration: a tick for each multiple of the
    interval up to the duration. *)
Lemma draw_ticks_run (d : spec_float) (w h ty : Z) (im : Pil.image) :
  valid d -> is_pos d = true -> lt_Z d (2 ^ 53) = true ->
  1 <= w < 2 ^ 31 -> 0 <= ty ->
  Pil.im_width im = w -> Pil.im_height im = h ->
  exists (K : Z) (col : Z -> Z) (im' : Pil.image),
    0 <= K /\ (IZR (K * 30) <= mag d < IZR ((K + 1) * 30))%R /\
    col 0 = 0 /\ (forall i, 0 <= i <= K -> 0 <= col i < w) /\
    draw_ticks d w h ty im = (Ok tt, im') /\
    Pil.im_width im' = w /\ Pil.im_height im' = h /\
    Pil.im_fill im' = Pil.im_fill im /\
    Pil.im_text im'
    = rev (map (fun i => (col i + 3, ty + 3, tick_label (i * 30), TEXT_COLOR))
             (range 0 (K + 1)))
      ++ Pil.im_text im /\
    forall x y,
      Pil.im_pixels im' !! (x, y)
      = if existsb (fun i => col i =? x) (range 0 (K + 1)) && (ty <=? y)
           && (y <? Z.min (ty + 5) h)
        then Some TICK_COLOR
        else Pil.im_pixels im !! (x, y).
Proof.
  intros Vd Pd Hd Hw Hty Hiw Hih.
  destruct (last_tick d Pd) as (K & HK0 & HK1 & HK2).
  set (col := fun i => match tick_x d w (i * 30) with
                       | Ok x => x
                       | Raise _ => 0
                       end).
  assert (Hcol : forall i, 0 <= i <= K ->
            tick_x d w (i * 30) = Ok (col i) /\ 0 <= col i < w /\
            (i = 0 -> col i = 0)).
  { intros i Hi.
    destruct (tick_x_value d w (i * 30) Vd Pd Hd Hw ltac:(lia))
      as (x & Hx & Hxr & Hxb & _).
    - apply past_end_false in HK1; [|assumption].
      apply Rle_trans with (IZR (K * 30)); [apply IZR_le; lia | assumption].
    - unfold col. rewrite Hx. split; [reflexivity|]. split; [assumption|].
      intros ->. change (IZR (0 * 30)) with 0%R in Hxb.
      unfold Rdiv in Hxb. rewrite !Rmult_0_l in Hxb.
      assert (H : (IZR x < IZR 1)%R) by lra. apply lt_IZR in H. lia. }
  destruct (for_each_draw_tick d w h ty col (range 0 (K + 1)) Hty) with (im := im)
    as (im' & E & W' & H' & F' & T' & P'); try assumption.
  { intros i Hi. apply in_range in Hi.
    destruct (Hcol i ltac:(lia)) as (H1 & H2 & _). auto. }
  exists K, col, im'. split; [assumption|].
  split.
  { split; [apply past_end_false | apply past_end_real]; assumption. }
  split; [apply (Hcol 0); lia|].
  split; [intros i Hi; apply (Hcol i Hi)|].
  split.
  { rewrite (draw_ticks_for_each d w h ty K) by assumption. exact E. }
  auto.
Qed.

(** A row drawn across the canvas. *)
Lemma draw_row (w y : Z) (c : color) (im : Pil.image) :
  Pil.im_width im = w -> 0 <= y < Pil.im_height im ->
  exists im',
    Draw.for_each (range 0 w) (fun x => Draw.setitem x y c) im = (Ok tt, im') /\
    same_frame im im' /\
    forall x y',
      Pil.im_pixels im' !! (x, y')
      = if (0 <=? x) && (x <? w) && (y' =? y) then Some c
        else Pil.im_pixels im !! (x, y').
Proof.
  intros Hw Hy.
  destruct (for_each_setitem (range 0 w) (fun _ => true) (fun x => x)
              (fun _ => y) c im) as (im' & E & Hfr & P).
  { intros a Ha _. apply in_range in Ha. lia. }
  cbv beta iota in E. exists im'. split; [exact E|]. split; [exact Hfr|].
  intros x y'. rewrite P.
  match goal with
  | |- (if ?b1 then _ else _) = (if ?b2 then _ else _) =>
      replace b1 with b2; [reflexivity|]
  end.
  apply Bool.eq_iff_eq_true. rewrite existsb_range. split.
  - intros H. repeat (apply andb_true_iff in H as [H ?]).
    exists x. split; [lia|]. simpl.
    apply andb_true_iff. split; lia.
  - intros (v & Hv & H). simpl in H. apply andb_true_iff in H as [H1 H2].
    repeat (apply andb_true_iff; split); lia.
Qed.

(** ** The centre row *)

(** The bar height of a magnitude is not negative. *)
Lemma bar_height_nonneg (amp : spec_float) (waveform_height : Z) :
  valid amp -> is_nonneg amp = true -> (mag amp <= 128)%R ->
  0 <= waveform_height < 2 ^ 32 ->
  exists bh, bar_height amp waveform_height = Ok bh /\ 0 <= bh.
Proof.
  intros Va Na Ha Hw.
  destruct (of_Z_pos 127) as (Vb & Pb & Mb); [split; [lia | reflexivity]|].
  destruct (is_pos_inv _ Pb) as (mb & eb & Eb).
  set (h := waveform_height / 2).
  assert (Hh : 0 <= h <= 2 ^ 32).
  { subst h. pose proof (Z.div_mod waveform_height 2 ltac:(lia)).
    pose proof (Z.mod_pos_bound waveform_height 2 ltac:(lia)). lia. }
  assert (H32 : 2 ^ 32 < 2 ^ 53) by (apply pow2_lt; lia).
  unfold bar_height. rewrite truediv_pos by assumption. unfold Py.bind.
  rewrite float_of_int_exact by (fold h; lia). fold h.
  destruct (of_Z_real h ltac:(lia)) as (Fh & Vh & Sh & Mh & _).
  replace (h <? 0) with false in Sh by lia.
  destruct (is_nonneg_inv amp Na) as [Za | Pa].
  - destruct amp as [s| | |]; try discriminate.
    rewrite div_zero_l by assumption.
    rewrite mul_zero_l by (assumption || reflexivity).
    exists 0. split; [reflexivity | lia].
  - destruct (is_pos_finite _ Pa) as (Fa & Sa & _).
    pose proof (mag_nonneg amp) as Ha0.
    pose proof (div_real amp false mb eb Va) as Hq. rewrite <- Eb in Hq.
    specialize (Hq Vb Fa). rewrite Sa in Hq. simpl xorb in Hq.
    apply rounds_finite in Hq.
    2:{ rewrite Mb. apply Rle_trans with (p2 1); [|apply p2_le; lia].
        replace (p2 1) with 2%R by (unfold p2; simpl; lra). lra. }
    destruct Hq as (Fq & Vq & Sq & Hqb).
    set (q := F64.div amp (of_Z 127)) in *.
    assert (Hq3 : (mag q <= 4)%R).
    { apply Rabs_le_between in Hqb. rewrite Mb in Hqb.
      pose proof eps_le_half. pose proof (p2_pos (-52)).
      assert (p2 (-1074) <= 1)%R by (change 1%R with (p2 0); apply p2_le; lia).
      nra. }
    pose proof (mul_real q (of_Z h) Vq Vh Fq Fh) as Hy.
    rewrite Sq, Sh in Hy. simpl xorb in Hy.
    apply rounds_finite in Hy.
    2:{ rewrite Mh.
        assert (IZR (Z.abs h) <= p2 32)%R
          by (rewrite <- p2_IZR by lia; apply IZR_le; lia).
        apply Rle_trans with (4 * p2 32)%R.
        - pose proof (mag_nonneg q). apply Rmult_le_compat; try lra.
          apply IZR_le. lia.
        - replace 4%R with (p2 2) by (unfold p2; simpl; lra).
          rewrite <- p2_add. apply p2_le. lia. }
    destruct Hy as (Fy & _ & Sy & _).
    destruct (int_of_float_real _ Fy) as (k & Hk & Hk0 & _).
    rewrite Sy in Hk. exists k. split; [exact Hk | exact Hk0].
Qed.

(** A loop over the columns, with what holds of the columns done. *)
Lemma for_each_columns (body : Z -> Draw.t unit) (w : Z)
    (J : Z -> Pil.image -> Prop) :
  (forall x im, 0 <= x < w -> J x im ->
     exists im', body x im = (Ok tt, im') /\ J (x + 1) im') ->
  forall im, 0 <= w -> J 0 im ->
    exists im', Draw.for_each (range 0 w) body im = (Ok tt, im') /\ J w im'.
Proof.
  intros Hb.
  assert (G : forall k a im, 0 <= a -> a + Z.of_nat k = w -> J a im ->
            exists im', Draw.for_each (range a w) body im = (Ok tt, im')
                        /\ J w im').
  { induction k as [|k IH]; intros a im Ha Hk HJ.
    - rewrite range_empty by lia. exists im. split; [reflexivity|].
      replace w with a by lia. exact HJ.
    - rewrite range_cons by lia.
      destruct (Hb a im ltac:(lia) HJ) as (im1 & E1 & J1).
      destruct (IH (a + 1) im1 ltac:(lia) ltac:(lia) J1) as (im' & E' & J').
      exists im'. split; [|exact J'].
      simpl. unfold Draw.bind. rewrite E1. exact E'. }
  intros im Hw HJ. apply (G (Z.to_nat w) 0 im); [lia | lia | exact HJ].
Qed.

(** A column of a sound request: it is drawn without an exception, it
    leaves the other columns as they are, and on a canvas of at least 46 rows
    it sets the pixel of the centre row, to the quiet colour or to the
    colour computed from the bands. *)
Lemma draw_column_spec (original_amps : list spec_float)
    (resized_bands : list (string * list spec_float)) (x_indices : list Z)
    (x idx : Z) (im : Pil.image) :
  0 <= x < Pil.im_width im -> 0 <= Pil.im_height im < 2 ^ 31 ->
  Np.getitem x_indices x = Ok idx ->
  0 <= idx < Z.of_nat (length original_amps) ->
  Forall (fun v => valid v /\ is_nonneg v = true /\ (mag v <= 128)%R)
    original_amps ->
  Forall (fun band : string * list spec_float =>
            is_Some (BAND_COLORS !! fst band) /\
            length (snd band) = length original_amps /\
            Forall (fun v => valid v /\ is_nonneg v = true) (snd band))
    resized_bands ->
  exists im',
    draw_column original_amps resized_bands x_indices (Pil.im_height im) x im
    = (Ok tt, im') /\
    same_frame im im' /\
    (forall x' y, x' <> x ->
       Pil.im_pixels im' !! (x', y) = Pil.im_pixels im !! (x', y)) /\
    (46 <= Pil.im_height im ->
     exists c,
       Pil.im_pixels im'
         !! (x, TITLE_HEIGHT
                + (Pil.im_height im - TIMELINE_HEIGHT - TITLE_HEIGHT) / 2)
       = Some c /\
       (c = QUIET_COLOR \/ exists band_vals, band_color band_vals = Ok c)).
Proof.
  intros Hx Hh Hidx Hi Hamps Hbands.
  set (h := Pil.im_height im) in *.
  set (wh := h - TIMELINE_HEIGHT - TITLE_HEIGHT).
  set (cy := TITLE_HEIGHT + wh / 2).
  pose proof (getitem_ok original_amps idx (of_Z 0) Hi) as Ea.
  set (amp := nth (Z.to_nat idx) original_amps (of_Z 0)) in *.
  assert (Hamp : valid amp /\ is_nonneg amp = true /\ (mag amp <= 128)%R).
  { apply (proj1 (List.Forall_forall _ original_amps) Hamps).
    apply nth_In. lia. }
  destruct Hamp as (Va & Na & Ma).
  destruct (bar_height_ok amp wh Va Na Ma) as (bh & Ebh).
  { subst wh. unfold TIMELINE_HEIGHT, TITLE_HEIGHT.
    assert (2 ^ 31 < 2 ^ 32) by (apply pow2_lt; lia). lia. }
  assert (Hbh : 46 <= h -> 0 <= bh).
  { intros H46. destruct (bar_height_nonneg amp wh Va Na Ma) as (bh' & E' & H').
    - subst wh. unfold TIMELINE_HEIGHT, TITLE_HEIGHT.
      assert (2 ^ 31 < 2 ^ 32) by (apply pow2_lt; lia). lia.
    - rewrite Ebh in E'. inversion E'. subst. exact H'. }
  assert (Hcy : 46 <= h -> TITLE_HEIGHT <= cy < TITLE_HEIGHT + wh).
  { intros H46. subst cy wh. unfold TITLE_HEIGHT, TIMELINE_HEIGHT.
    pose proof (Z.div_mod (h - 20 - 25) 2 ltac:(lia)).
    pose proof (Z.mod_pos_bound (h - 20 - 25) 2 ltac:(lia)). lia. }
  unfold draw_column, Draw.bind, Draw.lift. fold h. fold wh. fold cy.
  rewrite Hidx, Ea, Ebh.
  destruct (lt_Z amp QUIET_THRESHOLD).
  - unfold draw_quiet.
    destruct (for_each_setitem (range (-1) 2)
                (fun dy => (0 <=? cy + dy) && (cy + dy <? h))
                (fun _ => x) (fun dy => cy + dy) QUIET_COLOR im)
      as (im' & Hrun & Hfr & Hpix).
    { intros dy _ Hc. apply andb_true_iff in Hc as [H1 H2]. fold h. lia. }
    exists im'. split; [exact Hrun|]. split; [exact Hfr|]. split.
    + intros x' y Hne. rewrite Hpix.
      destruct (existsb _ _) eqn:E; [|reflexivity].
      apply existsb_exists in E as (a & _ & Ha).
      apply andb_true_iff in Ha as [Ha _]. apply andb_true_iff in Ha as [_ Ha].
      lia.
    + intros H46. exists QUIET_COLOR. split; [|left; reflexivity].
      rewrite Hpix.
      replace (existsb _ _) with true; [reflexivity|].
      symmetry. apply existsb_range. exists 0. split; [lia|].
      specialize (Hcy H46). unfold TITLE_HEIGHT, TIMELINE_HEIGHT in *.
      repeat (apply andb_true_iff; split); lia.
  - set (g := fun band : string * list spec_float =>
                (fst band, nth (Z.to_nat idx) (snd band) (of_Z 0))).
    rewrite (mapM_ok _ g).
    2:{ intros band Hb.
        destruct (proj1 (List.Forall_forall _ resized_bands) Hbands band Hb)
          as (_ & Hl & _).
        rewrite (getitem_ok (snd band) idx (of_Z 0)) by lia. reflexivity. }
    destruct (band_color_ok (map g resized_bands)) as (c & Ec).
    { apply Forall_map. eapply List.Forall_impl; [|exact Hbands].
      intros band (Hn & Hl & Hv). simpl. split; [assumption|].
      apply (proj1 (List.Forall_forall _ (snd band)) Hv).
      apply nth_In. lia. }
    rewrite Ec. unfold draw_bar.
    destruct (for_each_setitem (range (cy - bh) (cy + bh + 1))
                (fun y => (TITLE_HEIGHT <=? y) && (y <? TITLE_HEIGHT + wh))
                (fun _ => x) (fun y => y) c im)
      as (im' & Hrun & Hfr & Hpix).
    { intros y _ Hc. apply andb_true_iff in Hc as [H1 H2].
      subst wh. fold h. unfold TITLE_HEIGHT, TIMELINE_HEIGHT in *. lia. }
    exists im'. split; [exact Hrun|]. split; [exact Hfr|]. split.
    + intros x' y Hne. rewrite Hpix.
      destruct (existsb _ _) eqn:E; [|reflexivity].
      apply existsb_exists in E as (a & _ & Ha).
      apply andb_true_iff in Ha as [Ha _]. apply andb_true_iff in Ha as [_ Ha].
      lia.
    + intros H46. exists c. split; [|right; eauto].
      rewrite Hpix.
      replace (existsb _ _) with true; [reflexivity|].
      symmetry. apply existsb_range. exists cy.
      specialize (Hcy H46). specialize (Hbh H46). split; [lia|].
      repeat (apply andb_true_iff; split); lia.
Qed.

(** The passes of [render_waveform] on a sound request, one after the
    other. *)
Lemma render_waveform_run (original_amps : list spec_float)
    (band_amps : list (string * list spec_float)) (d : spec_float)
    (track_info : string) (w h : Z) :
  1 <= Z.of_nat (length original_amps) <= 2 ^ 50 ->
  Forall (fun v => valid v /\ is_nonneg v = true /\ (mag v <= 128)%R)
    original_amps ->
  Forall (fun band : string * list spec_float =>
            is_Some (BAND_COLORS !! fst band) /\
            1 <= Z.of_nat (length (snd band)) <= 2 ^ 50 /\
            Forall (fun v => valid v /\ is_nonneg v = true) (snd band))
    band_amps ->
  valid d -> is_pos d = true -> lt_Z d (2 ^ 53) = true ->
  1 <= w < 2 ^ 31 -> 20 <= h < 2 ^ 31 ->
  exists (img : Pil.image) (K : Z) (col : Z -> Z),
    render_waveform original_amps band_amps d track_info w h = Saved img /\
    Pil.im_width img = w /\ Pil.im_height img = h /\
    (IZR (K * 30) <= mag d < IZR ((K + 1) * 30))%R /\
    Pil.im_text img
    = rev (map (fun i => (col i + 3, h - TIMELINE_HEIGHT + 3,
                          tick_label (i * 30), TEXT_COLOR))
             (range 0 (K + 1)))
      ++ [(10, 5, track_info, TITLE_COLOR)] /\
    Pil.im_pixels img !! (0, h - TIMELINE_HEIGHT) = Some TICK_COLOR /\
    (forall x, 0 <= x < w ->
      Pil.im_pixels img !! (x, h - TIMELINE_HEIGHT)
      = Some (if existsb (fun i => col i =? x) (range 0 (K + 1))
              then TICK_COLOR else TIMELINE_COLOR)) /\
    (46 <= h -> forall x, 0 <= x < w ->
       exists c,
         Pil.im_pixels img
           !! (x, TITLE_HEIGHT + (h - TIMELINE_HEIGHT - TITLE_HEIGHT) / 2)
         = Some c /\
         (c = QUIET_COLOR \/ exists band_vals, band_color band_vals = Ok c)).
Proof.
  intros Hn Hamps Hbands Vd Pd Hd Hw Hh.
  set (n := Z.of_nat (length original_amps)) in *.
  assert (H50 : 2 ^ 50 < 2 ^ 53) by (apply pow2_lt; lia).
  (* the bands are resampled *)
  destruct (mapM_Forall2
              (fun band : string * list spec_float =>
                 do amps <- resize_array (snd band) n; Ok (fst band, amps))
              (fun band rband =>
                 is_Some (BAND_COLORS !! fst rband) /\
                 length (snd rband) = length original_amps /\
                 Forall (fun v => valid v /\ is_nonneg v = true) (snd rband))
              band_amps) as (rb & Erb & Hrb).
  { intros band Hb.
    destruct (proj1 (List.Forall_forall _ band_amps) Hbands band Hb)
      as (Hname & Hlen & Hvals).
    destruct (resize_array_ok _ (snd band) n Hlen ltac:(lia) Hvals)
      as (out & Eo & Lo & Po).
    exists (fst band, out). rewrite Eo. split; [reflexivity|].
    simpl. split; [assumption|]. split; [subst n; lia | assumption]. }
  assert (Hrb' : Forall (fun band : string * list spec_float =>
                           is_Some (BAND_COLORS !! fst band) /\
                           length (snd band) = length original_amps /\
                           Forall (fun v => valid v /\ is_nonneg v = true)
                             (snd band)) rb).
  { clear -Hrb. induction Hrb; constructor; assumption. }
  unfold render_waveform. fold n. rewrite Erb.
  (* the canvas *)
  unfold Pil.new.
  destruct (Z.ltb_spec w 0); [lia|]. destruct (Z.ltb_spec h 0); [lia|].
  destruct (Z.leb_spec (2 ^ 31) w); [lia|].
  destruct (Z.leb_spec (2 ^ 31) h); [lia|]. simpl orb. cbv iota.
  unfold draw_waveform. fold n.
  set (wh := h - TIMELINE_HEIGHT - TITLE_HEIGHT).
  set (cy := TITLE_HEIGHT + wh / 2).
  set (ty := TITLE_HEIGHT + wh).
  assert (Hty : ty = h - TIMELINE_HEIGHT) by (subst ty wh; lia).
  assert (Hcy : 0 <= cy < h) by (apply center_y_on_canvas; lia).
  set (im1 := Pil.Image w h BG_COLOR ∅ [(10, 5, track_info, TITLE_COLOR)]).
  unfold Draw.bind at 1. unfold Draw.text at 1. unfold Pil.text.
  simpl Pil.im_width. simpl Pil.im_height. simpl Pil.im_fill.
  simpl Pil.im_pixels. simpl Pil.im_text. fold im1.
  (* the centre line *)
  destruct (draw_row w cy CENTER_LINE_COLOR im1 eq_refl Hcy)
    as (im2 & E2 & F2 & _).
  unfold Draw.bind at 1. rewrite E2.
  (* the columns *)
  destruct (linspace_intp_indices (n - 1) w ltac:(lia) ltac:(lia))
    as [Exs Hxs].
  unfold Draw.bind at 1. unfold Draw.lift at 1. rewrite Exs.
  set (f := fun i => Np.astype_int64 (Np.linspace_at (n - 1) w i)) in *.
  destruct (same_frame_size _ _ F2) as [Wd2 Ht2]. simpl in Wd2, Ht2.
  destruct (for_each_columns
              (draw_column original_amps rb (map f (range 0 w)) h) w
              (fun x im =>
                 same_frame im2 im /\
                 (46 <= h -> forall x', 0 <= x' < x ->
                    exists c,
                      Pil.im_pixels im !! (x', cy) = Some c /\
                      (c = QUIET_COLOR \/
                       exists band_vals, band_color band_vals = Ok c))))
    with (im := im2) as (im3 & E3 & F3 & C3).
  { intros x im Hx [Him Hdone].
    destruct (same_frame_size _ _ Him) as [Wdi Hti].
    destruct (draw_column_spec original_amps rb (map f (range 0 w)) x (f x) im)
      as (im' & E' & F' & O' & C'); try assumption.
    - lia.
    - lia.
    - rewrite (getitem_ok _ x 0) by (rewrite length_map, length_range; lia).
      rewrite nth_map_range by lia. reflexivity.
    - pose proof (Hxs x ltac:(lia)) as Hr. fold (f x) in Hr. fold n. lia.
    - exists im'. split; [rewrite <- E'; f_equal; lia|].
      split; [eapply same_frame_trans; eassumption|].
      intros H46 x' Hx'. destruct (Z.eq_dec x' x) as [-> | Hne].
      + rewrite Hti, Ht2 in C'. apply C'. assumption.
      + rewrite O' by assumption. apply Hdone; [assumption | lia]. }
  { lia. }
  { split; [apply same_frame_refl|]. intros _ x' Hx'. lia. }
  unfold Draw.bind at 1. rewrite E3.
  (* the timeline *)
  destruct (same_frame_size _ _ F3) as [Wd3 Ht3].
  destruct (draw_row w ty TIMELINE_COLOR im3 ltac:(lia)) as (im4 & E4 & F4 & P4).
  { unfold TIMELINE_HEIGHT in Hty. lia. }
  unfold Draw.bind at 1. rewrite E4.
  (* the ticks *)
  destruct (same_frame_size _ _ F4) as [Wd4 Ht4].
  destruct (draw_ticks_run d w h ty im4 Vd Pd Hd Hw)
    as (K & col & im5 & HK & HKd & Hc0 & Hcr & E5 & Wd5 & Ht5 & _ & T5 & P5);
    try lia.
  { unfold TIMELINE_HEIGHT in Hty. lia. }
  rewrite E5.
  exists im5, K, col. split; [reflexivity|].
  split; [assumption|]. split; [assumption|].
  split; [exact HKd|].
  assert (T4 : Pil.im_text im4 = [(10, 5, track_info, TITLE_COLOR)]).
  { destruct F2 as (_ & _ & _ & T2). destruct F3 as (_ & _ & _ & T3).
    destruct F4 as (_ & _ & _ & T4). rewrite T4, T3, T2. reflexivity. }
  split.
  { rewrite T5, T4, <- Hty. reflexivity. }
  assert (Hrow : forall x, 0 <= x < w ->
            Pil.im_pixels im5 !! (x, ty)
            = Some (if existsb (fun i => col i =? x) (range 0 (K + 1))
                    then TICK_COLOR else TIMELINE_COLOR)).
  { intros x Hx. rewrite P5, P4.
    replace (ty <=? ty) with true by lia.
    replace (ty <? Z.min (ty + 5) h) with true
      by (unfold TIMELINE_HEIGHT in Hty; lia).
    replace (0 <=? x) with true by lia. replace (x <? w) with true by lia.
    rewrite Z.eqb_refl. simpl.
    destruct (existsb _ _); reflexivity. }
  rewrite <- Hty. split; [|split; [exact Hrow|]].
  { rewrite Hrow by lia.
    replace (existsb (fun i => col i =? 0) (range 0 (K + 1))) with true;
      [reflexivity|].
    symmetry. apply existsb_range. exists 0. split; [lia|].
    rewrite Hc0. reflexivity. }
  intros H46 x Hx. rewrite P5, P4.
  assert (Hlt : cy < ty).
  { subst cy ty wh. unfold TITLE_HEIGHT, TIMELINE_HEIGHT.
    pose proof (Z.div_mod (h - 20 - 25) 2 ltac:(lia)).
    pose proof (Z.mod_pos_bound (h - 20 - 25) 2 ltac:(lia)). lia. }
  replace (ty <=? cy) with false by lia.
  replace (cy =? ty) with false by lia.
  rewrite !andb_false_r. simpl. apply C3; assumption.
Qed.

(** A request whose magnitudes and band values are sound, with a positive
    duration, at least one column and at least twenty rows, is rendered and
    saved.  The image has the size asked for; its texts are the title and,
    after it, the labels of the ticks; the row of the timeline is painted
    from edge to edge, in the tick colour where a tick stands (as in column
    0) and in the timeline colour elsewhere. *)
Theorem render_waveform_saves (original_amps : list spec_float)
    (band_amps : list (string * list spec_float)) (d : spec_float)
    (track_info : string) (w h : Z) :
  1 <= Z.of_nat (length original_amps) <= 2 ^ 50 ->
  Forall (fun v => valid v /\ is_nonneg v = true /\ (mag v <= 128)%R)
    original_amps ->
  Forall (fun band : string * list spec_float =>
            is_Some (BAND_COLORS !! fst band) /\
            1 <= Z.of_nat (length (snd band)) <= 2 ^ 50 /\
            Forall (fun v => valid v /\ is_nonneg v = true) (snd band))
    band_amps ->
  valid d -> is_pos d = true -> lt_Z d (2 ^ 53) = true ->
  1 <= w < 2 ^ 31 -> 20 <= h < 2 ^ 31 ->
  exists (img : Pil.image) (K : Z) (col : Z -> Z),
    render_waveform original_amps band_amps d track_info w h = Saved img /\
    Pil.im_width img = w /\ Pil.im_height img = h /\
    (IZR (K * 30) <= mag d < IZR ((K + 1) * 30))%R /\
    Pil.im_text img
    = rev (map (fun i => (col i + 3, h - TIMELINE_HEIGHT + 3,
                          tick_label (i * 30), TEXT_COLOR))
             (range 0 (K + 1)))
      ++ [(10, 5, track_info, TITLE_COLOR)] /\
    Pil.im_pixels img !! (0, h - TIMELINE_HEIGHT) = Some TICK_COLOR /\
    forall x, 0 <= x < w ->
      Pil.im_pixels img !! (x, h - TIMELINE_HEIGHT)
      = Some (if existsb (fun i => col i =? x) (range 0 (K + 1))
              then TICK_COLOR else TIMELINE_COLOR).
Proof.
  intros Hn Hamps Hbands Vd Pd Hd Hw Hh.
  destruct (render_waveform_run original_amps band_amps d track_info w h
              Hn Hamps Hbands Vd Pd Hd Hw Hh)
    as (img & K & col & H1 & H2 & H3 & H4 & H5 & H6 & H7 & _).
  exists img, K, col. auto 10.
Qed.

Lemma render_waveform_saves_witness :
  exists img,
    render_waveform [of_Z 5; of_Z 120] [("mid"%string, [of_Z 60])]
      (of_Z 65) "t" 3 50 = Saved img /\
    Pil.im_pixels img !! (0, 30) = Some TICK_COLOR.
Proof.
  destruct (render_waveform_saves [of_Z 5; of_Z 120]
              [("mid"%string, [of_Z 60])] (of_Z 65) "t" 3 50)
    as (img & K & col & E & _ & _ & _ & _ & P & _).
  - simpl. lia.
  - repeat constructor; try reflexivity; vm_compute; lra.
  - repeat constructor; try reflexivity; simpl; try lia.
    eexists. vm_compute. reflexivity.
  - reflexivity.
  - reflexivity.
  - reflexivity.
  - split; [lia | reflexivity].
  - split; [lia | reflexivity].
  - exists img. split; [exact E | exact P].
Defined.

(** ** The column of a tick on a duration of whole seconds *)

(** For a duration of [D] whole seconds, the tick of time [t] stands at
    column [floor(t * (width - 1) / D)] or one column to the left of it. *)
Theorem tick_x_floor (D w t : Z) :
  1 <= D < 2 ^ 53 -> 0 <= t <= D -> 1 <= w < 2 ^ 31 ->
  t * (w - 1) < 2 ^ 50 ->
  exists x,
    tick_x (of_Z D) w t = Ok x /\
    t * (w - 1) / D - 1 <= x <= t * (w - 1) / D.
Proof.
  intros HD Ht Hw HN.
  destruct (of_Z_pos D ltac:(lia)) as (Vd & Pd & Md).
  assert (Hlt : lt_Z (of_Z D) (2 ^ 53) = true).
  { apply (lt_Z_real _ _ (is_pos_nonneg _ Pd)). rewrite Md.
    apply IZR_lt. lia. }
  destruct (tick_x_value (of_Z D) w t Vd Pd Hlt Hw ltac:(lia))
    as (x & Ex & Hx & Hup & Hlo).
  { rewrite Md. apply IZR_le. lia. }
  exists x. split; [exact Ex|].
  rewrite Md in Hup, Hlo.
  set (N := t * (w - 1)) in *.
  assert (HN0 : 0 <= N) by (subst N; nia).
  set (P := (IZR t / IZR D * IZR (w - 1))%R) in *.
  assert (HDR : (1 <= IZR D)%R) by (apply IZR_le; lia).
  assert (HPD : (P * IZR D = IZR N)%R).
  { subst P N. rewrite mult_IZR. field. lra. }
  assert (HNR : (0 <= IZR N < IZR (2 ^ 50))%R)
    by (split; [apply IZR_le | apply IZR_lt]; lia).
  assert (He : (p2 (-50) * IZR (2 ^ 50) = 1)%R).
  { rewrite p2_IZR by lia. rewrite <- p2_add. apply p2_0. }
  pose proof (p2_pos (-50)) as He0.
  assert (HeN : (p2 (-50) * IZR N < 1)%R) by nra.
  pose proof (Z.div_mod N D ltac:(lia)) as Hdm.
  pose proof (Z.mod_pos_bound N D ltac:(lia)) as Hr.
  set (k := N / D) in *. set (r := N mod D) in *.
  assert (HkR : (IZR N = IZR D * IZR k + IZR r)%R).
  { rewrite <- mult_IZR, <- plus_IZR. f_equal. exact Hdm. }
  assert (HrR : (0 <= IZR r <= IZR D - 1)%R).
  { split; [apply IZR_le; lia|]. rewrite <- minus_IZR. apply IZR_le. lia. }
  assert (HP0 : (0 <= P)%R) by nra.
  assert (HPN : (P <= IZR N)%R) by nra.
  split.
  - assert (H : (IZR k < IZR (x + 2))%R).
    { rewrite plus_IZR.
      assert (IZR k <= P)%R by nra.
      assert (P * p2 (-50) < 1)%R by nra. lra. }
    apply lt_IZR in H. lia.
  - assert (H : (IZR x < IZR (k + 1))%R).
    { rewrite plus_IZR.
      apply Rmult_lt_reg_r with (IZR D); [lra|].
      assert (IZR x * IZR D <= P * (1 + p2 (-50)) * IZR D)%R
        by (apply Rmult_le_compat_r; lra).
      nra. }
    apply lt_IZR in H. lia.
Qed.

Lemma tick_x_floor_witness :
  exists x, tick_x (of_Z 65) 4000 30 = Ok x /\ 1844 <= x <= 1845.
Proof.
  destruct (tick_x_floor 65 4000 30) as (x & E & H).
  - split; [lia | reflexivity].
  - lia.
  - split; [lia | reflexivity].
  - reflexivity.
  - exists x. split; [exact E|]. vm_compute in H. exact H.
Defined.

(** ** The duration of the track *)

(** The duration [main] computes, and how far it is from the exact
    quotient. *)
Lemma main_duration_sound (data_len samples_per_pixel sample_rate : Z) :
  2 <= data_len -> 1 <= samples_per_pixel -> 1 <= sample_rate < 2 ^ 53 ->
  data_len / 2 * samples_per_pixel < 2 ^ 52 ->
  exists d,
    main_duration data_len samples_per_pixel sample_rate = Ok d /\
    valid d /\ is_pos d = true /\ lt_Z d (2 ^ 53) = true /\
    let exact := (IZR (data_len / 2 * samples_per_pixel) / IZR sample_rate)%R in
    (Rabs (mag d - exact) <= exact * p2 (-52))%R.
Proof.
  intros Hl Hs Hr HN.
  assert (Hn : 1 <= data_len / 2).
  { apply Z.div_le_lower_bound; lia. }
  set (N := data_len / 2 * samples_per_pixel) in *.
  assert (HN1 : 1 <= N) by (subst N; nia).
  assert (H52 : 2 ^ 52 < 2 ^ 53) by (apply pow2_lt; lia).
  destruct (of_Z_pos N ltac:(lia)) as (Va & Pa & Ma).
  destruct (of_Z_pos sample_rate ltac:(lia)) as (Vb & Pb & Mb).
  unfold main_duration. fold N.
  rewrite !float_of_int_exact by lia. unfold Py.bind.
  rewrite truediv_pos by assumption.
  assert (HNR : (1 <= IZR N < IZR (2 ^ 52))%R)
    by (split; [apply IZR_le | apply IZR_lt]; lia).
  assert (HrR : (1 <= IZR sample_rate < IZR (2 ^ 53))%R)
    by (split; [apply IZR_le | apply IZR_lt]; lia).
  rewrite !p2_IZR in * by lia.
  assert (Hq : (p2 (-53) <= IZR N / IZR sample_rate <= p2 52)%R).
  { assert (E : (p2 (-53) * p2 53 = 1)%R) by (rewrite <- p2_add; apply p2_0).
    pose proof (p2_pos (-53)). split.
    - apply Rmult_le_reg_r with (IZR sample_rate); [lra|].
      unfold Rdiv. rewrite Rmult_assoc, Rinv_l, Rmult_1_r by lra. nra.
    - apply Rmult_le_reg_r with (IZR sample_rate); [lra|].
      unfold Rdiv. rewrite Rmult_assoc, Rinv_l, Rmult_1_r by lra.
      pose proof (p2_pos 52). nra. }
  destruct (div_pos_real (of_Z N) (of_Z sample_rate) Va Pa Vb Pb)
    as (Vd & Pd & Hd).
  { rewrite Ma, Mb. destruct Hq. split.
    - apply Rle_trans with (p2 (-53)); [apply p2_le; lia | assumption].
    - apply Rle_trans with (p2 52); [assumption | apply p2_le; lia]. }
  rewrite Ma, Mb in Hd.
  eexists. split; [reflexivity|]. split; [assumption|]. split; [assumption|].
  split; [|exact Hd].
  apply (lt_Z_real _ _ (is_pos_nonneg _ Pd)).
  rewrite p2_IZR by lia.
  apply Rabs_le_between in Hd.
  assert (E : (p2 53 = 2 * p2 52)%R).
  { change 53 with (1 + 52). rewrite p2_add. unfold p2 at 1. simpl. lra. }
  pose proof eps_le_half. pose proof (p2_pos (-52)). pose proof (p2_pos 52).
  nra.
Qed.

(** For at least one pair of values, and positive numbers of samples per
    pixel and per second, the duration is a positive binary64 number within
    a relative distance [2^-52] of [n_pixels * samples_per_pixel /
    sample_rate], and fit for the tick pass. *)
Theorem main_duration_value (data_len samples_per_pixel sample_rate : Z) :
  2 <= data_len -> 1 <= samples_per_pixel -> 1 <= sample_rate < 2 ^ 53 ->
  data_len / 2 * samples_per_pixel < 2 ^ 52 ->
  exists d,
    main_duration data_len samples_per_pixel sample_rate = Ok d /\
    valid d /\ is_pos d = true /\ lt_Z d (2 ^ 53) = true /\
    let exact := (IZR (data_len / 2 * samples_per_pixel) / IZR sample_rate)%R in
    (Rabs (mag d - exact) <= exact * p2 (-52))%R.
Proof. apply main_duration_sound. Qed.

Lemma main_duration_value_witness :
  exists d, main_duration 65000 88 44100 = Ok d /\ lt_Z d (2 ^ 53) = true.
Proof.
  destruct (main_duration_value 65000 88 44100) as (d & E & _ & _ & H & _).
  - lia.
  - lia.
  - split; [lia | reflexivity].
  - reflexivity.
  - exists d. auto.
Defined.

(** ** Requests that are never rendered *)

(** When the tick pass raises whatever the canvas, the drawing raises. *)
Lemma draw_waveform_never_ok (original_amps : list spec_float)
    (resized_bands : list (string * list spec_float)) (d : spec_float)
    (track_info : string) (width height : Z) (im : Pil.image) :
  (forall ty im0, exists e,
     draw_ticks d width height ty im0 = (Raise e, im0)) ->
  exists e im',
    draw_waveform original_amps resized_bands d track_info width height im
    = (Raise e, im').
Proof.
  intros Ht. unfold draw_waveform.
  assert (G : forall {A B : Type} (m : Draw.t A) (f : A -> Draw.t B) im0,
            (forall a im1, exists e im2, f a im1 = (Raise e, im2)) ->
            exists e im2, Draw.bind m f im0 = (Raise e, im2)).
  { intros A B m f im0 Hf. unfold Draw.bind.
    destruct (m im0) as [[a|e] im1]; eauto. }
  apply G. intros _ im1. apply G. intros _ im2. apply G. intros xs im3.
  apply G. intros _ im4. apply G. intros _ im5.
  destruct (Ht (TITLE_HEIGHT + (height - TIMELINE_HEIGHT - TITLE_HEIGHT)) im5)
    as (e & E).
  rewrite E. eauto.
Qed.

Lemma render_waveform_never_saved (original_amps : list spec_float)
    (band_amps : list (string * list spec_float)) (d : spec_float)
    (track_info : string) (w h : Z) (saved : Pil.image) :
  (forall ty im0, exists e, draw_ticks d w h ty im0 = (Raise e, im0)) ->
  render_waveform original_amps band_amps d track_info w h <> Saved saved.
Proof.
  intros Ht. unfold render_waveform.
  destruct (mapM _ band_amps) as [rb|ex]; [|discriminate].
  destruct (Pil.new w h BG_COLOR) as [img|ex]; [|discriminate].
  destruct (draw_waveform_never_ok original_amps rb d track_info w h img Ht)
    as (ex & im' & E).
  rewrite E. discriminate.
Qed.

Lemma draw_ticks_not_positive (d : spec_float) (w h ty : Z) (im : Pil.image) :
  is_zero d = true \/ is_finite d = false ->
  exists e, draw_ticks d w h ty im = (Raise e, im).
Proof.
  intros [Hz | Hf].
  - destruct d as [s| | |]; try discriminate.
    rewrite draw_ticks_zero. eauto.
  - destruct d as [|[]| |]; try discriminate; eexists; reflexivity.
Qed.

(** A duration that is zero, infinite or not a number is never rendered to
    a file: the tick pass, the last one, raises on every canvas. *)
Theorem render_waveform_not_a_duration (original_amps : list spec_float)
    (band_amps : list (string * list spec_float)) (d : spec_float)
    (track_info : string) (w h : Z) (saved : Pil.image) :
  is_zero d = true \/ is_finite d = false ->
  render_waveform original_amps band_amps d track_info w h <> Saved saved.
Proof.
  intros Hd. apply render_waveform_never_saved.
  intros ty im0. apply draw_ticks_not_positive. exact Hd.
Qed.

Lemma render_waveform_not_a_duration_witness :
  render_waveform [of_Z 5; of_Z 120] [("mid"%string, [of_Z 60])]
    S754_nan "t" 3 50
  <> Saved (Pil.Image 3 50 BG_COLOR ∅ []).
Proof.
  apply render_waveform_not_a_duration. right. reflexivity.
Defined.

(** ** From the waveform data to the image *)

Lemma magnitudes_range (raw : list Z) :
  Forall (fun v => -128 <= v <= 127) raw ->
  Forall (fun k => 0 <= k <= 128) (Spec.magnitudes raw).
Proof.
  induction raw as [|a|a b l IH] using list_pair_ind; intros H; simpl.
  - constructor.
  - constructor.
  - inversion H as [|? ? Ha H']. inversion H' as [|? ? Hb H'']. subst.
    constructor; [lia | apply IH; assumption].
Qed.

(** The magnitudes of a stream of pairs, ready for [render_waveform]. *)
Lemma extract_amplitudes_ok (c : Np.int_cast) (raw : list Z) (n : nat) :
  length raw = (2 * n)%nat -> Forall (fun v => -128 <= v <= 127) raw ->
  exists out,
    extract_amplitudes c raw = Ok out /\ length out = n /\
    Forall (fun v => valid v /\ is_nonneg v = true /\ (mag v <= 128)%R) out.
Proof.
  intros Hlen Hr. exists (map F64.of_Z (Spec.magnitudes raw)).
  split; [|split].
  - unfold extract_amplitudes. rewrite mapM_to_int8_in_range by assumption.
    simpl. apply maximum_slices; [exists n; assumption | assumption].
  - rewrite length_map. apply length_magnitudes. assumption.
  - apply Forall_map. eapply List.Forall_impl; [|apply magnitudes_range; exact Hr].
    intros k Hk. cbv beta in Hk. cbv beta.
    assert (H7 : 2 ^ 7 < 2 ^ 53) by (apply pow2_lt; lia).
    change (2 ^ 7) with 128 in H7.
    destruct (of_Z_real k ltac:(lia)) as (Fk & Vk & Sk & Mk & Hk').
    split; [assumption|]. split.
    + destruct (Z.eq_dec k 0) as [-> | Hne]; [reflexivity|].
      destruct (Hk' Hne) as (m & e & E). rewrite E.
      replace (k <? 0) with false by lia. reflexivity.
    + rewrite Mk. apply IZR_le. lia.
Qed.

(** From waveform data that is what [audiowaveform --bits 8] writes (pairs
    of values in -128..127, at least one pair for the track and for each
    band, the bands named as in [BAND_COLORS]), with positive numbers of
    samples per pixel and per second, [main] gets an image of the size asked
    for, and saves it. *)
Theorem main_render_saves (c : Np.int_cast) (orig_data : list Z)
    (band_data : list (string * list Z)) (n : nat)
    (samples_per_pixel sample_rate : Z) (track_info : string) (w h : Z) :
  length orig_data = (2 * n)%nat -> 1 <= Z.of_nat n <= 2 ^ 50 ->
  Forall (fun v => -128 <= v <= 127) orig_data ->
  Forall (fun band : string * list Z =>
            is_Some (BAND_COLORS !! fst band) /\
            Forall (fun v => -128 <= v <= 127) (snd band) /\
            exists m, length (snd band) = (2 * m)%nat /\
                      1 <= Z.of_nat m <= 2 ^ 50) band_data ->
  1 <= samples_per_pixel -> 1 <= sample_rate < 2 ^ 53 ->
  Z.of_nat n * samples_per_pixel < 2 ^ 52 ->
  1 <= w < 2 ^ 31 -> 20 <= h < 2 ^ 31 ->
  exists img,
    main_render c orig_data band_data samples_per_pixel sample_rate
      track_info w h = Saved img /\
    Pil.im_width img = w /\ Pil.im_height img = h.
Proof.
  intros Hlen Hn Hr Hbands Hs Hsr HN Hw Hh.
  destruct (extract_amplitudes_ok c orig_data n Hlen Hr)
    as (amps & Ea & La & Pa).
  destruct (mapM_Forall2
              (fun band : string * list Z =>
                 do amps <- extract_amplitudes c (snd band);
                 Ok (fst band, amps))
              (fun (band : string * list Z)
                   (out : string * list spec_float) =>
                 is_Some (BAND_COLORS !! fst out) /\
                 1 <= Z.of_nat (length (snd out)) <= 2 ^ 50 /\
                 Forall (fun v => valid v /\ is_nonneg v = true) (snd out))
              band_data) as (bands & Eb & Hb).
  { intros band Hin.
    destruct (proj1 (List.Forall_forall _ band_data) Hbands band Hin)
      as (Hname & Hvals & m & Hm & Hm1).
    destruct (extract_amplitudes_ok c (snd band) m Hm Hvals)
      as (out & Eo & Lo & Po).
    exists (fst band, out). rewrite Eo. split; [reflexivity|].
    simpl. split; [assumption|]. split; [lia|].
    eapply List.Forall_impl; [|exact Po]. intros v (V & N & _). auto. }
  assert (Hb' : Forall (fun out : string * list spec_float =>
                          is_Some (BAND_COLORS !! fst out) /\
                          1 <= Z.of_nat (length (snd out)) <= 2 ^ 50 /\
                          Forall (fun v => valid v /\ is_nonneg v = true)
                            (snd out)) bands).
  { clear -Hb. induction Hb; constructor; assumption. }
  assert (Hhalf : Z.of_nat (length orig_data) / 2 = Z.of_nat n).
  { rewrite Hlen, Nat2Z.inj_mul. change (Z.of_nat 2) with 2.
    rewrite Z.mul_comm, Z.div_mul by lia. reflexivity. }
  destruct (main_duration_sound (Z.of_nat (length orig_data))
              samples_per_pixel sample_rate)
    as (d & Ed & Vd & Pd & Hd & _); try assumption.
  { rewrite Hlen. lia. }
  { rewrite Hhalf. assumption. }
  destruct (render_waveform_run amps bands d track_info w h)
    as (img & K & col & E & Wi & Hi & _); try assumption.
  { rewrite La. assumption. }
  exists img. unfold main_render. rewrite Ea, Eb, Ed. auto.
Qed.

Lemma main_render_saves_witness :
  exists img,
    main_render Np.CastRaises [-3; 5; 100; -100] [("mid"%string, [0; 90])]
      88 44100 "t" 3 50 = Saved img /\
    Pil.im_width img = 3 /\ Pil.im_height img = 50.
Proof.
  apply (main_render_saves Np.CastRaises [-3; 5; 100; -100]
           [("mid"%string, [0; 90])] 2 88 44100 "t" 3 50).
  - reflexivity.
  - simpl. lia.
  - repeat constructor; lia.
  - repeat constructor; simpl; try lia.
    + eexists. vm_compute. reflexivity.
    + exists 1%nat. simpl. lia.
  - lia.
  - split; [lia | reflexivity].
  - reflexivity.
  - split; [lia | reflexivity].
  - split; [lia | reflexivity].
Defined.

(** With no pair of values for the track, [main] never saves an image: the
    duration it computes is zero (or is not a number), and the magnitudes, if
    any column is drawn at all, are missing. *)
Theorem main_render_short (c : Np.int_cast) (orig_data : list Z)
    (band_data : list (string * list Z))
    (samples_per_pixel sample_rate : Z) (track_info : string) (w h : Z)
    (saved : Pil.image) :
  (length orig_data < 2)%nat ->
  main_render c orig_data band_data samples_per_pixel sample_rate
    track_info w h <> Saved saved.
Proof.
  intros Hlen. unfold main_render.
  destruct (extract_amplitudes c orig_data) as [amps|e]; [|discriminate].
  destruct (mapM _ band_data) as [bands|e]; [|discriminate].
  assert (Hhalf : Z.of_nat (length orig_data) / 2 = 0).
  { apply Z.div_small. lia. }
  unfold main_duration. rewrite Hhalf, Z.mul_0_l.
  change (Np.float_of_int 0) with (@Ok spec_float (S754_zero false)).
  unfold Py.bind, Np.float_of_int, Np.truediv.
  destruct (of_Z sample_rate) as [s | s | | s m e]; try discriminate.
  - apply render_waveform_never_saved. intros ty im0.
    apply draw_ticks_not_positive. right. reflexivity.
  - apply render_waveform_never_saved. intros ty im0.
    apply draw_ticks_not_positive. left. destruct s; reflexivity.
Qed.

Lemma main_render_short_witness :
  main_render Np.CastRaises [7] [] 88 44100 "t" 3 50
  <> Saved (Pil.Image 3 50 BG_COLOR ∅ []).
Proof. apply main_render_short. simpl. lia. Defined.



(** ** Requests that fail before the canvas exists *)

Lemma mapM_raises_only {A B : Type} (f : A -> result B) (e0 : exn)
    (l : list A) :
  (forall a, In a l -> is_ok (f a) = true \/ f a = Raise e0) ->
  is_ok (mapM f l) = true \/ mapM f l = Raise e0.
Proof.
  induction l as [|a l IH]; intros H; simpl; [left; reflexivity|].
  destruct (H a (or_introl eq_refl)) as [Ha | Ha].
  - destruct (f a) as [b|e]; [|discriminate].
    destruct (IH (fun a' Ha' => H a' (or_intror Ha'))) as [Hl | Hl].
    + destruct (mapM f l); [left; reflexivity | discriminate].
    + rewrite Hl. right. reflexivity.
  - rewrite Ha. right. reflexivity.
Qed.

Lemma mapM_raises_at {A B : Type} (f : A -> result B) (e0 : exn)
    (l : list A) (a : A) :
  (forall a', In a' l -> is_ok (f a') = true \/ f a' = Raise e0) ->
  In a l -> f a = Raise e0 -> mapM f l = Raise e0.
Proof.
  induction l as [|b l IH]; intros H Hin Ha; [contradiction|]. simpl.
  destruct Hin as [-> | Hin].
  - rewrite Ha. reflexivity.
  - destruct (H b (or_introl eq_refl)) as [Hb | Hb].
    + destruct (f b) as [v|e]; [|discriminate].
      rewrite (IH (fun a' Ha' => H a' (or_intror Ha')) Hin Ha). reflexivity.
    + rewrite Hb. reflexivity.
Qed.

Lemma getitem_raises_only {A : Type} (a : list A) (j : Z) :
  is_ok (Np.getitem a j) = true \/ Np.getitem a j = Raise IndexError.
Proof.
  unfold Np.getitem. destruct (_ && _); [|right; reflexivity].
  destruct (nth_error _ _); [left | right]; reflexivity.
Qed.

(** To a length that is not negative, [resize_array] returns an array or
    raises [IndexError]. *)
Lemma resize_array_raises_only {A : Type} (arr : list A) (T : Z) :
  0 <= T ->
  is_ok (resize_array arr T) = true \/ resize_array arr T = Raise IndexError.
Proof.
  intros HT. unfold resize_array.
  destruct (_ =? _); [left; reflexivity|].
  unfold Np.linspace_intp. destruct (Z.ltb_spec T 0); [lia|].
  unfold Py.bind, Np.take. apply mapM_raises_only.
  intros j _. apply getitem_raises_only.
Qed.

Lemma resize_array_nil {A : Type} (T : Z) :
  1 <= T -> resize_array (@nil A) T = Raise IndexError.
Proof.
  intros HT. unfold resize_array. simpl length.
  destruct (Z.eqb_spec (Z.of_nat 0) T); [lia|].
  unfold Np.linspace_intp. destruct (Z.ltb_spec T 0); [lia|].
  rewrite (range_cons 0 T) by lia. unfold Py.bind, Np.take. simpl.
  rewrite getitem_empty. reflexivity.
Qed.

(** A band without data stops the call before the canvas is created,
    unless the track has no data either: resampling the empty array raises
    [IndexError]. *)
Theorem render_waveform_empty_band (original_amps : list spec_float)
    (band_amps : list (string * list spec_float)) (name : string)
    (d : spec_float) (track_info : string) (w h : Z) :
  original_amps <> [] -> In (name, []) band_amps ->
  render_waveform original_amps band_amps d track_info w h
  = Failed IndexError None.
Proof.
  intros Hne Hin. unfold render_waveform.
  set (n := Z.of_nat (length original_amps)).
  assert (Hn : 1 <= n).
  { subst n. destruct original_amps; [contradiction | simpl length; lia]. }
  rewrite (mapM_raises_at _ IndexError band_amps (name, [])).
  - reflexivity.
  - intros band _.
    destruct (resize_array_raises_only (snd band) n ltac:(lia)) as [H | H].
    + left. destruct (resize_array (snd band) n); [reflexivity | discriminate].
    + right. rewrite H. reflexivity.
  - exact Hin.
  - simpl snd.
    rewrite (resize_array_nil n Hn). reflexivity.
Qed.

Lemma render_waveform_empty_band_witness :
  render_waveform [of_Z 5] [("sub"%string, [of_Z 1]); ("mid"%string, [])]
    (of_Z 65) "t" 3 50 = Failed IndexError None.
Proof.
  apply (render_waveform_empty_band _ _ "mid").
  - discriminate.
  - right. left. reflexivity.
Defined.

(** A size that [Image.new] refuses: the call raises without having drawn
    anything. *)
Theorem render_waveform_no_canvas (original_amps : list spec_float)
    (band_amps : list (string * list spec_float)) (d : spec_float)
    (track_info : string) (w h : Z) :
  w < 0 \/ h < 0 \/ 2 ^ 31 <= w \/ 2 ^ 31 <= h ->
  exists e,
    render_waveform original_amps band_amps d track_info w h = Failed e None.
Proof.
  intros Hs. unfold render_waveform.
  destruct (mapM _ band_amps) as [rb|e]; [|eauto].
  unfold Pil.new.
  destruct (Z.ltb_spec w 0); [simpl; eauto|].
  destruct (Z.ltb_spec h 0); [simpl; eauto|].
  destruct (Z.leb_spec (2 ^ 31) w); [simpl; eauto|].
  destruct (Z.leb_spec (2 ^ 31) h); [simpl; eauto|]. lia.
Qed.

Lemma render_waveform_no_canvas_witness :
  exists e,
    render_waveform [of_Z 5] [("sub"%string, [of_Z 1])] (of_Z 65) "t" (-1) 50
    = Failed e None.
Proof. apply render_waveform_no_canvas. left. lia. Defined.

(** ** The columns and the samples *)

(** The first column shows the first magnitude and the last column the
    last one; every column shows a magnitude of the track. *)
Theorem x_indices_endpoints (n w : Z) :
  1 <= n <= 2 ^ 50 -> 2 <= w <= 2 ^ 53 ->
  exists xs,
    Np.linspace_intp (n - 1) w = Ok xs /\ Z.of_nat (length xs) = w /\
    Np.getitem xs 0 = Ok 0 /\ Np.getitem xs (w - 1) = Ok (n - 1) /\
    Forall (fun j => 0 <= j <= n - 1) xs.
Proof.
  intros Hn Hw.
  destruct (linspace_intp_indices (n - 1) w ltac:(lia) ltac:(lia)) as [E Hr].
  set (f := fun i => Np.astype_int64 (Np.linspace_at (n - 1) w i)) in *.
  exists (map f (range 0 w)). split; [exact E|].
  assert (Hlen : Z.of_nat (length (map f (range 0 w))) = w)
    by (rewrite length_map, length_range; lia).
  split; [exact Hlen|].
  pose proof (linspace_at_index (n - 1) (w - 1)) as Hi.
  replace (w - 1 + 1) with w in Hi by lia.
  split; [|split].
  - rewrite (getitem_ok _ 0 0) by lia. rewrite nth_map_range by lia. f_equal.
    pose proof (linspace_at_value (n - 1) (w - 1) 0 ltac:(lia) ltac:(lia)
                  ltac:(lia)) as Hv.
    replace (w - 1 + 1) with w in Hv by lia. cbv zeta in Hv.
    destruct Hv as [[_ Hz] | [Hpos _]]; [|lia].
    unfold f. destruct (Np.linspace_at (n - 1) w 0); try discriminate.
    reflexivity.
  - rewrite (getitem_ok _ (w - 1) 0) by lia. rewrite nth_map_range by lia.
    f_equal.
    destruct (Hi (w - 1) ltac:(lia) ltac:(lia) ltac:(lia)) as (_ & H1 & _).
    apply H1. reflexivity.
  - apply List.Forall_forall. intros j Hj.
    apply in_map_iff in Hj as (i & <- & Hin). apply in_range in Hin.
    apply (Hr i Hin).
Qed.

Lemma x_indices_endpoints_witness :
  exists xs,
    Np.linspace_intp (5 - 1) 4 = Ok xs /\ Np.getitem xs (4 - 1) = Ok (5 - 1).
Proof.
  destruct (x_indices_endpoints 5 4) as (xs & E & _ & _ & H & _).
  - split; [lia | discriminate].
  - split; [lia | discriminate].
  - exists xs. auto.
Defined.

(** ** Silent bands *)

Lemma add_zeros (x y : spec_float) :
  is_zero x = true -> is_zero y = true -> is_zero (F64.add x y) = true.
Proof.
  destruct x as [[]| | |], y as [[]| | |]; try discriminate; reflexivity.
Qed.

Lemma sum_zeros (vals : list spec_float) (acc : spec_float) :
  is_zero acc = true -> Forall (fun v => is_zero v = true) vals ->
  is_zero (fold_left F64.add vals acc) = true.
Proof.
  revert acc. induction vals as [|v vals IH]; intros acc Ha Hv; simpl.
  - exact Ha.
  - inversion Hv; subst. apply IH; [apply add_zeros|]; assumption.
Qed.

Lemma band_total_silent (band_vals : list (string * spec_float)) :
  Forall (fun b => is_zero (snd b) = true) band_vals ->
  band_total band_vals = EPSILON.
Proof.
  intros H. unfold band_total.
  assert (Hz : is_zero (fold_left F64.add (map snd band_vals) (of_Z 0)) = true).
  { apply sum_zeros; [reflexivity|]. apply Forall_map. exact H. }
  destruct (fold_left _ _ _) as [[]| | |]; try discriminate; reflexivity.
Qed.

Lemma accumulate_all_silent (band_vals : list (string * spec_float))
    (r g b : spec_float) :
  Forall (fun b => is_Some (BAND_COLORS !! fst b) /\ is_zero (snd b) = true)
    band_vals ->
  is_zero r = true -> is_zero g = true -> is_zero b = true ->
  exists r' g' b',
    accumulate_all EPSILON (r, g, b) band_vals = Ok (r', g', b') /\
    is_zero r' = true /\ is_zero g' = true /\ is_zero b' = true.
Proof.
  revert r g b. induction band_vals as [|[name val] rest IH];
    intros r g b H Zr Zg Zb.
  - exists r, g, b. auto.
  - inversion H as [|? ? [Hn Hz] H']. subst. simpl in Hn, Hz.
    destruct Hn as [[[cr cg] cb] Hc].
    pose proof (band_colors_range name cr cg cb Hc) as (Rr & Rg & Rb).
    simpl accumulate_all. unfold accumulate. unfold color in *. rewrite Hc.
    assert (PE : is_pos EPSILON = true) by reflexivity.
    unfold Py.bind.
    destruct val as [s| | |]; try discriminate.
    rewrite div_zero_l by assumption.
    assert (Hm : forall c, 0 <= c <= 255 ->
              is_zero (F64.mul (of_Z c) (S754_zero s)) = true).
    { intros c Hc'. assert (2 ^ 8 < 2 ^ 53) by (apply pow2_lt; lia).
      change (2 ^ 8) with 256 in *.
      destruct (of_Z_real c ltac:(lia)) as (Fc & _).
      rewrite mul_zero_r by (assumption || reflexivity). reflexivity. }
    apply IH; [assumption | | |];
      (apply add_zeros; [assumption | apply Hm; lia]).
Qed.

(** When every band is silent at a column, the colour of the column is
    black: the weights are [0 / 1e-6]. *)
Theorem band_color_silent (band_vals : list (string * spec_float)) :
  Forall (fun b => is_Some (BAND_COLORS !! fst b) /\ is_zero (snd b) = true)
    band_vals ->
  band_color band_vals = Ok (0, 0, 0).
Proof.
  intros H. unfold band_color.
  rewrite band_total_silent.
  2:{ eapply List.Forall_impl; [|exact H]. intros b [_ Hz]. exact Hz. }
  destruct (accumulate_all_silent band_vals (of_Z 0) (of_Z 0) (of_Z 0) H)
    as (r & g & b & E & Zr & Zg & Zb); try reflexivity.
  rewrite E. simpl.
  destruct r as [[]| | |], g as [[]| | |], b as [[]| | |]; try discriminate;
    reflexivity.
Qed.

Lemma band_color_silent_witness :
  band_color [("sub"%string, S754_zero false); ("high"%string, S754_zero true)]
  = Ok (0, 0, 0).
Proof.
  apply band_color_silent.
  repeat constructor; simpl; eexists; vm_compute; reflexivity.
Defined.
